(** * Restart-safe recovery and raw-partition flashing: a shallow embedding

    This development embeds two programs of the recovery image in Rocq and
    proves properties of them:

    - [FlashImage]: [mtdutils/flash_image.c], the tool that writes an image
      file to a raw flash partition, body first and header last;
    - [Recovery]: the argument resolver [get_args], the finisher
      [finish_recovery] and the command dispatch of [main] in [recovery.c].

    C strings are lists of characters, byte buffers are lists of bytes, C
    [int]s are [Z]; the file system is a finite map from paths to contents. *)

From stdpp Require Import gmap strings list fin_maps pretty.
From Stdlib Require Import ZArith Strings.Byte Strings.Ascii.

Local Open Scope Z_scope.
Local Open Scope nat_scope.

Set Warnings "-abstract-large-number".

#[global] Instance byte_eq_decision : EqDecision byte := byte_eq_dec.

(* ===================================================================== *)
(** * Part I: flash_image.c                                               *)
(* ===================================================================== *)

Module FlashImage.

(** [#define HEADER_SIZE 2048] *)
Definition HEADER_SIZE : nat := 2048.

(** Conversion of an integer value to the 32-bit [int] of the target:
    the result of unsigned ([size_t]) arithmetic stored into an [int]. *)
Definition to_int (z : Z) : Z := ((z + 2 ^ 31) mod 2 ^ 32 - 2 ^ 31)%Z.

(** ** The raw partition primitives *)

(** Modelled from the spec: the [mtdutils] library ([MtdPartition] and the
    [mtd_*] functions declared in [mtdutils.h]) is not among the sources.
    The spec describes it as "raw partition open-for-read / open-for-write /
    close / scan primitives exposing per-partition block size", where a
    partition is a "raw addressable storage region with a fixed block
    size" and "raw devices require whole-block writes".  A partition is
    therefore its name, its block size, its contents, and whether it can
    be opened for reading or for writing. *)
Record MtdPartition := {
  ptn_name : string;
  erase_size : positive;
  ptn_data : list byte;
  ptn_readable : bool;
  ptn_writable : bool;
}.

(** The block size as a number of bytes. *)
Definition block_size_of (p : MtdPartition) : nat := Pos.to_nat (erase_size p).

Definition set_data (p : MtdPartition) (d : list byte) : MtdPartition :=
  {| ptn_name := ptn_name p; erase_size := erase_size p; ptn_data := d;
     ptn_readable := ptn_readable p; ptn_writable := ptn_writable p |}.

(** What the tool can observe and change: the partition table, the files,
    and the number of block writes issued to the flash so far. *)
Record world := {
  partitions : list MtdPartition;
  files : gmap string (list byte);
  block_writes : nat;
}.

Definition unlink (path : string) (w : world) : world :=
  {| partitions := partitions w; files := delete path (files w);
     block_writes := block_writes w |}.

(** Modelled from the spec: [mtd_scan_partitions] returns the number of
    partitions found. *)
Definition mtd_scan_partitions (w : world) : Z :=
  Z.of_nat (length (partitions w)).

(** Modelled from the spec: [mtd_find_partition_by_name]; the returned
    pointer is the index into the partition table, [None] is [NULL]. *)
Definition mtd_find_partition_by_name (w : world) (name : string) : option nat :=
  fst <$> list_find (λ p, ptn_name p = name) (partitions w).

(** Modelled from the spec: [mtd_read_partition] followed by
    [mtd_read_data (in, buf, len)], a read session that starts at the
    beginning of the partition.  [None] is a failed open; the list
    returned by the read holds the bytes read, its length is the count
    the C function returns. *)
Definition mtd_read_partition (w : world) (i : nat) : option MtdPartition :=
  p ← partitions w !! i;
  if ptn_readable p then Some p else None.

Definition mtd_read_data (p : MtdPartition) (len : nat) : list byte :=
  take len (ptn_data p).

(** Modelled from the spec: a write session ([MtdWriteContext]).  It
    starts at the beginning of the partition; data is gathered into whole
    blocks, and a block is written to the flash as soon as it is complete. *)
Record MtdWriteContext := {
  wc_partition : nat;
  wc_pos : nat;
  wc_stored : list byte;
}.

Definition mtd_write_partition (w : world) (i : nat) : option MtdWriteContext :=
  p ← partitions w !! i;
  if ptn_writable p
  then Some {| wc_partition := i; wc_pos := 0; wc_stored := [] |}
  else None.

(** Writing one whole block at the session's position fails when the block
    does not fit in the partition. *)
Definition write_block (ctx : MtdWriteContext) (blk : list byte) (w : world)
  : option (MtdWriteContext * world) :=
  p ← partitions w !! wc_partition ctx;
  if decide (wc_pos ctx + length blk ≤ length (ptn_data p)) then
    let d := take (wc_pos ctx) (ptn_data p) ++ blk
             ++ drop (wc_pos ctx + length blk) (ptn_data p) in
    Some ({| wc_partition := wc_partition ctx;
             wc_pos := wc_pos ctx + length blk;
             wc_stored := [] |},
          {| partitions := <[wc_partition ctx := set_data p d]> (partitions w);
             files := files w;
             block_writes := S (block_writes w) |})
  else None.

Definition write_byte (ctx : MtdWriteContext) (w : world) (b : byte)
  : option (MtdWriteContext * world) :=
  p ← partitions w !! wc_partition ctx;
  let stored := wc_stored ctx ++ [b] in
  if decide (length stored = block_size_of p)
  then write_block ctx stored w
  else Some ({| wc_partition := wc_partition ctx; wc_pos := wc_pos ctx;
                wc_stored := stored |}, w).

(** Modelled from the spec: [mtd_write_data (ctx, data, len)]; [None] is
    a return value other than [len].  The blocks completed before a
    failure stay written. *)
Fixpoint mtd_write_data (ctx : MtdWriteContext) (w : world) (data : list byte)
  : option MtdWriteContext * world :=
  match data with
  | [] => (Some ctx, w)
  | b :: rest =>
      match write_byte ctx w b with
      | Some (ctx', w') => mtd_write_data ctx' w' rest
      | None => (None, w)
      end
  end.

(** Modelled from the spec: [mtd_write_close] commits the session: an
    incomplete last block is filled up (with zero bytes) and written.
    [None] is a non-zero return value. *)
Definition mtd_write_close (ctx : MtdWriteContext) (w : world) : option world :=
  match wc_stored ctx with
  | [] => Some w
  | _ =>
      p ← partitions w !! wc_partition ctx;
      snd <$> write_block ctx
                (resize (block_size_of p) x00 (wc_stored ctx)) w
  end.

(** Modelled from the spec: [mtd_partition_info (partition, NULL,
    &block_size, NULL)], the block size of the partition. *)
Definition mtd_partition_info (w : world) (i : nat) : option positive :=
  erase_size <$> partitions w !! i.

(** ** The image file *)

(** [read (fd, buf, count)] on a regular file whose contents are [content]
    and whose offset is [off]: the bytes read. *)
Definition read (content : list byte) (off count : nat) : list byte :=
  take count (drop off content).

(** [memcmp (a, b, n) == 0] *)
Definition memcmp_eq (a b : list byte) (n : nat) : bool :=
  bool_decide (take n a = take n b).

(** ** main *)

(** The argument loop of lines 70-77. *)
Fixpoint parse_args (args : list string) (deleteImage : bool)
    (partitionName imageFile : option string)
  : bool * option string * option string :=
  match args with
  | [] => (deleteImage, partitionName, imageFile)
  | a :: rest =>
      if String.eqb a "-d" then parse_args rest true partitionName imageFile
      else match partitionName with
           | None => parse_args rest deleteImage (Some a) imageFile
           | Some _ => parse_args rest deleteImage partitionName (Some a)
           end
  end.

(** The local variables that are live after the body has been written. *)
Record locals := {
  deleteImage : bool;
  partitionName : string;
  imageFile : string;
  partition : nat;
  image : list byte;
  header : list byte;
}.

(** Where an execution can be: it has left the program with an exit code
    ([die] exits with 1), it has written and committed the body (line
    136), or a loop has not come to an end. *)
Inductive progress :=
| Exited (code : Z) (w : world)
| BodyWritten (l : locals) (w : world)
| Looping.

Definition die (w : world) : progress := Exited 1 w.

(** Lines 99-116: does the partition already start with the header? *)
Definition header_is_the_same (w : world) (i : nat) (header : list byte) : bool :=
  match mtd_read_partition w i with
  | None => false
  | Some p =>
      let check := mtd_read_data p HEADER_SIZE in
      if bool_decide (length check = 0) then false
      else bool_decide (length check = length header)
           && memcmp_eq header check (length header)
  end.

(** Lines 129-134: [while ((len = read (fd, buf, sizeof (buf))) > 0)];
    the result is [None] when the fuel does not suffice, and else whether
    every write has succeeded, with the world as it then is. *)
Fixpoint copy_body (fuel : nat) (content : list byte) (off : nat)
    (out : MtdWriteContext) (w : world)
  : option (option MtdWriteContext * world) :=
  match fuel with
  | 0 => None
  | S fuel =>
      let buf := read content off HEADER_SIZE in
      if bool_decide (0 < length buf) then
        match mtd_write_data out w buf with
        | (Some out', w') => copy_body fuel content (off + length buf) out' w'
        | (None, w') => Some (None, w')
        end
      else Some (Some out, w)
  end.

(** Lines 56-136. *)
Definition main_steps_1_to_4 (argv : list string) (w : world) : progress :=
  let argc := length argv in
  if bool_decide (argc < 3 ∨ 4 < argc) then Exited 2 w else
  match parse_args (drop 1 argv) false None None with
  | (deleteImage, Some partitionName, Some imageFile) =>
      if bool_decide (mtd_scan_partitions w ≤ 0)%Z then die w else
      match mtd_find_partition_by_name w partitionName with
      | None => die w
      | Some partition =>
          match files w !! imageFile with
          | None => die w
          | Some content =>
              let header := read content 0 HEADER_SIZE in
              let headerlen := length header in
              if bool_decide (headerlen = 0) then die w else
              if header_is_the_same w partition header then
                Exited 0 (if deleteImage then unlink imageFile w else w)
              else
                match mtd_write_partition w partition with
                | None => die w
                | Some out =>
                    match mtd_write_data out w (replicate headerlen x00) with
                    | (None, w) => die w
                    | (Some out, w) =>
                        match copy_body (S (length content)) content headerlen out w with
                        | None => Looping
                        | Some (None, w) => die w
                        | Some (Some out, w) =>
                            match mtd_write_close out w with
                            | None => die w
                            | Some w =>
                                BodyWritten
                                  {| deleteImage := deleteImage;
                                     partitionName := partitionName;
                                     imageFile := imageFile;
                                     partition := partition;
                                     image := content;
                                     header := header |} w
                            end
                        end
                    end
                end
          end
      end
  | _ => Exited 2 w
  end.

(** Line 155: [while (left < 0) left += block_size;] ([left] is an [int],
    [block_size] a [size_t]). *)
Fixpoint round_up_left (fuel : nat) (left_ : Z) (block_size : positive) : option Z :=
  match fuel with
  | 0 => None
  | S fuel =>
      if bool_decide (left_ < 0)%Z
      then round_up_left fuel (to_int (left_ + Z.pos block_size)) block_size
      else Some left_
  end.

(** Lines 156-162: the rest of the first block, read again from the image;
    the result is as for [copy_body], a read of no byte being a failure
    too. *)
Fixpoint write_rest_of_block (fuel : nat) (content : list byte) (off : nat)
    (left_ : Z) (out : MtdWriteContext) (w : world)
  : option (option MtdWriteContext * world) :=
  match fuel with
  | 0 => None
  | S fuel =>
      if bool_decide (0 < left_)%Z then
        let count := if bool_decide (Z.of_nat HEADER_SIZE < left_)%Z
                     then HEADER_SIZE else Z.to_nat left_ in
        let buf := read content off count in
        if bool_decide (length buf = 0) then Some (None, w) else
        match mtd_write_data out w buf with
        | (Some out', w') =>
            write_rest_of_block fuel content (off + length buf)
              (left_ - Z.of_nat (length buf)) out' w'
        | (None, w') => Some (None, w')
        end
      else Some (Some out, w)
  end.

(** Lines 138-170. *)
Definition main_steps_5_to_7 (l : locals) (w : world) : progress :=
  let headerlen := length (header l) in
  match mtd_write_partition w (partition l) with
  | None => die w
  | Some out =>
      match mtd_write_data out w (header l) with
      | (None, w) => die w
      | (Some out, w) =>
          match mtd_partition_info w (partition l) with
          | None => die w
          | Some block_size =>
              let left_ := to_int (Z.pos block_size - Z.of_nat headerlen) in
              match round_up_left (S (Z.to_nat (- left_))) left_ block_size with
              | None => Looping
              | Some left_ =>
                  match write_rest_of_block (S (Z.to_nat left_)) (image l)
                          headerlen left_ out w with
                  | None => Looping
                  | Some (None, w) => die w
                  | Some (Some out, w) =>
                      match mtd_write_close out w with
                      | None => die w
                      | Some w =>
                          Exited 0 (if deleteImage l
                                    then unlink (imageFile l) w else w)
                      end
                  end
              end
          end
      end
  end.

(** [int main (int argc, char **argv)]; [argc] is the length of [argv]. *)
Definition main (argv : list string) (w : world) : progress :=
  match main_steps_1_to_4 argv w with
  | BodyWritten l w' => main_steps_5_to_7 l w'
  | r => r
  end.

(** ** The state of a write session *)

(** A write session on partition [i] of [w0], which there is [p0], after
    the bytes [xs] have been handed to it: the whole blocks of [xs] are on
    the partition, the rest is kept by the session. *)
Record session (i : nat) (p0 : MtdPartition) (w0 : world) (xs : list byte)
    (ctx : MtdWriteContext) (w : world) : Prop := {
  ses_partition : wc_partition ctx = i;
  ses_stored : wc_stored ctx = drop (wc_pos ctx) xs;
  ses_pos : wc_pos ctx ≤ length xs;
  ses_short : length xs - wc_pos ctx < block_size_of p0;
  ses_aligned : (block_size_of p0 | wc_pos ctx);
  ses_fit : wc_pos ctx ≤ length (ptn_data p0);
  ses_data : partitions w =
             <[i := set_data p0 (take (wc_pos ctx) xs
                                 ++ drop (wc_pos ctx) (ptn_data p0))]>
               (partitions w0);
  ses_files : files w = files w0;
}.

(** ** Example invocations *)

Definition example_argv : list string :=
  ["flash_image"; "boot"; "/sdcard/boot.img"]%string.

Definition example_argv_d : list string :=
  ["flash_image"; "-d"; "boot"; "/sdcard/boot.img"]%string.

(** A partition with blocks of 2048 bytes. *)
Definition example_partition (data : list byte) : MtdPartition :=
  {| ptn_name := "boot"; erase_size := 2048; ptn_data := data;
     ptn_readable := true; ptn_writable := true |}.

Definition example_world (data image : list byte) : world :=
  {| partitions := [example_partition data];
     files := {[ "/sdcard/boot.img"%string := image ]};
     block_writes := 0 |}.

(** An image of 5000 bytes. *)
Definition example_image : list byte :=
  replicate 2048 x41 ++ replicate 2952 x42.

(** An image of 5000 bytes whose first [HEADER_SIZE] bytes are zero. *)
Definition zero_header_image : list byte :=
  replicate 2048 x00 ++ replicate 2952 x42.

(** The world an execution is in. *)
Definition world_of (r : progress) (w : world) : world :=
  match r with
  | Exited _ w' => w'
  | BodyWritten _ w' => w'
  | Looping => w
  end.

(** Where the flash of [zero_header_image] to an erased partition of four
    blocks is after the body has been written. *)
Definition zero_header_halted : progress :=
  Eval vm_compute in
    main_steps_1_to_4 example_argv
      (example_world (replicate 8192 xff) zero_header_image).

(** Where the flash of [example_image] to a zeroed partition of four blocks
    is after the body has been written, and at its end. *)
Definition example_halted : progress :=
  Eval vm_compute in
    main_steps_1_to_4 example_argv
      (example_world (replicate 8192 x00) example_image).

Definition example_flashed : progress :=
  Eval vm_compute in
    main example_argv (example_world (replicate 8192 x00) example_image).

(** ** Notions used in the properties of [main] *)

(** The arguments other than [-d], in their order. *)
Definition plain_args (args : list string) : list string :=
  filter (λ a, a ≠ "-d"%string) args.

(** Partition tables that differ at most in the contents of partition [i],
    which keep their size. *)
Definition differ_at (i : nat) (ps ps' : list MtdPartition) : Prop :=
  length ps' = length ps
  ∧ ∀ j p, ps !! j = Some p →
      ∃ d, ps' !! j = Some (set_data p d)
           ∧ length d = length (ptn_data p)
           ∧ (j ≠ i → d = ptn_data p).

(** The number of blocks of [bs] bytes that [n] bytes take. *)
Definition blocks (n bs : nat) : nat := (n + bs - 1) / bs.

(** The blocks that a write session on a partition [p0], opened in the
    world [w0], has written are those below its position. *)
Definition counted (p0 : MtdPartition) (w0 : world)
    (ctx : MtdWriteContext) (w : world) : Prop :=
  block_writes w * block_size_of p0
  = block_writes w0 * block_size_of p0 + wc_pos ctx.

(** ** Further example invocations *)

(** The flash of [example_image] with [-d]. *)
Definition example_flashed_d : progress :=
  Eval vm_compute in
    main example_argv_d (example_world (replicate 8192 x00) example_image).

(** A partition with blocks of 8192 bytes and an image of 5000 bytes: the
    image is shorter than a block. *)
Definition large_block_world : world :=
  {| partitions := [{| ptn_name := "boot"; erase_size := 8192;
                       ptn_data := replicate 16384 xff;
                       ptn_readable := true; ptn_writable := true |}];
     files := {[ "/sdcard/boot.img"%string := example_image ]};
     block_writes := 0 |}.

(** A world whose partition can be written but not read, and holds the
    image already. *)
Definition unreadable_world : world :=
  {| partitions := [{| ptn_name := "boot"; erase_size := 2048;
                       ptn_data := example_image ++ replicate 3192 x00;
                       ptn_readable := false; ptn_writable := true |}];
     files := {[ "/sdcard/boot.img"%string := example_image ]};
     block_writes := 0 |}.

Definition unreadable_flashed : progress :=
  Eval vm_compute in main example_argv unreadable_world.

End FlashImage.

(* ===================================================================== *)
(** * Part II: recovery.c                                                 *)
(* ===================================================================== *)

Module Recovery.

(** ** C strings in character buffers *)

Definition NUL : ascii := "000"%char.
Definition LF : ascii := "010"%char.
Definition CR : ascii := "013"%char.
(** The byte of erased flash, [255]. *)
Definition xFF : ascii := "255"%char.

(** A string literal of the source. *)
Definition str (s : string) : list ascii := String.list_ascii_of_string s.

(** The C string that starts at the beginning of a region of memory: its
    characters up to the first [NUL]. *)
Fixpoint cstr (s : list ascii) : list ascii :=
  match s with
  | [] => []
  | c :: r => if bool_decide (c = NUL) then [] else c :: cstr r
  end.

(** [strcmp (a, b) == 0] *)
Definition strcmp_eq (a b : list ascii) : bool := bool_decide (cstr a = cstr b).

(** [strdup (s)]: a fresh copy of the string. *)
Definition strdup (s : list ascii) : list ascii := cstr s.

(** [strlcpy (dst, src, size)]: the buffer [dst] afterwards. *)
Definition strlcpy (dst src : list ascii) (size : nat) : list ascii :=
  match size with
  | 0 => dst
  | S n =>
      let s := take n (cstr src) in
      s ++ [NUL] ++ drop (S (length s)) dst
  end.

(** [strlcat (dst, src, size)]: the buffer [dst] afterwards.  When the
    first [size] bytes of [dst] hold no [NUL], nothing is appended. *)
Definition strlcat (dst src : list ascii) (size : nat) : list ascii :=
  let dlen := length (cstr (take size dst)) in
  if bool_decide (dlen = size) then dst
  else
    let s := take (size - dlen - 1) (cstr src) in
    take dlen dst ++ s ++ [NUL] ++ drop (dlen + length s + 1) dst.

(** [strspn (s, accept)] and [strcspn (s, reject)]. *)
Fixpoint strspn (s accept : list ascii) : nat :=
  match s with
  | c :: r => if bool_decide (c ∈ accept) then S (strspn r accept) else 0
  | [] => 0
  end.

Fixpoint strcspn (s reject : list ascii) : nat :=
  match s with
  | c :: r => if bool_decide (c ∈ reject) then 0 else S (strcspn r reject)
  | [] => 0
  end.

(** [strtok]: the buffer being tokenised is [buf], the saved pointer is the
    offset [pos] into it ([strtok (buf, delim)] starts at offset 0,
    [strtok (NULL, delim)] at the saved offset).  The result is the token
    ([None] for [NULL]), the buffer, in which the delimiter that ends the
    token has been overwritten with [NUL], and the new saved offset. *)
Definition strtok (buf : list ascii) (pos : nat) (delim : list ascii)
  : option (list ascii) * list ascii * nat :=
  let s := cstr (drop pos buf) in
  let start := pos + strspn s delim in
  let s := drop (strspn s delim) s in
  match s with
  | [] => (None, buf, start)
  | _ =>
      let n := strcspn s delim in
      if bool_decide (n < length s)
      then (Some (take n s), <[start + n := NUL]> buf, start + n + 1)
      else (Some (take n s), buf, start + n)
  end.

(** [fgets (buf, size, fp)] on a stream over [content] at offset [off]: at
    most [size - 1] characters, up to and including the first newline.
    The result is the characters stored and the new offset; [None] is
    [NULL] (end of file). *)
Definition fgets (size : nat) (content : list ascii) (off : nat)
  : option (list ascii * nat) :=
  let rest := drop off content in
  match rest with
  | [] => None
  | _ =>
      let n := strcspn rest [LF] in
      let line := take (Nat.min (S n) (size - 1)) rest in
      Some (line, off + length line)
  end.

(** ** Constants of recovery.c *)

Definition COMMAND_FILE : string := "CACHE:recovery/command".
Definition INTENT_FILE : string := "CACHE:recovery/intent".
Definition LOG_FILE : string := "CACHE:recovery/log".
Definition TEMPORARY_LOG_FILE : string := "/tmp/recovery.log".

Definition MAX_ARG_LENGTH : nat := 4096.
Definition MAX_ARGS : nat := 100.

(** ** The boot control block *)

(** [struct bootloader_message] is declared in [bootloader.h], which is
    not among the sources: three character arrays.  Their sizes are the
    parameters of the development. *)
Class layout := {
  command_size : nat;
  status_size : nat;
  recovery_size : nat;
}.

Record bootloader_message := {
  command : list ascii;
  status : list ascii;
  recovery : list ascii;
}.

Inductive log_entry :=
| LOGI (fmt : string)
| LOGW (fmt : string)
| LOGE (fmt : string).

(** The state the functions of recovery.c work on: the record held by the
    device region of the control block and whether that region can be
    read and written, the roots that can be mounted, the files, the
    function-static [tmplog_offset] of [finish_recovery], and the
    messages logged so far. *)
Record state := {
  misc : bootloader_message;
  misc_read_ok : bool;
  misc_write_ok : bool;
  mountable : list string;
  fs : gmap string (list ascii);
  tmplog_offset : nat;
  logged : list log_entry;
}.

Definition set_misc (b : bootloader_message) (st : state) : state :=
  {| misc := b; misc_read_ok := misc_read_ok st;
     misc_write_ok := misc_write_ok st; mountable := mountable st;
     fs := fs st; tmplog_offset := tmplog_offset st; logged := logged st |}.

Definition set_fs (f : gmap string (list ascii)) (st : state) : state :=
  {| misc := misc st; misc_read_ok := misc_read_ok st;
     misc_write_ok := misc_write_ok st; mountable := mountable st;
     fs := f; tmplog_offset := tmplog_offset st; logged := logged st |}.

Definition set_tmplog_offset (n : nat) (st : state) : state :=
  {| misc := misc st; misc_read_ok := misc_read_ok st;
     misc_write_ok := misc_write_ok st; mountable := mountable st;
     fs := fs st; tmplog_offset := n; logged := logged st |}.

Definition add_log (e : log_entry) (st : state) : state :=
  {| misc := misc st; misc_read_ok := misc_read_ok st;
     misc_write_ok := misc_write_ok st; mountable := mountable st;
     fs := fs st; tmplog_offset := tmplog_offset st;
     logged := logged st ++ [e] |}.

(** ** Roots *)

(** Modelled from the spec: [ensure_root_path_mounted] and
    [translate_root_path] of [roots.h] are not among the sources; the spec
    has them "mount/translate a logical storage root to a physical path".
    A root path is [ROOT:path]; a root is translated to its mount point. *)
Definition split_root_path (root_path : string) : option (string * string) :=
  match String.index 0 ":" root_path with
  | Some n =>
      Some (String.substring 0 (S n) root_path,
            String.substring (S n) (String.length root_path - S n) root_path)
  | None => None
  end.

Definition mount_point (root : string) : option string :=
  if String.eqb root "CACHE:" then Some "/cache"%string
  else if String.eqb root "DATA:" then Some "/data"%string
  else if String.eqb root "SDCARD:" then Some "/sdcard"%string
  else if String.eqb root "SYSTEM:" then Some "/system"%string
  else None.

Definition ensure_root_path_mounted (st : state) (root_path : string) : Z :=
  match split_root_path root_path with
  | Some (root, _) => if bool_decide (root ∈ mountable st) then 0%Z else (-1)%Z
  | None => (-1)%Z
  end.

Definition translate_root_path (root_path : string) : option string :=
  '(root, rest) ← split_root_path root_path;
  mp ← mount_point root;
  Some (String.append mp (String.append "/" rest)).

(** ** Files *)

(** [fopen (path, mode)]; a [FILE *] is the path of the file, [None] is
    [NULL].  Mode ["r"] needs the file to exist, ["w"] truncates or
    creates it, ["a"] creates it when it does not exist. *)
Definition fopen (path : string) (mode : string) (st : state)
  : option string * state :=
  if String.eqb mode "r" then
    match fs st !! path with
    | Some _ => (Some path, st)
    | None => (None, st)
    end
  else if String.eqb mode "w" then (Some path, set_fs (<[path := []]> (fs st)) st)
  else
    match fs st !! path with
    | Some _ => (Some path, st)
    | None => (Some path, set_fs (<[path := []]> (fs st)) st)
    end.

(** [fputs (s, fp)] appends the string to the file. *)
Definition fputs (s : list ascii) (fp : string) (st : state) : state :=
  match fs st !! fp with
  | Some content => set_fs (<[fp := content ++ cstr s]> (fs st)) st
  | None => st
  end.

(** [unlink (path)]: the return value, whether [errno] is [ENOENT], and the
    state afterwards. *)
Definition unlink (path : string) (st : state) : Z * bool * state :=
  match fs st !! path with
  | Some _ => (0%Z, false, set_fs (delete path (fs st)) st)
  | None => ((-1)%Z, true, st)
  end.

(** Lines 125-144; the containing directories are not modelled. *)
Definition fopen_root_path (root_path mode : string) (st : state)
  : option string * state :=
  if bool_decide (ensure_root_path_mounted st root_path ≠ 0%Z)
  then (None, add_log (LOGE "Can't mount %s\n") st)
  else
    match translate_root_path root_path with
    | None => (None, add_log (LOGE "Bad path %s\n") st)
    | Some path => fopen path mode st
    end.

(** Lines 147-152; the error indicator of a stream is never set in this
    model. *)
Definition check_and_fclose (fp : string) (st : state) : state := st.

(** ** The control-block channel *)

(** What a function of the tool does: it returns, or it dereferences a
    null pointer. *)
Inductive outcome (A : Type) :=
| Returned (a : A)
| NullDeref.
Arguments Returned {A} a.
Arguments NullDeref {A}.

Section with_layout.
Context `{layout}.

(** [memset (&boot, 0, sizeof (boot))] *)
Definition zero_message : bootloader_message :=
  {| command := replicate command_size NUL;
     status := replicate status_size NUL;
     recovery := replicate recovery_size NUL |}.

(** A record as it lies in the fields of the struct. *)
Definition in_layout (b : bootloader_message) : bootloader_message :=
  {| command := resize command_size NUL (command b);
     status := resize status_size NUL (status b);
     recovery := resize recovery_size NUL (recovery b) |}.

(** Modelled from the spec: [get_bootloader_message] of [bootloader.h] is
    not among the sources.  The spec: "best-effort read; never fails the
    caller -- on any I/O error it returns an all-zero/default record
    (logged as a warning)"; the caller here passes a zeroed record, which
    a failed read leaves as it is. *)
Definition get_bootloader_message (out : bootloader_message) (st : state)
  : Z * bootloader_message * state :=
  if misc_read_ok st then (0%Z, in_layout (misc st), st)
  else ((-1)%Z, out, add_log (LOGW "Can't read bootloader message\n") st).

(** Modelled from the spec: [set_bootloader_message] of [bootloader.h] is
    not among the sources.  The spec: "serializes and overwrites the
    entire record", a failure is reported to the caller. *)
Definition set_bootloader_message (b : bootloader_message) (st : state)
  : Z * state :=
  if misc_write_ok st then (0%Z, set_misc (in_layout b) st)
  else ((-1)%Z, add_log (LOGE "Can't write bootloader message\n") st).

(** ** get_args *)

(** [buf[0] != 0 && buf[0] != 255] *)
Definition not_blank (buf : list ascii) : bool :=
  match buf with
  | c :: _ => bool_decide (c ≠ NUL) && bool_decide (c ≠ xFF)
  | [] => false
  end.

(** Lines 179-182: [for ( *argc = 1; *argc < MAX_ARGS; ++*argc)] over the
    lines of the control block; [n] is [MAX_ARGS - *argc]. *)
Fixpoint boot_message_args (n : nat) (buf : list ascii) (pos : nat)
  : list (option (list ascii)) * list ascii * nat :=
  match n with
  | 0 => ([], buf, pos)
  | S n =>
      match strtok buf pos [LF] with
      | (None, buf, pos) => ([], buf, pos)
      | (Some arg, buf, pos) =>
          let '(args, buf, pos) := boot_message_args n buf pos in
          (Some (strdup arg) :: args, buf, pos)
      end
  end.

(** Lines 198-201: [for ( *argc = 1; *argc < MAX_ARGS; ++*argc)] over the
    lines of the command file; the result of [strtok] goes to [strdup]
    as it is. *)
Fixpoint command_file_args (n : nat) (content : list ascii) (off : nat)
  : outcome (list (option (list ascii))) :=
  match n with
  | 0 => Returned []
  | S n =>
      match fgets MAX_ARG_LENGTH content off with
      | None => Returned []
      | Some (buf, off) =>
          match strtok buf 0 [CR; LF] with
          | (None, _, _) => NullDeref
          | (Some tok, _, _) =>
              match command_file_args n content off with
              | Returned args => Returned (Some (strdup tok) :: args)
              | NullDeref => NullDeref
              end
          end
      end
  end.

(** Lines 213-216: the arguments go to [boot.recovery], one per line. *)
Fixpoint append_args (args : list (option (list ascii))) (rec : list ascii)
  : outcome (list ascii) :=
  match args with
  | [] => Returned rec
  | None :: _ => NullDeref
  | Some a :: rest =>
      append_args rest
        (strlcat (strlcat rec a recovery_size) [LF] recovery_size)
  end.

(** Lines 172-187: the arguments of the bootloader control block.  The
    pair [( *argc, *argv)] is the list of the first [*argc] entries of
    [*argv]; an entry is a string, or [None] for a null pointer. *)
Definition args_from_boot_message (boot : bootloader_message)
    (argv : list (option (list ascii))) (st : state)
  : list (option (list ascii)) * bootloader_message * state :=
  if bool_decide (length argv ≤ 1) then
    let rec := <[recovery_size - 1 := NUL]> (recovery boot) in
    let '(arg, rec, pos) := strtok rec 0 [LF] in
    let boot' := {| command := command boot; status := status boot;
                    recovery := rec |} in
    let bad := if not_blank rec
               then add_log (LOGE "Bad boot message\n%.20s\n") st else st in
    match arg with
    | Some a =>
        if strcmp_eq a (str "recovery") then
          let '(args, rec, _) := boot_message_args (MAX_ARGS - 1) rec pos in
          (Some (strdup a) :: args,
           {| command := command boot; status := status boot; recovery := rec |},
           add_log (LOGI "Got arguments from boot message\n") st)
        else (argv, boot', bad)
    | None => (argv, boot', bad)
    end
  else (argv, boot, st).

(** Lines 189-206: the arguments of the command file. *)
Definition args_from_command_file (argv : list (option (list ascii)))
    (st : state) : outcome (list (option (list ascii)) * state) :=
  if bool_decide (length argv ≤ 1) then
    match fopen_root_path COMMAND_FILE "r" st with
    | (Some fp, st) =>
        let argv0 := default None (argv !! 0) in
        match command_file_args (MAX_ARGS - 1) (default [] (fs st !! fp)) 0 with
        | Returned args =>
            Returned (argv0 :: args,
                      add_log (LOGI "Got arguments from %s\n")
                        (check_and_fclose fp st))
        | NullDeref => NullDeref
        end
    | (None, st) => Returned (argv, st)
    end
  else Returned (argv, st).

(** Lines 208-217: the arguments are written back to the control block;
    what [set_bootloader_message] returns is not looked at. *)
Definition write_back_args (boot : bootloader_message)
    (argv : list (option (list ascii))) (st : state)
  : outcome (list (option (list ascii)) * state) :=
  let cmd := strlcpy (command boot) (str "boot-recovery") command_size in
  let rec := strlcpy (recovery boot) (str "recovery" ++ [LF]) recovery_size in
  match append_args (drop 1 argv) rec with
  | NullDeref => NullDeref
  | Returned rec =>
      let '(_, st) :=
        set_bootloader_message
          {| command := cmd; status := status boot; recovery := rec |} st in
      Returned (argv, st)
  end.

(** Lines 158-218. *)
Definition get_args (argv : list (option (list ascii))) (st : state)
  : outcome (list (option (list ascii)) * state) :=
  let '(_, boot, st) := get_bootloader_message zero_message st in
  let st := if not_blank (command boot)
            then add_log (LOGI "Boot command: %.*s\n") st else st in
  let st := if not_blank (status boot)
            then add_log (LOGI "Boot status: %.*s\n") st else st in
  let '(argv, boot, st) := args_from_boot_message boot argv st in
  match args_from_command_file argv st with
  | NullDeref => NullDeref
  | Returned (argv, st) => write_back_args boot argv st
  end.

(** ** finish_recovery *)

(** Line 251: [while (fgets (buf, sizeof (buf), tmplog)) fputs (buf, log);]
    the result is the offset of the stream afterwards. *)
Fixpoint copy_log (fuel : nat) (content : list ascii) (off : nat)
    (log : string) (st : state) : nat * state :=
  match fuel with
  | 0 => (off, st)
  | S fuel =>
      match fgets 4096 content off with
      | None => (off, st)
      | Some (buf, off') => copy_log fuel content off' log (fputs buf log st)
      end
  end.

(** Lines 229-237: the intent goes to [INTENT_FILE]. *)
Definition write_intent (send_intent : option (list ascii)) (st : state)
  : state :=
  match send_intent with
  | Some intent =>
      match fopen_root_path INTENT_FILE "w" st with
      | (None, st) => add_log (LOGE "Can't open %s\n") st
      | (Some fp, st) => check_and_fclose fp (fputs intent fp st)
      end
  | None => st
  end.

(** Lines 239-256: what the temporary log has beyond [tmplog_offset] is
    appended to [LOG_FILE]. *)
Definition copy_tmplog (st : state) : state :=
  match fopen_root_path LOG_FILE "a" st with
  | (None, st) => add_log (LOGE "Can't open %s\n") st
  | (Some log, st) =>
      let st :=
        match fopen TEMPORARY_LOG_FILE "r" st with
        | (None, st) => add_log (LOGE "Can't open %s\n") st
        | (Some tmplog, st) =>
            let content := default [] (fs st !! tmplog) in
            let '(off, st) :=
              copy_log (S (length content)) content (tmplog_offset st) log st in
            check_and_fclose tmplog (set_tmplog_offset off st)
        end in
      check_and_fclose log st
  end.

(** Lines 263-269: the command file is removed; [ENOENT] is not an
    error. *)
Definition remove_command_file (st : state) : state :=
  if bool_decide (ensure_root_path_mounted st COMMAND_FILE ≠ 0%Z) then
    add_log (LOGW "Can't unlink %s\n") st
  else
    match translate_root_path COMMAND_FILE with
    | None => add_log (LOGW "Can't unlink %s\n") st
    | Some path =>
        let '(r, enoent, st) := unlink path st in
        if bool_decide (r ≠ 0%Z) && negb enoent
        then add_log (LOGW "Can't unlink %s\n") st else st
    end.

(** Lines 225-272. *)
Definition finish_recovery (send_intent : option (list ascii)) (st : state)
  : state :=
  (* By this point, we're ready to return to the main system... *)
  let st := write_intent send_intent st in
  (* Copy logs to cache so the system can find out what happened. *)
  let st := copy_tmplog st in
  (* Reset the bootloader message to revert to a normal main system boot. *)
  let '(_, st) := set_bootloader_message zero_message st in
  (* Remove the command file, so recovery won't repeat indefinitely. *)
  let st := remove_command_file st in
  (* sync (); *)
  st.

End with_layout.

(** ** The command dispatch of main *)

(** Modelled from the spec: the result of an installation ([install.h] is
    not among the sources), "Success / Error / Aborted". *)
Inductive install_status := INSTALL_SUCCESS | INSTALL_ERROR | INSTALL_ABORTED.

#[global] Instance install_status_eq_dec : EqDecision install_status.
Proof. solve_decision. Defined.

(** What the session asks of its collaborators, in the order asked. *)
Inductive action :=
| Format (root : string)
| Install (root_path : list ascii)
| UiPrint (msg : string).

(** The options as lines 1465-1482 leave them ([previous_runs] is never
    read again). *)
Record options := {
  send_intent : option (list ascii);
  update_package : option (list ascii);
  wipe_data : bool;
  wipe_cache : bool;
}.

Definition no_options : options :=
  {| send_intent := None; update_package := None;
     wipe_data := false; wipe_cache := false |}.

(** The body of the [switch] of lines 1472-1481, for one value [arg]
    returned by [getopt_long] with its [optarg]. *)
Definition handle_option (o : options) (opt : ascii * option (list ascii)) : options :=
  let '(arg, optarg) := opt in
  if bool_decide (arg = "s"%char) then
    {| send_intent := optarg; update_package := update_package o;
       wipe_data := wipe_data o; wipe_cache := wipe_cache o |}
  else if bool_decide (arg = "u"%char) then
    {| send_intent := send_intent o; update_package := optarg;
       wipe_data := wipe_data o; wipe_cache := wipe_cache o |}
  else if bool_decide (arg = "w"%char) then
    {| send_intent := send_intent o; update_package := update_package o;
       wipe_data := true; wipe_cache := true |}
  else if bool_decide (arg = "c"%char) then
    {| send_intent := send_intent o; update_package := update_package o;
       wipe_data := wipe_data o; wipe_cache := true |}
  else o.

(** Lines 1470-1482: the loop over the values [getopt_long] returns until
    it returns [-1]. *)
Definition parse_options (opts : list (ascii * option (list ascii))) : options :=
  foldl handle_option no_options opts.

Section with_collaborators.
(** The collaborators of the session: [format_root_device] returns 0 on
    success; [install_package] returns the status of the installation. *)
Variable format_root_device : string → Z.
Variable install_package : list ascii → install_status.

(** Lines 291-298; the calls that only drive the display are left out. *)
Definition erase_root (root : string) (trace : list action) : Z * list action :=
  (format_root_device root,
   trace ++ [UiPrint "Formatting %s...\n"; Format root]).

(** Lines 1502-1513: the resulting status and the actions taken. *)
Definition run_command (o : options) : install_status * list action :=
  let status := INSTALL_SUCCESS in
  match update_package o with
  | Some package =>
      let status := install_package package in
      (status,
       Install package ::
       if bool_decide (status ≠ INSTALL_SUCCESS)
       then [UiPrint "Installation aborted.\n"] else [])
  | None =>
      if wipe_data o || wipe_cache o then
        let '(status, trace) :=
          if wipe_data o then
            let '(r, trace) := erase_root "DATA:" [] in
            (if bool_decide (r ≠ 0%Z) then INSTALL_ERROR else status, trace)
          else (status, []) in
        let '(status, trace) :=
          if wipe_cache o then
            let '(r, trace) := erase_root "CACHE:" trace in
            (if bool_decide (r ≠ 0%Z) then INSTALL_ERROR else status, trace)
          else (status, trace) in
        (status,
         if bool_decide (status ≠ INSTALL_SUCCESS)
         then trace ++ [UiPrint "Data wipe failed.\n"] else trace)
      else (INSTALL_ERROR, [])
  end.

End with_collaborators.

(** ** Predicates of the proofs *)

(** A buffer of [size] characters that holds a terminated string. *)
Definition terminated (size : nat) (buf : list ascii) : Prop :=
  length buf = size ∧ (size = 0 ∨ length (cstr buf) < size).

(** The state without its log. *)
Definition forget_log (st : state) : state :=
  {| misc := misc st; misc_read_ok := misc_read_ok st;
     misc_write_ok := misc_write_ok st; mountable := mountable st;
     fs := fs st; tmplog_offset := tmplog_offset st; logged := [] |}.

(** The cache root can be mounted. *)
Definition mounted (st : state) : Prop := "CACHE:"%string ∈ mountable st.

(** What a step leaves as it is: everything but the log, the offset, and
    the files at the paths [ps]. *)
Definition frame (ps : list string) (st st' : state) : Prop :=
  misc st' = misc st
  ∧ misc_read_ok st' = misc_read_ok st
  ∧ misc_write_ok st' = misc_write_ok st
  ∧ mountable st' = mountable st
  ∧ ∀ p, p ∉ ps → fs st' !! p = fs st !! p.

(** The fields of a record have the sizes of the struct. *)
Definition in_struct `{layout} (b : bootloader_message) : Prop :=
  length (command b) = command_size
  ∧ length (status b) = status_size
  ∧ length (recovery b) = recovery_size.

(** ** Example states *)

(** The sizes of the fields of the control block used in the examples. *)
Definition example_layout : layout :=
  {| command_size := 32; status_size := 32; recovery_size := 1024 |}.

(** A state whose control block holds [rec] in its recovery field, with
    the given command file (if any) and temporary log. *)
Definition example_state (rec : list ascii) (command_file : option (list ascii))
    (tmplog : list ascii) : state :=
  {| misc := {| command := replicate 32 NUL; status := replicate 32 NUL;
                recovery := rec |};
     misc_read_ok := true; misc_write_ok := true;
     mountable := ["CACHE:"%string];
     fs := match command_file with
           | Some c => {[ "/cache/recovery/command"%string := c;
                          "/tmp/recovery.log"%string := tmplog ]}
           | None => {[ "/tmp/recovery.log"%string := tmplog ]}
           end;
     tmplog_offset := 0; logged := [] |}.

(** The same state with a control block that cannot be read. *)
Definition unreadable (st : state) : state :=
  {| misc := misc st; misc_read_ok := false;
     misc_write_ok := misc_write_ok st; mountable := mountable st;
     fs := fs st; tmplog_offset := tmplog_offset st; logged := logged st |}.

(** The result of a function that has returned. *)
Definition returned {A} (d : A) (r : outcome A) : A :=
  match r with
  | Returned a => a
  | NullDeref => d
  end.

(** A command file of one line of 8190 characters. *)
Definition long_line_file : list ascii := replicate 8190 "a"%char ++ [LF].

(** A command file whose second line is empty. *)
Definition blank_line_file : list ascii :=
  str "--wipe_data" ++ [LF; LF] ++ str "--wipe_cache" ++ [LF].

(** ** The text of the arguments *)


(** A line of the command file: an argument, and whether the line ends in
    CR LF or in LF. *)
Definition command_line (l : list ascii * bool) : list ascii :=
  l.1 ++ (if l.2 then [CR] else []) ++ [LF].

Definition command_text (ls : list (list ascii * bool)) : list ascii :=
  concat (command_line <$> ls).

(** ** Further example states *)

(** The same state with no root that can be mounted. *)
Definition unmountable (st : state) : state :=
  {| misc := misc st; misc_read_ok := misc_read_ok st;
     misc_write_ok := misc_write_ok st; mountable := [];
     fs := fs st; tmplog_offset := tmplog_offset st; logged := logged st |}.

(** A factory reset as the main system asks for it: an all-zero control
    block and a command file that holds [--wipe_data]. *)
Definition factory_reset_state : state :=
  example_state (replicate 1024 NUL) (Some (str "--wipe_data" ++ [LF]))
    (str "Starting recovery" ++ [LF]).

(** What [get_args] makes of it. *)
Definition factory_reset_armed
  : outcome (list (option (list ascii)) * state) :=
  Eval vm_compute in
    @get_args example_layout [Some (str "recovery")] factory_reset_state.

(** ** The sizes of the sdcard partitions *)

(** The codes of the keys are constants of [linux/input.h] and of the
    headers of the board, which are not among the sources; nothing here
    depends on their values. *)
Class keycodes := {
  KEY_PULSE_GREEN : Z;
  KEY_DOWN : Z;
  KEY_VOLUMEDOWN : Z;
  KEY_UP : Z;
  KEY_VOLUMEUP : Z;
}.

Section with_keycodes.
Context `{keycodes}.

(** Lines 1077-1094 and 1098-1116 of [show_menu_partition]: [for (;;)]
    over the keys that [ui_wait_key] returns, for [swap] (in steps of 32)
    and for [ext] (in steps of 128); the sizes are [int]s, whose
    arithmetic wraps around.  The result is the size when GREEN is
    pressed, and the keys that remain; [None]: the loop still waits for a
    key.  The calls that only drive the display are left out. *)
Fixpoint choose_size (step size : Z) (keys : list Z) : option (Z * list Z) :=
  match keys with
  | [] => None
  | key :: keys =>
      if bool_decide (key = KEY_PULSE_GREEN) then Some (size, keys)
      else
        let size :=
          if bool_decide (key = KEY_DOWN ∨ key = KEY_VOLUMEDOWN)
          then FlashImage.to_int (size - step)
          else if bool_decide (key = KEY_UP ∨ key = KEY_VOLUMEUP)
          then FlashImage.to_int (size + step)
          else size in
        let size := if bool_decide (size < 0)%Z then 0%Z else size in
        choose_size step size keys
  end.

(** Line 1119: [sprintf (es, "/sbin/sdparted -s -es %dM -ss %dM", ext,
    swap)]; the characters stored before the final [NUL]. *)
Definition sdparted_command (ext swap : Z) : list ascii :=
  str "/sbin/sdparted -s -es " ++ str (pretty ext) ++ str "M -ss "
  ++ str (pretty swap) ++ str "M".

(** Lines 1075-1119: the two sizes are chosen, [swap] from 32 and [ext]
    from 512; the result is the command that goes to [run_script]. *)
Definition sdparted_command_of_keys (keys : list Z) : option (list ascii * list Z) :=
  '(swap, keys) ← choose_size 32 32 keys;
  '(ext, keys) ← choose_size 128 512 keys;
  Some (sdparted_command ext swap, keys).

End with_keycodes.

(** Key codes for the examples. *)
Definition example_keycodes : keycodes :=
  {| KEY_PULSE_GREEN := 1; KEY_DOWN := 2; KEY_VOLUMEDOWN := 3;
     KEY_UP := 4; KEY_VOLUMEUP := 5 |}.

End Recovery.

(* ===================================================================== *)
(** * Part III: properties of flash_image.c                                *)
(* ===================================================================== *)

Module FlashImageProofs.
Import FlashImage.

Lemma set_data_id p : set_data p (ptn_data p) = p.
Proof. by destruct p. Qed.

Lemma take_drop_length_take {A} (n : nat) (l : list A) :
  take n l ++ drop (length (take n l)) l = l.
Proof.
  rewrite length_take. destruct (decide (n ≤ length l)).
  - rewrite Nat.min_l by done. apply take_drop.
  - rewrite Nat.min_r by lia. rewrite take_ge by lia.
    by rewrite drop_all, app_nil_r.
Qed.

Lemma take_length_take {A} (n : nat) (l : list A) :
  take (length (take n l)) l = take n l.
Proof.
  rewrite length_take. destruct (decide (n ≤ length l)).
  - by rewrite Nat.min_l.
  - rewrite Nat.min_r by lia. rewrite !take_ge by lia. done.
Qed.

Section write_session.
Variables (i : nat) (p0 : MtdPartition) (w0 : world).
Hypothesis Hp0 : partitions w0 !! i = Some p0.

Local Abbreviation session := (session i p0 w0).

Lemma block_size_pos : 0 < block_size_of p0.
Proof. unfold block_size_of. lia. Qed.

Lemma session_open ctx :
  mtd_write_partition w0 i = Some ctx → session [] ctx w0.
Proof.
  unfold mtd_write_partition. rewrite Hp0. simpl.
  destruct (ptn_writable p0); [|done]. intros [= <-].
  split; simpl; try done.
  - pose proof block_size_pos. lia.
  - apply Nat.divide_0_r.
  - lia.
  - rewrite drop_0, set_data_id. by rewrite list_insert_id.
Qed.

Lemma session_lookup xs ctx w :
  session xs ctx w →
  partitions w !! wc_partition ctx
  = Some (set_data p0 (take (wc_pos ctx) xs ++ drop (wc_pos ctx) (ptn_data p0))).
Proof.
  intros Hs. rewrite (ses_partition _ _ _ _ _ _ Hs), (ses_data _ _ _ _ _ _ Hs).
  apply list_lookup_insert_eq. by eapply lookup_lt_Some.
Qed.

Lemma session_byte xs ctx w b ctx' w' :
  session xs ctx w → write_byte ctx w b = Some (ctx', w') →
  session (xs ++ [b]) ctx' w'.
Proof.
  intros Hs. unfold write_byte. rewrite (session_lookup _ _ _ Hs). simpl.
  pose proof (ses_pos _ _ _ _ _ _ Hs) as Hpos. pose proof (ses_short _ _ _ _ _ _ Hs) as Hshort.
  pose proof (ses_fit _ _ _ _ _ _ Hs) as Hfit.
  assert (Hst : wc_stored ctx ++ [b] = drop (wc_pos ctx) (xs ++ [b])).
  { rewrite (ses_stored _ _ _ _ _ _ Hs). by rewrite drop_app_le. }
  assert (Hlen : length (wc_stored ctx ++ [b]) = S (length xs - wc_pos ctx)).
  { rewrite length_app, (ses_stored _ _ _ _ _ _ Hs), length_drop. simpl. lia. }
  change (block_size_of (set_data p0 _)) with (block_size_of p0).
  case_decide as Hfull.
  - unfold write_block. rewrite (session_lookup _ _ _ Hs). simpl.
    case_decide as Hroom; [|done]. intros [= <- <-].
    rewrite Hlen in Hfull, Hroom.
    rewrite length_app, length_take, length_drop in Hroom.
    split; simpl; rewrite ?Hlen, ?length_app; simpl.
    + apply Hs.
    + rewrite drop_ge; [done|]. rewrite length_app. simpl. lia.
    + lia.
    + pose proof block_size_pos. lia.
    + rewrite Hfull. apply Nat.divide_add_r; [apply Hs|done].
    + lia.
    + rewrite (ses_data _ _ _ _ _ _ Hs), (ses_partition _ _ _ _ _ _ Hs), list_insert_insert_eq.
      f_equal. unfold set_data. simpl. f_equal.
      rewrite take_app_le, take_take by (rewrite length_take; lia).
      rewrite Nat.min_id.
      rewrite (take_ge (xs ++ [b])) by (rewrite length_app; simpl; lia).
      rewrite Hst.
      rewrite <- (take_drop (wc_pos ctx) (xs ++ [b])) at 2.
      rewrite take_app_le by lia. rewrite <- app_assoc. f_equal. f_equal.
      rewrite drop_app_ge by (rewrite length_take; lia).
      rewrite length_take, drop_drop. f_equal. lia.
    + apply Hs.
  - intros [= <- <-]. split; simpl; try apply Hs.
    + done.
    + rewrite length_app. simpl. lia.
    + rewrite length_app. simpl. rewrite Hlen in Hfull. lia.
    + rewrite (ses_data _ _ _ _ _ _ Hs). do 3 f_equal. by rewrite take_app_le.
Qed.

Lemma session_data ys : ∀ xs ctx w ctx' w',
  session xs ctx w → mtd_write_data ctx w ys = (Some ctx', w') →
  session (xs ++ ys) ctx' w'.
Proof.
  induction ys as [|b ys IH]; simpl; intros xs ctx w ctx' w' Hs.
  - intros [= <- <-]. by rewrite app_nil_r.
  - destruct (write_byte ctx w b) as [[ctx1 w1]|] eqn:E; [|done].
    intros Hd. rewrite (cons_middle b), app_assoc.
    eapply IH; [|done]. by eapply session_byte.
Qed.

(** Closing a session leaves the bytes handed to it at the start of the
    partition. *)
Lemma session_close xs ctx w w' :
  session xs ctx w → mtd_write_close ctx w = Some w' →
  ∃ d, partitions w' = <[i := set_data p0 d]> (partitions w0)
       ∧ files w' = files w0
       ∧ take (length xs) d = xs
       ∧ ((block_size_of p0 | length xs) → d = xs ++ drop (length xs) (ptn_data p0)).
Proof.
  intros Hs. unfold mtd_write_close.
  pose proof (ses_pos _ _ _ _ _ _ Hs) as Hpos. pose proof (ses_short _ _ _ _ _ _ Hs) as Hshort.
  pose proof (ses_fit _ _ _ _ _ _ Hs) as Hfit. pose proof (ses_stored _ _ _ _ _ _ Hs) as Hst.
  assert (Hlen : length (wc_stored ctx) = length xs - wc_pos ctx).
  { by rewrite Hst, length_drop. }
  destruct (wc_stored ctx) as [|c st] eqn:Est.
  - intros [= <-]. simpl in Hlen.
    assert (wc_pos ctx = length xs) as Heq by lia.
    exists (xs ++ drop (length xs) (ptn_data p0)). split; [|split; [|split]].
    + rewrite (ses_data _ _ _ _ _ _ Hs), Heq. by rewrite take_ge.
    + apply Hs.
    + by rewrite take_app_length.
    + done.
  - rewrite (session_lookup _ _ _ Hs). simpl.
    change (block_size_of (set_data p0 _)) with (block_size_of p0).
    unfold write_block. rewrite (session_lookup _ _ _ Hs). simpl.
    case_decide as Hroom; [|done]. simpl. intros [= <-]. simpl.
    rewrite length_resize in Hroom |- *.
    rewrite length_app, length_take, length_drop in Hroom.
    eexists. split; [|split; [|split]].
    + rewrite (ses_data _ _ _ _ _ _ Hs), (ses_partition _ _ _ _ _ _ Hs), list_insert_insert_eq.
      reflexivity.
    + apply Hs.
    + rewrite (take_app_length' (take (wc_pos ctx) xs)) by (rewrite length_take; lia).
      rewrite resize_spec, (take_ge (c :: st)) by (rewrite Hlen; lia).
      rewrite Hst, <- app_assoc, (app_assoc (take _ xs)), take_drop.
      by rewrite take_app_length.
    + intros Hdiv. exfalso.
      assert (block_size_of p0 | length xs - wc_pos ctx) as [k Hk].
      { apply Nat.divide_sub_r; [done|apply Hs]. }
      simpl in Hlen. destruct k; simpl in Hk; [lia|]. nia.
Qed.




Lemma copy_body_session fuel : ∀ content off out w out' w' xs,
  session xs out w →
  copy_body fuel content off out w = Some (Some out', w') →
  session (xs ++ drop off content) out' w'.
Proof.
  induction fuel as [|fuel IH]; simpl; intros content off out w out' w' xs Hs; [done|].
  unfold read. case_bool_decide as Hlen.
  - destruct (mtd_write_data out w _) as [[out1|] w1] eqn:E; [|done].
    intros Hc. eapply IH in Hc; [|by eapply session_data].
    rewrite <- app_assoc, <- drop_drop, take_drop_length_take in Hc. done.
  - intros [= <- <-].
    destruct (drop off content) as [|c r] eqn:Ed; [by rewrite app_nil_r|].
    simpl in Hlen. unfold HEADER_SIZE in Hlen. simpl in Hlen. lia.
Qed.

Lemma write_rest_session fuel : ∀ content off left_ out w out' w' xs,
  session xs out w → (0 ≤ left_)%Z →
  write_rest_of_block fuel content off left_ out w = Some (Some out', w') →
  session (xs ++ take (Z.to_nat left_) (drop off content)) out' w'
  ∧ Z.to_nat left_ ≤ length (drop off content).
Proof.
  induction fuel as [|fuel IH]; simpl; intros content off left_ out w out' w' xs Hs Hl; [done|].
  case_bool_decide as Hpos.
  - set (count := if bool_decide (Z.of_nat HEADER_SIZE < left_)%Z
                  then HEADER_SIZE else Z.to_nat left_).
    assert (Hcount : count ≤ Z.to_nat left_).
    { unfold count. case_bool_decide; lia. }
    unfold read. set (l := drop off content).
    case_bool_decide as Hempty; [done|].
    destruct (mtd_write_data out w _) as [[out1|] w1] eqn:E; [|done].
    intros Hc.
    assert (Hbuf : length (take count l) ≤ count) by (rewrite length_take; lia).
    eapply IH in Hc; [|by eapply session_data|lia].
    destruct Hc as [Hc Hlen].
    rewrite <- drop_drop in Hc, Hlen. fold l in Hc, Hlen.
    rewrite length_drop in Hlen.
    assert (Hfull : length (take count l) = count).
    { rewrite length_take in *. lia. }
    rewrite Hfull in *. rewrite length_take in Hfull.
    split; [|lia].
    rewrite <- app_assoc, take_take_drop in Hc.
    replace (count + Z.to_nat (left_ - Z.of_nat count)) with (Z.to_nat left_) in Hc by lia.
    done.
  - intros [= <- <-]. replace left_ with 0%Z by lia. simpl.
    rewrite take_0, app_nil_r. split; [done|lia].
Qed.

End write_session.

Lemma to_int_small z : (- 2 ^ 31 ≤ z < 2 ^ 31)%Z → to_int z = z.
Proof.
  intros Hz. unfold to_int.
  rewrite Z.mod_small by lia. lia.
Qed.

Lemma round_up_left_spec bs fuel : ∀ l l',
  (Z.pos bs < 2 ^ 31)%Z → (- 2 ^ 31 ≤ l < 2 ^ 31)%Z →
  round_up_left fuel l bs = Some l' →
  (0 ≤ l')%Z ∧ ∃ k : nat, l' = (l + Z.of_nat k * Z.pos bs)%Z.
Proof.
  induction fuel as [|fuel IH]; simpl; intros l l' Hbs Hl; [done|].
  case_bool_decide as Hneg.
  - rewrite to_int_small by lia. intros Hr.
    apply IH in Hr as [? [k ->]]; [|done|lia].
    split; [done|]. exists (S k). lia.
  - intros [= <-]. split; [lia|]. exists 0. lia.
Qed.


Lemma read_0 content n : read content 0 n = take n content.
Proof. done. Qed.

(** What is known when the body has been written and committed. *)
Lemma body_written argv w l w1 :
  main_steps_1_to_4 argv w = BodyWritten l w1 →
  parse_args (drop 1 argv) false None None
  = (deleteImage l, Some (partitionName l), Some (imageFile l))
  ∧ mtd_find_partition_by_name w (partitionName l) = Some (partition l)
  ∧ files w !! imageFile l = Some (image l)
  ∧ header l = take HEADER_SIZE (image l)
  ∧ 0 < length (header l)
  ∧ header_is_the_same w (partition l) (header l) = false
  ∧ ∃ p0 d, partitions w !! partition l = Some p0
      ∧ partitions w1 = <[partition l := set_data p0 d]> (partitions w)
      ∧ files w1 = files w
      ∧ take (length (image l)) d
        = replicate (length (header l)) x00 ++ drop (length (header l)) (image l).
Proof.
  intros H. unfold main_steps_1_to_4, die in H.
  case_bool_decide; [done|].
  destruct (parse_args _ _ _ _) as [[del [pn|]] [img|]] eqn:Eparse; try done.
  case_bool_decide; [done|].
  destruct (mtd_find_partition_by_name w pn) as [i|] eqn:Efind; [|done].
  destruct (files w !! img) as [content|] eqn:Efile; [|done].
  rewrite read_0 in H.
  case_bool_decide as Hhl; [done|].
  destruct (header_is_the_same _ _ _) eqn:Esame; [done|].
  destruct (mtd_write_partition w i) as [out|] eqn:Eopen; [|done].
  destruct (mtd_write_data out w _) as [[out1|] w1'] eqn:Ew1; [|done].
  destruct (copy_body _ _ _ _ _) as [[[out2|] w2]|] eqn:Ecopy; try done.
  destruct (mtd_write_close out2 w2) as [w3|] eqn:Eclose; [|done].
  injection H as <- <-. simpl.
  do 4 (split; [done|]). split; [lia|]. split; [done|].
  destruct (partitions w !! i) as [p0|] eqn:Ep0;
    [|by unfold mtd_write_partition in Eopen; rewrite Ep0 in Eopen].
  pose proof (session_open _ p0 w Ep0 _ Eopen) as Hs.
  eapply (session_data _ _ _ Ep0) in Hs; [|exact Ew1].
  eapply (copy_body_session _ _ _ Ep0) in Hs; [|exact Ecopy].
  eapply (session_close _ _ _ Ep0) in Hs as (d & Hd & Hf & Ht & _); [|exact Eclose].
  exists p0, d. do 3 (split; [done|]).
  simpl in Ht. rewrite <- Ht. f_equal.
  rewrite length_app, length_replicate, length_drop, length_take. lia.
Qed.

(** What is known when the header has been written as well. *)
Lemma header_written l w1 p1 w2 :
  partitions w1 !! partition l = Some p1 →
  (Z.pos (erase_size p1) < 2 ^ 31)%Z →
  header l = take HEADER_SIZE (image l) →
  0 < length (header l) →
  main_steps_5_to_7 l w1 = Exited 0 w2 →
  ∃ n, length (header l) ≤ n ≤ length (image l)
    ∧ partitions w2
      = <[partition l := set_data p1 (take n (image l) ++ drop n (ptn_data p1))]>
          (partitions w1)
    ∧ files w2 = if deleteImage l then delete (imageFile l) (files w1)
                 else files w1.
Proof.
  intros Hp1 Hbs Hhdr Hhl H. unfold main_steps_5_to_7, die in H.
  destruct (mtd_write_partition w1 _) as [out|] eqn:Eopen; [|done].
  destruct (mtd_write_data out w1 _) as [[out1|] w1'] eqn:Ew1; [|done].
  pose proof (session_open _ p1 w1 Hp1 _ Eopen) as Hs.
  eapply (session_data _ _ _ Hp1) in Hs; [|exact Ew1]. simpl in Hs.
  assert (Hinfo : mtd_partition_info w1' (partition l) = Some (erase_size p1)).
  { unfold mtd_partition_info. rewrite (ses_data _ _ _ _ _ _ Hs).
    rewrite list_lookup_insert_eq by (by eapply lookup_lt_Some). done. }
  rewrite Hinfo in H.
  assert (Hlen : length (header l) ≤ HEADER_SIZE).
  { rewrite Hhdr, length_take. lia. }
  unfold HEADER_SIZE in Hlen.
  rewrite to_int_small in H by lia.
  destruct (round_up_left _ _ _) as [left_|] eqn:Eround; [|done].
  apply round_up_left_spec in Eround as [Hleft [k Hk]]; [|done|lia].
  destruct (write_rest_of_block _ _ _ _ _ _) as [[[out2|] w2']|] eqn:Erest; try done.
  destruct (mtd_write_close out2 w2') as [w3|] eqn:Eclose; [|done].
  injection H as <-.
  eapply (write_rest_session _ _ _ Hp1) in Erest as [Hs' Hroom]; [|exact Hs|done].
  assert (Hxs : header l ++ take (Z.to_nat left_) (drop (length (header l)) (image l))
                = take (length (header l) + Z.to_nat left_) (image l)).
  { rewrite <- take_take_drop. f_equal.
    rewrite Hhdr. symmetry. apply take_length_take. }
  rewrite Hxs in Hs'. rewrite length_drop in Hroom.
  eapply (session_close _ _ _ Hp1) in Hs' as (d & Hd & Hf & _ & Hdiv); [|exact Eclose].
  assert (Hn : length (take (length (header l) + Z.to_nat left_) (image l))
               = length (header l) + Z.to_nat left_).
  { assert (length (header l) ≤ length (image l))
      by (rewrite Hhdr, length_take; lia).
    rewrite length_take. lia. }
  assert (length (header l) ≤ length (image l))
    by (rewrite Hhdr, length_take; lia).
  rewrite Hn in Hdiv.
  exists (length (header l) + Z.to_nat left_). split; [lia|].
  rewrite Hdiv in Hd by (exists (S k); unfold block_size_of; lia).
  destruct (deleteImage l); simpl; by rewrite Hd, Hf.
Qed.


(** The exit with status 0 that [main_steps_1_to_4] has is the one of line
    113. *)
Lemma steps_1_to_4_exit_0 argv w w' :
  main_steps_1_to_4 argv w = Exited 0 w' →
  3 ≤ length argv ≤ 4
  ∧ ∃ del pn img i content,
      parse_args (drop 1 argv) false None None = (del, Some pn, Some img)
      ∧ mtd_find_partition_by_name w pn = Some i
      ∧ files w !! img = Some content
      ∧ header_is_the_same w i (take HEADER_SIZE content) = true
      ∧ w' = if del then unlink img w else w.
Proof.
  intros H. unfold main_steps_1_to_4, die in H.
  case_bool_decide; [done|]. split; [lia|].
  destruct (parse_args _ _ _ _) as [[del [pn|]] [img|]] eqn:Eparse; try done.
  case_bool_decide; [done|].
  destruct (mtd_find_partition_by_name w pn) as [i|] eqn:Efind; [|done].
  destruct (files w !! img) as [content|] eqn:Efile; [|done].
  rewrite read_0 in H.
  case_bool_decide as Hhl; [done|].
  destruct (header_is_the_same _ _ _) eqn:Esame.
  - injection H as <-. by exists del, pn, img, i, content.
  - destruct (mtd_write_partition w i) as [out|]; [|done].
    destruct (mtd_write_data out w _) as [[out1|] w1']; [|done].
    destruct (copy_body _ _ _ _ _) as [[[out2|] w2]|]; try done.
    destruct (mtd_write_close out2 w2) as [w3|]; done.
Qed.

(** The check of lines 99-116 fails on a partition whose first bytes, as
    read, are not the header. *)
Lemma header_differs w i p hdr :
  partitions w !! i = Some p →
  take HEADER_SIZE (ptn_data p) ≠ hdr →
  header_is_the_same w i hdr = false.
Proof.
  intros Hp Hne. unfold header_is_the_same, mtd_read_partition, mtd_read_data.
  rewrite Hp. simpl. destruct (ptn_readable p); [|done].
  case_bool_decide; [done|].
  apply andb_false_iff. unfold memcmp_eq.
  destruct (decide (length (take HEADER_SIZE (ptn_data p)) = length hdr)) as [Hl|Hl];
    [right|left; by apply bool_decide_eq_false].
  apply bool_decide_eq_false. intros Heq. apply Hne.
  rewrite (take_ge hdr) in Heq by lia.
  rewrite take_ge in Heq by lia. done.
Qed.

Lemma parse_args_delete args : ∀ d pn im,
  (parse_args args d pn im).1.1 = d || bool_decide ("-d"%string ∈ args).
Proof.
  induction args as [|a args IH]; cbn [parse_args]; intros d pn im.
  - rewrite bool_decide_eq_false_2; [by rewrite orb_false_r|]. by intros ?%elem_of_nil.
  - destruct (String.eqb_spec a "-d") as [->|Hne].
    + rewrite IH. rewrite (bool_decide_eq_true_2 (_ ∈ _ :: _)) by left.
      by rewrite orb_true_r.
    + assert (bool_decide ("-d"%string ∈ a :: args) = bool_decide ("-d"%string ∈ args)) as ->.
      { apply bool_decide_ext. rewrite elem_of_cons.
        split; [intros [Heq|Hin]; [congruence|done]|by right]. }
      destruct pn; apply IH.
Qed.

(** C4 (flash skip).  When the first [HEADER_SIZE] bytes that can be read
    from the partition are [HEADER_SIZE] bytes and equal the first
    [HEADER_SIZE] bytes of the image, [main] exits with status 0, does not
    write a block, leaves every partition as it is, and removes the image
    file exactly when [-d] is among the arguments; no other file
    changes. *)
Theorem flash_skip argv w del pn img i p content :
  3 ≤ length argv ≤ 4 →
  parse_args (drop 1 argv) false None None = (del, Some pn, Some img) →
  mtd_find_partition_by_name w pn = Some i →
  partitions w !! i = Some p →
  files w !! img = Some content →
  ptn_readable p = true →
  length (mtd_read_data p HEADER_SIZE) = HEADER_SIZE →
  mtd_read_data p HEADER_SIZE = take HEADER_SIZE content →
  ∃ w', main argv w = Exited 0 w'
    ∧ partitions w' = partitions w
    ∧ block_writes w' = block_writes w
    ∧ files w' = (if del then delete img (files w) else files w)
    ∧ (del = true ↔ "-d"%string ∈ drop 1 argv).
Proof.
  intros Hargc Hparse Hfind Hp Hfile Hread Hlen Heq.
  exists (if del then unlink img w else w).
  split; [|split; [|split; [|split]]]; try (by destruct del).
  - unfold main, main_steps_1_to_4.
    rewrite (bool_decide_eq_false_2 (_ ∨ _)) by lia.
    rewrite Hparse.
    rewrite (bool_decide_eq_false_2 (_ ≤ _)%Z).
    2:{ unfold mtd_scan_partitions. apply lookup_lt_Some in Hp. lia. }
    rewrite Hfind, Hfile, read_0.
    rewrite (bool_decide_eq_false_2 (_ = 0)).
    2:{ rewrite <- Heq, Hlen. done. }
    assert (header_is_the_same w i (take HEADER_SIZE content) = true) as ->; [|done].
    unfold header_is_the_same, mtd_read_partition. rewrite Hp. simpl.
    rewrite Hread, Heq.
    rewrite bool_decide_eq_false_2 by (rewrite <- Heq, Hlen; done).
    rewrite bool_decide_eq_true_2 by done.
    unfold memcmp_eq. by rewrite bool_decide_eq_true_2.
  - pose proof (parse_args_delete (drop 1 argv) false None None) as Hd.
    rewrite Hparse in Hd. simpl in Hd. rewrite Hd.
    by rewrite bool_decide_eq_true.
Qed.

Lemma flash_skip_witness :
  ∃ w', main example_argv_d (example_world (example_image ++ replicate 3192 x00) example_image)
        = Exited 0 w'
    ∧ partitions w' = partitions (example_world (example_image ++ replicate 3192 x00) example_image)
    ∧ block_writes w' = 0
    ∧ files w' = ∅.
Proof.
  destruct (flash_skip example_argv_d
              (example_world (example_image ++ replicate 3192 x00) example_image)
              true "boot" "/sdcard/boot.img" 0
              (example_partition (example_image ++ replicate 3192 x00))
              example_image) as (w' & Hm & Hp & Hb & Hf & _);
    try (vm_compute; reflexivity).
  - vm_compute. lia.
  - exists w'. split; [done|]. split; [done|]. split; [done|].
    rewrite Hf. vm_compute. reflexivity.
Defined.

(** C5 (flash correctness).  When [main] exits with status 0 on a partition
    whose first [HEADER_SIZE] bytes differ from those of the image (and
    whose block size fits in an [int]), the partition starts with the
    header of the image, and each of its bytes up to the length of the
    image is the byte of the image. *)
Theorem flash_success_contents argv w w' del pn img i p content :
  parse_args (drop 1 argv) false None None = (del, Some pn, Some img) →
  mtd_find_partition_by_name w pn = Some i →
  partitions w !! i = Some p →
  files w !! img = Some content →
  take HEADER_SIZE (ptn_data p) ≠ take HEADER_SIZE content →
  (Z.pos (erase_size p) < 2 ^ 31)%Z →
  main argv w = Exited 0 w' →
  ∃ p', partitions w' !! i = Some p'
    ∧ take (length (take HEADER_SIZE content)) (ptn_data p') = take HEADER_SIZE content
    ∧ take (length content) (ptn_data p') = content
    ∧ (HEADER_SIZE ≤ length content →
       take HEADER_SIZE (ptn_data p') = take HEADER_SIZE content).
Proof.
  intros Hparse Hfind Hp Hfile Hdiff Hbs Hmain.
  assert (Hnot : header_is_the_same w i (take HEADER_SIZE content) = false).
  { by eapply header_differs. }
  unfold main in Hmain.
  destruct (main_steps_1_to_4 argv w) as [code w1|l w1|] eqn:E1; [| |done].
  { injection Hmain as -> ->.
    apply steps_1_to_4_exit_0 in E1 as (_ & del' & pn' & img' & i' & content' & Hparse' & Hfind' & Hfile' & Hsame & _).
    rewrite Hparse in Hparse'. injection Hparse' as <- <- <-.
    rewrite Hfind in Hfind'. injection Hfind' as <-.
    rewrite Hfile in Hfile'. injection Hfile' as <-.
    congruence. }
  apply body_written in E1
    as (Hparse' & Hfind' & Hfile' & Hhdr & Hhl & _ & p0 & d & Hp0 & Hw1 & _ & Hd).
  rewrite Hparse in Hparse'. injection Hparse' as -> -> ->.
  rewrite Hfind in Hfind'. injection Hfind' as ->.
  rewrite Hfile in Hfile'. injection Hfile' as ->.
  rewrite Hp in Hp0. injection Hp0 as <-.
  assert (Hi : partition l < length (partitions w)) by (by eapply lookup_lt_Some).
  assert (Hp1 : partitions w1 !! partition l = Some (set_data p d)).
  { rewrite Hw1. by apply list_lookup_insert_eq. }
  eapply header_written in Hmain as (n & Hn & Hw' & _); [|exact Hp1|done..].
  simpl in Hw'.
  assert (Hall : take (length (image l)) (take n (image l) ++ drop n d) = image l).
  { rewrite take_app_ge by (rewrite length_take; lia).
    rewrite length_take, Nat.min_l by lia.
    rewrite take_drop_commute.
    replace (n + (length (image l) - n)) with (length (image l)) by lia.
    rewrite Hd. rewrite drop_app_ge by (rewrite length_replicate; lia).
    rewrite length_replicate, drop_drop.
    replace (length (header l) + (n - length (header l))) with n by lia.
    apply take_drop. }
  set (d' := take n (image l) ++ drop n d) in *.
  assert (Hpre : ∀ m, m ≤ length (image l) → take m d' = take m (image l)).
  { intros m Hm. rewrite <- Hall. rewrite take_take. f_equal. lia. }
  exists (set_data (set_data p d) d'). split; [|split; [|split]].
  - rewrite Hw', Hw1, list_insert_insert_eq. by apply list_lookup_insert_eq.
  - simpl. rewrite Hpre by (rewrite length_take; lia). apply take_length_take.
  - done.
  - intros Hlong. simpl. by apply Hpre.
Qed.


Lemma flash_success_contents_witness :
  ∃ p', partitions (world_of example_flashed (example_world [] [])) !! 0 = Some p'
    ∧ take 5000 (ptn_data p') = example_image.
Proof.
  destruct (flash_success_contents example_argv
              (example_world (replicate 8192 x00) example_image)
              (world_of example_flashed (example_world [] []))
              false "boot" "/sdcard/boot.img" 0
              (example_partition (replicate 8192 x00)) example_image)
    as (p' & Hp' & _ & Hall & _); try (vm_compute; reflexivity).
  - intros Heq. apply (f_equal (λ l, l !! 0)) in Heq. vm_compute in Heq. discriminate.
  - exists p'. split; [done|]. exact Hall.
Defined.

(** A table keeps the partition found by name when the contents of that
    partition change. *)
Lemma find_partition_set_data w w' name i p d :
  mtd_find_partition_by_name w name = Some i →
  partitions w !! i = Some p →
  partitions w' = <[i := set_data p d]> (partitions w) →
  mtd_find_partition_by_name w' name = Some i.
Proof.
  unfold mtd_find_partition_by_name. intros Hfind Hp ->.
  destruct (list_find _ (partitions w)) as [[j q]|] eqn:E; [|done].
  simpl in Hfind. injection Hfind as ->.
  apply list_find_Some in E as (Hq & Hname & Hbefore).
  rewrite Hp in Hq. injection Hq as <-.
  assert (list_find (λ p, ptn_name p = name) (<[i:=set_data p d]> (partitions w))
          = Some (i, set_data p d)) as ->; [|done].
  apply list_find_Some. split; [|split].
  - apply list_lookup_insert_eq. by eapply lookup_lt_Some.
  - done.
  - intros j y Hj Hlt. rewrite list_lookup_insert_ne in Hj by lia. by eapply Hbefore.
Qed.

(** C1 (interrupted write), as amended.  When the execution has written and
    committed the body (line 136) and the header of the image is not all
    zero, the partition starts with the zero placeholder, its first
    [HEADER_SIZE] bytes are not those of the image, and a later invocation
    with the same arguments does not find the header to be the same: it
    does not leave at line 113. *)
Theorem interrupted_flash_detected argv w l w1 :
  main_steps_1_to_4 argv w = BodyWritten l w1 →
  header l ≠ replicate (length (header l)) x00 →
  files w1 !! imageFile l = Some (image l)
  ∧ header l = take HEADER_SIZE (image l)
  ∧ ∃ p1, partitions w1 !! partition l = Some p1
      ∧ take (length (header l)) (ptn_data p1) = replicate (length (header l)) x00
      ∧ take HEADER_SIZE (ptn_data p1) ≠ take HEADER_SIZE (image l)
      ∧ header_is_the_same w1 (partition l) (header l) = false
      ∧ ∀ w2, main_steps_1_to_4 argv w1 ≠ Exited 0 w2.
Proof.
  intros Hb Hnz.
  apply body_written in Hb
    as (Hparse & Hfind & Hfile & Hhdr & Hhl & _ & p0 & d & Hp0 & Hw1 & Hf & Hd).
  split; [by rewrite Hf|]. split; [done|].
  assert (Hi : partition l < length (partitions w)) by (by eapply lookup_lt_Some).
  assert (Hp1 : partitions w1 !! partition l = Some (set_data p0 d)).
  { rewrite Hw1. by apply list_lookup_insert_eq. }
  assert (Hlen : length (header l) ≤ length (image l)).
  { rewrite Hhdr, length_take. lia. }
  assert (Hzero : take (length (header l)) d = replicate (length (header l)) x00).
  { transitivity (take (length (header l)) (take (length (image l)) d)).
    - rewrite take_take. f_equal. lia.
    - rewrite Hd. by rewrite take_app_length' by (by rewrite length_replicate). }
  assert (Hne : take HEADER_SIZE d ≠ header l).
  { intros Heq. apply Hnz.
    assert (Hcut : take (length (header l)) (take HEADER_SIZE d)
                   = take (length (header l)) d).
    { rewrite take_take. f_equal. rewrite Hhdr, length_take. lia. }
    rewrite Heq, take_ge in Hcut by lia. congruence. }
  assert (Hsame : header_is_the_same w1 (partition l) (header l) = false).
  { by eapply header_differs. }
  exists (set_data p0 d). split; [done|]. split; [done|]. split; [by rewrite <- Hhdr|].
  split; [done|].
  intros w2 Hexit.
  apply steps_1_to_4_exit_0 in Hexit
    as (_ & del' & pn' & img' & i' & content' & Hparse' & Hfind' & Hfile' & Hsame' & _).
  rewrite Hparse in Hparse'. injection Hparse' as <- <- <-.
  rewrite (find_partition_set_data w w1 _ _ p0 d Hfind Hp0 Hw1) in Hfind'.
  injection Hfind' as <-.
  rewrite Hf, Hfile in Hfile'. injection Hfile' as <-.
  congruence.
Qed.

Lemma interrupted_flash_detected_witness :
  ∃ p1, partitions (world_of example_halted (example_world [] [])) !! 0 = Some p1
    ∧ take HEADER_SIZE (ptn_data p1) ≠ take HEADER_SIZE example_image.
Proof.
  destruct (interrupted_flash_detected example_argv
              (example_world (replicate 8192 x00) example_image)
              {| deleteImage := false; partitionName := "boot";
                 imageFile := "/sdcard/boot.img"; partition := 0;
                 image := example_image; header := take HEADER_SIZE example_image |}
              (world_of example_halted (example_world [] [])))
    as (_ & _ & p1 & Hp1 & _ & Hne & _).
  - vm_compute. reflexivity.
  - intros Heq. apply (f_equal (λ l, l !! 0)) in Heq. vm_compute in Heq. discriminate.
  - exists p1. split; [exact Hp1|exact Hne].
Defined.

(** C1 as stated fails for an image whose header is all zero: flashing
    [zero_header_image] to an erased partition and halting after the body
    has been written leaves a partition whose first [HEADER_SIZE] bytes
    are those of the image; the next invocation takes the partition to
    hold the image already. *)
Lemma interrupted_flash_zero_header :
  ∃ l w1 p p1,
    partitions (example_world (replicate 8192 xff) zero_header_image) !! 0 = Some p
    ∧ take HEADER_SIZE (ptn_data p) ≠ take HEADER_SIZE zero_header_image
    ∧ main_steps_1_to_4 example_argv
        (example_world (replicate 8192 xff) zero_header_image) = BodyWritten l w1
    ∧ partition l = 0 ∧ image l = zero_header_image
    ∧ partitions w1 !! 0 = Some p1
    ∧ take HEADER_SIZE (ptn_data p1) = take HEADER_SIZE zero_header_image
    ∧ header_is_the_same w1 0 (take HEADER_SIZE zero_header_image) = true
    ∧ main_steps_1_to_4 example_argv w1 = Exited 0 w1.
Proof.
  exists {| deleteImage := false; partitionName := "boot";
            imageFile := "/sdcard/boot.img"; partition := 0;
            image := zero_header_image; header := take HEADER_SIZE zero_header_image |},
         (world_of zero_header_halted (example_world [] [])),
         (example_partition (replicate 8192 xff)),
         (example_partition (zero_header_image ++ replicate 1144 x00 ++ replicate 2048 xff)).
  split; [vm_compute; reflexivity|]. split.
  { intros Heq. apply (f_equal (λ l, l !! 0)) in Heq. vm_compute in Heq. discriminate. }
  do 6 (split; [vm_compute; reflexivity|]). vm_compute; reflexivity.
Qed.

(** ** Termination *)

Lemma copy_body_terminates fuel : ∀ content off out w,
  length content - off < fuel → copy_body fuel content off out w ≠ None.
Proof.
  induction fuel as [|fuel IH]; intros content off out w Hfuel; [lia|].
  cbn [copy_body]. unfold read. case_bool_decide as Hlen; [|done].
  destruct (mtd_write_data out w _) as [[out'|] w']; [|done].
  apply IH. rewrite length_take, length_drop in Hlen |- *. lia.
Qed.

Lemma write_rest_terminates fuel : ∀ content off left_ out w,
  Z.to_nat left_ < fuel → write_rest_of_block fuel content off left_ out w ≠ None.
Proof.
  induction fuel as [|fuel IH]; intros content off left_ out w Hfuel; [lia|].
  cbn [write_rest_of_block]. case_bool_decide as Hpos; [|done].
  case_bool_decide as Hlen; [done|].
  destruct (mtd_write_data out w _) as [[out'|] w']; [|done].
  apply IH. lia.
Qed.

Lemma round_up_left_terminates bs fuel : ∀ l,
  (Z.pos bs < 2 ^ 31)%Z → (- 2 ^ 31 ≤ l < 2 ^ 31)%Z →
  Z.to_nat (- l) < fuel → round_up_left fuel l bs ≠ None.
Proof.
  induction fuel as [|fuel IH]; intros l Hbs Hl Hfuel; [lia|].
  cbn [round_up_left]. case_bool_decide as Hneg; [|done].
  rewrite to_int_small by lia. apply IH; lia.
Qed.

(** With block sizes that fit in an [int], every loop of [main] comes to
    an end: [main] exits. *)
Lemma main_terminates argv w :
  Forall (λ p, (Z.pos (erase_size p) < 2 ^ 31)%Z) (partitions w) →
  main argv w ≠ Looping.
Proof.
  intros Hsizes. unfold main.
  destruct (main_steps_1_to_4 argv w) as [code w1|l w1|] eqn:E1; [done| |].
  - apply body_written in E1
      as (_ & _ & _ & Hhdr & Hhl & _ & p0 & d & Hp0 & Hw1 & _ & _).
    assert (Hp1 : partitions w1 !! partition l = Some (set_data p0 d)).
    { rewrite Hw1. apply list_lookup_insert_eq. by eapply lookup_lt_Some. }
    assert (Hbs : (Z.pos (erase_size p0) < 2 ^ 31)%Z).
    { rewrite Forall_forall in Hsizes. apply Hsizes. by eapply list_elem_of_lookup_2. }
    unfold main_steps_5_to_7, die.
    destruct (mtd_write_partition w1 _) as [out|] eqn:Eopen; [|done].
    destruct (mtd_write_data out w1 _) as [[out1|] w1'] eqn:Ew1; [|done].
    pose proof (session_open _ _ w1 Hp1 _ Eopen) as Hs.
    eapply (session_data _ _ _ Hp1) in Hs; [|exact Ew1].
    assert (Hinfo : mtd_partition_info w1' (partition l) = Some (erase_size p0)).
    { unfold mtd_partition_info. rewrite (ses_data _ _ _ _ _ _ Hs).
      rewrite list_lookup_insert_eq by (by eapply lookup_lt_Some). done. }
    rewrite Hinfo.
    assert (Hlen : length (header l) ≤ HEADER_SIZE).
    { rewrite Hhdr, length_take. lia. }
    unfold HEADER_SIZE in Hlen.
    rewrite to_int_small by lia.
    destruct (round_up_left _ _ _) as [left_|] eqn:Eround.
    2:{ exfalso. revert Eround. apply round_up_left_terminates; lia. }
    destruct (write_rest_of_block _ _ _ _ _ _) as [[[out2|] w2']|] eqn:Erest;
      [|done|].
    + by destruct (mtd_write_close out2 w2'), (deleteImage l).
    + exfalso. revert Erest. apply write_rest_terminates. lia.
  - exfalso. unfold main_steps_1_to_4, die in E1.
    case_bool_decide; [done|].
    destruct (parse_args _ _ _ _) as [[del [pn|]] [img|]]; try done.
    case_bool_decide; [done|].
    destruct (mtd_find_partition_by_name w pn) as [i|]; [|done].
    destruct (files w !! img) as [content|]; [|done].
    rewrite read_0 in E1.
    case_bool_decide as Hhl; [done|].
    destruct (header_is_the_same _ _ _); [done|].
    destruct (mtd_write_partition w i) as [out|]; [|done].
    destruct (mtd_write_data out w _) as [[out1|] w1']; [|done].
    destruct (copy_body _ _ _ _ _) as [[[out2|] w2]|] eqn:Ecopy; [| |].
    + by destruct (mtd_write_close out2 w2).
    + done.
    + revert Ecopy. apply copy_body_terminates. lia.
Qed.

(** The scenario of an image of 5000 bytes and a partition that is all
    zero: the flash writes four blocks (three for the body and its
    padding, one for the block with the header), and the partition then
    starts with the image; the same invocation again, with
    [-d], writes nothing and removes the image file. *)
Example flash_then_skip :
  main example_argv (example_world (replicate 8192 x00) example_image)
  = Exited 0 {| partitions := [example_partition
                                 (example_image ++ replicate 1144 x00
                                  ++ replicate 2048 x00)];
                files := {[ "/sdcard/boot.img"%string := example_image ]};
                block_writes := 4 |}
  ∧ main example_argv_d (world_of example_flashed (example_world [] []))
    = Exited 0 {| partitions := [example_partition
                                   (example_image ++ replicate 1144 x00
                                    ++ replicate 2048 x00)];
                  files := ∅;
                  block_writes := 4 |}.
Proof. split; vm_compute; reflexivity. Qed.

(** ** What [main] changes *)

Lemma differ_at_refl i ps : differ_at i ps ps.
Proof.
  split; [done|]. intros j p Hp. exists (ptn_data p).
  by rewrite set_data_id.
Qed.

Lemma differ_at_trans i ps ps' ps'' :
  differ_at i ps ps' → differ_at i ps' ps'' → differ_at i ps ps''.
Proof.
  intros [Hl1 H1] [Hl2 H2]. split; [congruence|].
  intros j p Hp. destruct (H1 j p Hp) as (d & Hd & Hlen & Hne).
  destruct (H2 j _ Hd) as (d' & Hd' & Hlen' & Hne').
  exists d'. split; [done|]. split; [simpl in Hlen'; congruence|].
  intros Hj. rewrite Hne' by done. simpl. by apply Hne.
Qed.

Lemma differ_at_insert i ps p d :
  ps !! i = Some p → length d = length (ptn_data p) →
  differ_at i ps (<[i := set_data p d]> ps).
Proof.
  intros Hp Hlen. split; [by rewrite length_insert|].
  intros j q Hq. destruct (decide (j = i)) as [->|Hne].
  - rewrite Hp in Hq. injection Hq as <-. exists d.
    rewrite list_lookup_insert_eq by (by eapply lookup_lt_Some). done.
  - exists (ptn_data q). rewrite list_lookup_insert_ne by done.
    by rewrite set_data_id.
Qed.

Lemma write_block_frame ctx blk w ctx' w' :
  write_block ctx blk w = Some (ctx', w') →
  wc_partition ctx' = wc_partition ctx
  ∧ files w' = files w
  ∧ differ_at (wc_partition ctx) (partitions w) (partitions w').
Proof.
  unfold write_block.
  destruct (partitions w !! wc_partition ctx) as [p|] eqn:Hp; [|done]. simpl.
  case_decide as Hfit; [|done]. intros [= <- <-]. simpl.
  split; [done|]. split; [done|].
  apply differ_at_insert; [done|].
  rewrite !length_app, length_take, length_drop. lia.
Qed.

Lemma write_byte_frame ctx w b ctx' w' :
  write_byte ctx w b = Some (ctx', w') →
  wc_partition ctx' = wc_partition ctx
  ∧ files w' = files w
  ∧ differ_at (wc_partition ctx) (partitions w) (partitions w').
Proof.
  unfold write_byte.
  destruct (partitions w !! wc_partition ctx) as [p|]; [|done]. simpl.
  case_decide.
  - apply write_block_frame.
  - intros [= <- <-]. simpl. split; [done|]. split; [done|]. apply differ_at_refl.
Qed.

Lemma mtd_write_data_frame data : ∀ ctx w r w',
  mtd_write_data ctx w data = (r, w') →
  files w' = files w
  ∧ differ_at (wc_partition ctx) (partitions w) (partitions w')
  ∧ ∀ ctx', r = Some ctx' → wc_partition ctx' = wc_partition ctx.
Proof.
  induction data as [|b data IH]; simpl; intros ctx w r w'.
  - intros [= <- <-]. split; [done|]. split; [apply differ_at_refl|].
    by intros ctx' [= <-].
  - destruct (write_byte ctx w b) as [[ctx1 w1]|] eqn:Eb.
    + apply write_byte_frame in Eb as (Hi & Hf & Hd). intros Hr.
      apply IH in Hr as (Hf' & Hd' & Hi'). rewrite Hi in *.
      split; [congruence|]. split; [by eapply differ_at_trans|done].
    + intros [= <- <-]. split; [done|]. split; [apply differ_at_refl|done].
Qed.

Lemma mtd_write_close_frame ctx w w' :
  mtd_write_close ctx w = Some w' →
  files w' = files w
  ∧ differ_at (wc_partition ctx) (partitions w) (partitions w').
Proof.
  unfold mtd_write_close. destruct (wc_stored ctx).
  - intros [= <-]. split; [done|apply differ_at_refl].
  - destruct (partitions w !! wc_partition ctx) as [p|]; [|done]. simpl.
    destruct (write_block _ _ _) as [[ctx1 w1]|] eqn:Eb; [|done].
    intros [= <-]. by apply write_block_frame in Eb as (_ & ? & ?).
Qed.

Lemma copy_body_frame fuel : ∀ content off out w r w',
  copy_body fuel content off out w = Some (r, w') →
  files w' = files w
  ∧ differ_at (wc_partition out) (partitions w) (partitions w')
  ∧ ∀ out', r = Some out' → wc_partition out' = wc_partition out.
Proof.
  induction fuel as [|fuel IH]; simpl; intros content off out w r w'; [done|].
  case_bool_decide.
  - destruct (mtd_write_data out w _) as [[out1|] w1] eqn:Ed;
      apply mtd_write_data_frame in Ed as (Hf & Hd & Hi).
    + specialize (Hi _ eq_refl). intros Hr.
      apply IH in Hr as (Hf' & Hd' & Hi'). rewrite Hi in *.
      split; [congruence|]. split; [by eapply differ_at_trans|done].
    + intros [= <- <-]. by split.
  - intros [= <- <-]. split; [done|]. split; [apply differ_at_refl|].
    by intros ? [= <-].
Qed.

Lemma write_rest_frame fuel : ∀ content off left_ out w r w',
  write_rest_of_block fuel content off left_ out w = Some (r, w') →
  files w' = files w
  ∧ differ_at (wc_partition out) (partitions w) (partitions w')
  ∧ ∀ out', r = Some out' → wc_partition out' = wc_partition out.
Proof.
  induction fuel as [|fuel IH]; simpl; intros content off left_ out w r w'; [done|].
  case_bool_decide.
  - case_bool_decide.
    { intros [= <- <-]. split; [done|]. split; [apply differ_at_refl|done]. }
    destruct (mtd_write_data out w _) as [[out1|] w1] eqn:Ed;
      apply mtd_write_data_frame in Ed as (Hf & Hd & Hi).
    + specialize (Hi _ eq_refl). intros Hr.
      apply IH in Hr as (Hf' & Hd' & Hi'). rewrite Hi in *.
      split; [congruence|]. split; [by eapply differ_at_trans|done].
    + intros [= <- <-]. by split.
  - intros [= <- <-]. split; [done|]. split; [apply differ_at_refl|].
    by intros ? [= <-].
Qed.

Lemma mtd_write_partition_index w i out :
  mtd_write_partition w i = Some out → wc_partition out = i.
Proof.
  unfold mtd_write_partition. destruct (partitions w !! i) as [p|]; [|done]. simpl.
  destruct (ptn_writable p); [|done]. by intros [= <-].
Qed.

(** What steps 1 to 4 change. *)
Lemma steps_1_to_4_frame argv w :
  match main_steps_1_to_4 argv w with
  | Exited c w' =>
      (c = 2%Z ∧ w' = w)
      ∨ (c = 1%Z ∧ files w' = files w
         ∧ (partitions w' = partitions w
            ∨ ∃ pn i, (parse_args (drop 1 argv) false None None).1.2 = Some pn
                ∧ mtd_find_partition_by_name w pn = Some i
                ∧ differ_at i (partitions w) (partitions w')))
      ∨ (c = 0%Z ∧ partitions w' = partitions w ∧ block_writes w' = block_writes w
         ∧ ∃ del img, parse_args (drop 1 argv) false None None
                      = (del, (parse_args (drop 1 argv) false None None).1.2, Some img)
             ∧ files w' = if del then delete img (files w) else files w)
  | BodyWritten l w' =>
      files w' = files w ∧ differ_at (partition l) (partitions w) (partitions w')
  | Looping => True
  end.
Proof.
  unfold main_steps_1_to_4, die.
  case_bool_decide; [by left|].
  destruct (parse_args _ _ _ _) as [[del [pn|]] [img|]] eqn:Eparse; try by left.
  case_bool_decide; [right; left; by eauto|].
  destruct (mtd_find_partition_by_name w pn) as [i|] eqn:Efind; [|right; left; by eauto].
  destruct (files w !! img) as [content|] eqn:Efile; [|right; left; by eauto].
  case_bool_decide; [right; left; by eauto|].
  destruct (header_is_the_same _ _ _).
  { right; right. split; [done|]. split; [by destruct del|]. split; [by destruct del|].
    exists del, img. split; [done|]. by destruct del. }
  destruct (mtd_write_partition w i) as [out|] eqn:Eopen; [|right; left; by eauto].
  apply mtd_write_partition_index in Eopen.
  destruct (mtd_write_data out w _) as [[out1|] w1] eqn:Ed;
    apply mtd_write_data_frame in Ed as (Hf & Hd & Hi); rewrite Eopen in *.
  2:{ right; left. split; [done|]. split; [done|]. right. by exists pn, i. }
  specialize (Hi _ eq_refl).
  destruct (copy_body _ _ _ _ _) as [[[out2|] w2]|] eqn:Ec; [| |done];
    apply copy_body_frame in Ec as (Hf2 & Hd2 & Hi2); rewrite Hi in *.
  2:{ right; left. split; [done|]. split; [congruence|]. right. exists pn, i.
      split; [done|]. split; [done|]. by eapply differ_at_trans. }
  specialize (Hi2 _ eq_refl).
  destruct (mtd_write_close out2 w2) as [w3|] eqn:Ecl.
  - apply mtd_write_close_frame in Ecl as (Hf3 & Hd3). rewrite Hi2 in *. simpl.
    split; [congruence|]. eapply differ_at_trans; [|done]. by eapply differ_at_trans.
  - right; left. split; [done|]. split; [congruence|]. right. exists pn, i.
    split; [done|]. split; [done|]. by eapply differ_at_trans.
Qed.

(** What steps 5 to 7 change. *)
Lemma steps_5_to_7_frame l w :
  match main_steps_5_to_7 l w with
  | Exited c w' =>
      differ_at (partition l) (partitions w) (partitions w')
      ∧ ((c = 1%Z ∧ files w' = files w)
         ∨ (c = 0%Z ∧ files w' = if deleteImage l then delete (imageFile l) (files w)
                               else files w))
  | BodyWritten _ _ => False
  | Looping => True
  end.
Proof.
  unfold main_steps_5_to_7, die.
  destruct (mtd_write_partition w _) as [out|] eqn:Eopen;
    [|split; [apply differ_at_refl|by left]].
  apply mtd_write_partition_index in Eopen.
  destruct (mtd_write_data out w _) as [[out1|] w1] eqn:Ed;
    apply mtd_write_data_frame in Ed as (Hf & Hd & Hi); rewrite Eopen in *.
  2:{ split; [done|by left]. }
  specialize (Hi _ eq_refl).
  destruct (mtd_partition_info w1 _); [|split; [done|by left]].
  destruct (round_up_left _ _ _) as [left_|]; [|done].
  destruct (write_rest_of_block _ _ _ _ _ _) as [[[out2|] w2]|] eqn:Er; [| |done];
    apply write_rest_frame in Er as (Hf2 & Hd2 & Hi2); rewrite Hi in *.
  2:{ split; [by eapply differ_at_trans|left; split; [done|congruence]]. }
  specialize (Hi2 _ eq_refl).
  destruct (mtd_write_close out2 w2) as [w3|] eqn:Ecl.
  - apply mtd_write_close_frame in Ecl as (Hf3 & Hd3). rewrite Hi2 in *.
    split.
    + destruct (deleteImage l); simpl;
        (eapply differ_at_trans; [|done]); by eapply differ_at_trans.
    + right. split; [done|]. destruct (deleteImage l); simpl; congruence.
  - split; [by eapply differ_at_trans|left; split; [done|congruence]].
Qed.

(** ** The arguments *)

Lemma parse_args_spec args : ∀ d pn im,
  parse_args args d pn im
  = (d || bool_decide ("-d"%string ∈ args),
     match pn with Some _ => pn | None => head (plain_args args) end,
     match (match pn with
            | Some _ => last (plain_args args)
            | None => last (tail (plain_args args))
            end) with
     | Some a => Some a
     | None => im
     end).
Proof.
  induction args as [|a args IH]; cbn [parse_args]; intros d pn im.
  - rewrite bool_decide_eq_false_2 by (by intros ?%elem_of_nil).
    rewrite orb_false_r. by destruct pn.
  - unfold plain_args in *. destruct (String.eqb_spec a "-d") as [->|Hne].
    + rewrite IH, filter_cons_False by (by intros ?).
      rewrite (bool_decide_eq_true_2 (_ ∈ _ :: _)) by left.
      by rewrite orb_true_r.
    + rewrite filter_cons_True by done.
      assert (bool_decide ("-d"%string ∈ a :: args) = bool_decide ("-d"%string ∈ args)) as ->.
      { apply bool_decide_ext. rewrite elem_of_cons.
        split; [intros [Heq|Hin]; [congruence|done]|by right]. }
      destruct pn as [p|]; rewrite IH; simpl.
      * rewrite last_cons. by destruct (last (filter _ args)).
      * done.
Qed.

Lemma parse_args_plain args :
  parse_args args false None None
  = (bool_decide ("-d"%string ∈ args), head (plain_args args),
     last (tail (plain_args args))).
Proof.
  rewrite parse_args_spec. simpl. by destruct (last (tail (plain_args args))).
Qed.

Lemma steps_1_to_4_exit_2 argv w w' :
  main_steps_1_to_4 argv w = Exited 2 w' →
  w' = w ∧ (length argv < 3 ∨ 4 < length argv
            ∨ length (plain_args (drop 1 argv)) < 2).
Proof.
  unfold main_steps_1_to_4, die. case_bool_decide as Hargc.
  { intros [= <-]. split; [done|]. lia. }
  rewrite parse_args_plain.
  destruct (plain_args (drop 1 argv)) as [|pn [|a l]] eqn:Ep; cbn [head tail last length].
  - intros [= <-]. split; [done|]. lia.
  - intros [= <-]. split; [done|]. lia.
  - rewrite last_cons.
    set (img := match last l with Some y => y | None => a end).
    assert (match last l with Some y => Some y | None => Some a end = Some img) as ->
      by (unfold img; by destruct (last l)).
    case_bool_decide; [done|].
    destruct (mtd_find_partition_by_name w pn) as [i|]; [|done].
    destruct (files w !! img) as [content|]; [|done].
    case_bool_decide; [done|].
    destruct (header_is_the_same _ _ _); [done|].
    destruct (mtd_write_partition w i) as [out|]; [|done].
    destruct (mtd_write_data out w _) as [[out1|] w1]; [|done].
    destruct (copy_body _ _ _ _ _) as [[[out2|] w2]|]; try done.
    by destruct (mtd_write_close out2 w2).
Qed.

(** The exit with status 2 is the one of lines 67 and 81. *)
Lemma main_exit_2 argv w w' :
  main argv w = Exited 2 w' →
  w' = w ∧ (length argv < 3 ∨ 4 < length argv
            ∨ length (plain_args (drop 1 argv)) < 2).
Proof.
  intros Hm. unfold main in Hm.
  destruct (main_steps_1_to_4 argv w) as [c w1|l w1|] eqn:E1; [| |done].
  - injection Hm as -> ->. by apply steps_1_to_4_exit_2.
  - pose proof (steps_5_to_7_frame l w1) as Hf. rewrite Hm in Hf.
    destruct Hf as [_ [[? _]|[? _]]]; done.
Qed.

(** X1 (usage).  [main] exits with status 2 exactly when it is given fewer
    than two or more than three arguments, or fewer than two arguments
    other than [-d]; it then has changed nothing. *)
Theorem flash_usage argv w :
  (length argv < 3 ∨ 4 < length argv ∨ length (plain_args (drop 1 argv)) < 2
   ↔ main argv w = Exited 2 w)
  ∧ ∀ w', main argv w = Exited 2 w' → w' = w.
Proof.
  split; [split|].
  - intros Hbad. unfold main, main_steps_1_to_4.
    case_bool_decide as Hargc; [done|].
    rewrite parse_args_plain.
    destruct (plain_args (drop 1 argv)) as [|pn [|a l]] eqn:Ep;
      cbn [head tail last]; [done|done|].
    simpl in Hbad. lia.
  - intros Hm. by apply main_exit_2 in Hm as [_ ?].
  - intros w' Hm. by apply main_exit_2 in Hm as [? _].
Qed.

(** When [main] comes to an end, it has exited, with status 0, 1 or 2. *)
Lemma main_exit_code argv w :
  match main argv w with
  | Exited c _ => (c = 0 ∨ c = 1 ∨ c = 2)%Z
  | BodyWritten _ _ => False
  | Looping => True
  end.
Proof.
  unfold main.
  pose proof (steps_1_to_4_frame argv w) as H1.
  destruct (main_steps_1_to_4 argv w) as [c w1|l w1|]; [| |done].
  - destruct H1 as [[-> _]|[[-> _]|[-> _]]]; lia.
  - pose proof (steps_5_to_7_frame l w1) as H5.
    destruct (main_steps_5_to_7 l w1) as [c w2|l2 w2|]; [|done|done].
    destruct H5 as [_ [[-> _]|[-> _]]]; lia.
Qed.

(** X2 (exit status).  When the block size of every partition fits in an
    [int], every loop of [main] comes to an end and [main] exits with
    status 0, 1 ([die]) or 2 (usage). *)
Theorem flash_exit_codes argv w :
  Forall (λ p, (Z.pos (erase_size p) < 2 ^ 31)%Z) (partitions w) →
  ∃ c w', main argv w = Exited c w' ∧ (c = 0 ∨ c = 1 ∨ c = 2)%Z.
Proof.
  intros Hsizes.
  pose proof (main_terminates argv w Hsizes) as Hterm.
  pose proof (main_exit_code argv w) as Hcode.
  destruct (main argv w) as [c w'|l w'|]; [|done|done].
  by exists c, w'.
Qed.

Lemma flash_exit_codes_witness :
  ∃ c w', main example_argv (example_world (replicate 8192 x00) example_image)
          = Exited c w' ∧ (c = 0 ∨ c = 1 ∨ c = 2)%Z.
Proof.
  apply (flash_exit_codes example_argv
           (example_world (replicate 8192 x00) example_image)).
  repeat constructor.
Defined.

(** What [main] changes, on every path that exits. *)
Lemma main_frame argv w c w' :
  main argv w = Exited c w' →
  (partitions w' = partitions w
   ∨ ∃ pn i, head (plain_args (drop 1 argv)) = Some pn
       ∧ mtd_find_partition_by_name w pn = Some i
       ∧ differ_at i (partitions w) (partitions w'))
  ∧ ((c ≠ 0%Z ∧ files w' = files w)
     ∨ (c = 0%Z ∧ ∃ img, last (plain_args (drop 1 argv)) = Some img
          ∧ files w' = if bool_decide ("-d"%string ∈ drop 1 argv)
                       then delete img (files w) else files w)).
Proof.
  intros Hm. unfold main in Hm.
  pose proof (steps_1_to_4_frame argv w) as H1.
  pose proof (body_written argv w) as Hb.
  rewrite parse_args_plain in H1, Hb.
  destruct (main_steps_1_to_4 argv w) as [c1 w1|l w1|]; [| |done].
  - injection Hm as -> ->.
    destruct H1 as [[-> ->]|[(-> & Hf & Hp)|(-> & Hp & _ & del & img & Hparse & Hf)]].
    + split; [by left|by left].
    + split; [|by left]. destruct Hp as [?|(pn & i & Hpn & ? & ?)]; [by left|].
      right. exists pn, i. by simpl in Hpn.
    + split; [by left|]. right. split; [done|]. simpl in Hparse.
      injection Hparse as <- Himg.
      exists img. split; [|done].
      destruct (plain_args (drop 1 argv)) as [|? [|? ?]]; try done.
  - destruct (Hb l w1 eq_refl) as (Hparse & Hfind & _).
    injection Hparse as Hdel Hpn Himg.
    destruct H1 as [Hf1 Hd1].
    pose proof (steps_5_to_7_frame l w1) as H5. rewrite Hm in H5.
    destruct H5 as [Hd5 Hf5]. split.
    + right. exists (partitionName l), (partition l). split; [done|]. split; [done|].
      by eapply differ_at_trans.
    + destruct Hf5 as [[-> Hf5]|[-> Hf5]]; [left; split; [done|congruence]|].
      right. split; [done|]. exists (imageFile l). split.
      * destruct (plain_args (drop 1 argv)) as [|? [|? ?]]; try done.
      * rewrite Hdel, Hf5, Hf1. done.
Qed.

(** X3 (the image file).  Whatever happens, [main] changes no file but the
    image, and it removes the image only when it exits with status 0 and
    [-d] is among the arguments: after a failure the image is still
    there. *)
Theorem flash_deletes_image_only_on_success argv w c w' :
  main argv w = Exited c w' →
  (c ≠ 0%Z ∨ "-d"%string ∉ drop 1 argv → files w' = files w)
  ∧ (c = 0%Z → "-d"%string ∈ drop 1 argv →
     ∃ img, last (plain_args (drop 1 argv)) = Some img
            ∧ files w' = delete img (files w)).
Proof.
  intros Hm. apply main_frame in Hm as [_ [[Hc Hf]|(-> & img & Himg & Hf)]].
  - split; [done|]. intros ->. done.
  - split.
    + intros [?|Hd]; [done|]. by rewrite bool_decide_eq_false_2 in Hf.
    + intros _ Hd. exists img. split; [done|]. by rewrite bool_decide_eq_true_2 in Hf.
Qed.

Lemma flash_deletes_image_only_on_success_witness :
  files (world_of example_flashed_d (example_world [] [])) = ∅.
Proof.
  destruct (flash_deletes_image_only_on_success example_argv_d
              (example_world (replicate 8192 x00) example_image) 0
              (world_of example_flashed_d (example_world [] [])))
    as [_ Hdel]; [vm_compute; reflexivity|].
  destruct Hdel as (img & Himg & ->); [reflexivity| |].
  - vm_compute. left.
  - vm_compute in Himg. injection Himg as <-. vm_compute. reflexivity.
Defined.

(** X4 (the other partitions).  Whatever happens, [main] keeps the
    partition table as it is but for the contents of one partition, the
    first one that bears the name given as the first argument other than
    [-d]; the size of that partition does not change. *)
Theorem flash_writes_named_partition_only argv w c w' :
  main argv w = Exited c w' →
  length (partitions w') = length (partitions w)
  ∧ ∀ j p, partitions w !! j = Some p →
      ∃ d, partitions w' !! j = Some (set_data p d)
           ∧ length d = length (ptn_data p)
           ∧ (d ≠ ptn_data p →
              ∃ pn, head (plain_args (drop 1 argv)) = Some pn
                    ∧ mtd_find_partition_by_name w pn = Some j).
Proof.
  intros Hm. apply main_frame in Hm as [[Hp|(pn & i & Hpn & Hfind & Hl & Hd)] _].
  - rewrite Hp. split; [done|]. intros j p Hj. exists (ptn_data p).
    by rewrite set_data_id.
  - split; [done|]. intros j p Hj.
    destruct (Hd j p Hj) as (d & Hd' & Hlen & Hother).
    exists d. split; [done|]. split; [done|]. intros Hne.
    exists pn. split; [done|].
    destruct (decide (j = i)) as [->|Hji]; [done|]. by apply Hother in Hji.
Qed.

Lemma flash_writes_named_partition_only_witness :
  length (partitions (world_of example_flashed (example_world [] []))) = 1.
Proof.
  destruct (flash_writes_named_partition_only example_argv
              (example_world (replicate 8192 x00) example_image) 0
              (world_of example_flashed (example_world [] [])))
    as [Hlen _]; [vm_compute; reflexivity|].
  exact Hlen.
Defined.

(** ** Failures and repetitions *)

Lemma find_partition_lt w pn i :
  mtd_find_partition_by_name w pn = Some i → i < length (partitions w).
Proof.
  unfold mtd_find_partition_by_name. intros Hfind.
  destruct (list_find _ _) as [[j q]|] eqn:E; [|done]. injection Hfind as ->.
  apply list_find_Some in E as [E _]. by eapply lookup_lt_Some.
Qed.

(** X5 (failures before the first write).  When the partition is not
    found, the image file cannot be opened or is empty, or the partition
    has to be written and cannot be opened for writing, [main] exits with
    status 1 and has changed nothing. *)
Theorem flash_fails_before_writing argv w del pn img :
  3 ≤ length argv ≤ 4 →
  parse_args (drop 1 argv) false None None = (del, Some pn, Some img) →
  mtd_find_partition_by_name w pn = None
  ∨ files w !! img = None
  ∨ files w !! img = Some []
  ∨ (∃ i p content,
       mtd_find_partition_by_name w pn = Some i
       ∧ partitions w !! i = Some p
       ∧ files w !! img = Some content
       ∧ header_is_the_same w i (take HEADER_SIZE content) = false
       ∧ ptn_writable p = false) →
  main argv w = Exited 1 w.
Proof.
  intros Hargc Hparse Hcase. unfold main, main_steps_1_to_4, die.
  rewrite (bool_decide_eq_false_2 (_ ∨ _)) by lia. rewrite Hparse.
  case_bool_decide; [done|].
  destruct Hcase as [Hfind|[Hfile|[Hfile|(i & p & content & Hfind & Hp & Hfile & Hsame & Hw)]]].
  - by rewrite Hfind.
  - destruct (mtd_find_partition_by_name w pn); [|done]. by rewrite Hfile.
  - destruct (mtd_find_partition_by_name w pn); [|done]. by rewrite Hfile.
  - rewrite Hfind, Hfile, read_0. case_bool_decide; [done|]. rewrite Hsame.
    unfold mtd_write_partition. rewrite Hp. simpl. by rewrite Hw.
Qed.

Lemma flash_fails_before_writing_witness :
  main example_argv (example_world (replicate 8192 x00) [])
  = Exited 1 (example_world (replicate 8192 x00) []).
Proof.
  apply (flash_fails_before_writing example_argv
           (example_world (replicate 8192 x00) []) false "boot" "/sdcard/boot.img").
  - vm_compute. lia.
  - reflexivity.
  - right. right. left. reflexivity.
Defined.

Lemma steps_1_to_4_argc argv w l w1 :
  main_steps_1_to_4 argv w = BodyWritten l w1 → 3 ≤ length argv ≤ 4.
Proof.
  unfold main_steps_1_to_4. case_bool_decide; [done|]. intros _. lia.
Qed.

(** The exit of line 113. *)
Lemma main_skip argv w del pn img i content :
  3 ≤ length argv ≤ 4 →
  parse_args (drop 1 argv) false None None = (del, Some pn, Some img) →
  mtd_find_partition_by_name w pn = Some i →
  files w !! img = Some content →
  content ≠ [] →
  header_is_the_same w i (take HEADER_SIZE content) = true →
  main argv w = Exited 0 (if del then unlink img w else w).
Proof.
  intros Hargc Hparse Hfind Hfile Hne Hsame. unfold main, main_steps_1_to_4.
  rewrite (bool_decide_eq_false_2 (_ ∨ _)) by lia. rewrite Hparse.
  pose proof (find_partition_lt _ _ _ Hfind) as Hi.
  rewrite (bool_decide_eq_false_2 (_ ≤ _)%Z) by (unfold mtd_scan_partitions; lia).
  rewrite Hfind, Hfile, read_0.
  rewrite (bool_decide_eq_false_2 (_ = 0)).
  2:{ destruct content; [done|]. unfold HEADER_SIZE. simpl. lia. }
  by rewrite Hsame.
Qed.

(** The exit of line 93. *)
Lemma main_no_image argv w del pn img i :
  3 ≤ length argv ≤ 4 →
  parse_args (drop 1 argv) false None None = (del, Some pn, Some img) →
  mtd_find_partition_by_name w pn = Some i →
  files w !! img = None →
  main argv w = Exited 1 w.
Proof.
  intros Hargc Hparse Hfind Hfile. unfold main, main_steps_1_to_4, die.
  rewrite (bool_decide_eq_false_2 (_ ∨ _)) by lia. rewrite Hparse.
  pose proof (find_partition_lt _ _ _ Hfind) as Hi.
  rewrite (bool_decide_eq_false_2 (_ ≤ _)%Z) by (unfold mtd_scan_partitions; lia).
  by rewrite Hfind, Hfile.
Qed.

(** The world after an exit with status 0. *)
Lemma exit_0_world argv w w' del pn img i p content :
  parse_args (drop 1 argv) false None None = (del, Some pn, Some img) →
  mtd_find_partition_by_name w pn = Some i →
  partitions w !! i = Some p →
  files w !! img = Some content →
  (Z.pos (erase_size p) < 2 ^ 31)%Z →
  main argv w = Exited 0 w' →
  3 ≤ length argv ≤ 4
  ∧ content ≠ []
  ∧ mtd_find_partition_by_name w' pn = Some i
  ∧ files w' = (if del then delete img (files w) else files w)
  ∧ ∃ d, partitions w' !! i = Some (set_data p d)
      ∧ take (length (take HEADER_SIZE content)) d = take HEADER_SIZE content.
Proof.
  intros Hparse Hfind Hp Hfile Hbs Hmain. unfold main in Hmain.
  destruct (main_steps_1_to_4 argv w) as [code w1|l w1|] eqn:E1; [| |done].
  - injection Hmain as -> ->.
    apply steps_1_to_4_exit_0 in E1
      as (Hargc & del' & pn' & img' & i' & content' & Hparse' & Hfind' & Hfile' & Hsame & ->).
    rewrite Hparse in Hparse'. injection Hparse' as <- <- <-.
    rewrite Hfind in Hfind'. injection Hfind' as <-.
    rewrite Hfile in Hfile'. injection Hfile' as <-.
    split; [done|].
    unfold header_is_the_same, mtd_read_partition, mtd_read_data in Hsame.
    rewrite Hp in Hsame. simpl in Hsame.
    destruct (ptn_readable p); [|done].
    case_bool_decide as Hnz; [done|].
    apply andb_true_iff in Hsame as [Hlen Hcmp].
    apply bool_decide_eq_true in Hlen. unfold memcmp_eq in Hcmp.
    apply bool_decide_eq_true in Hcmp.
    split.
    { intros ->. rewrite take_nil in Hlen. simpl in Hlen. lia. }
    split; [by destruct del|]. split; [by destruct del|].
    exists (ptn_data p). split; [destruct del; simpl; by rewrite set_data_id|].
    rewrite (take_ge (take HEADER_SIZE content)) in Hcmp by done.
    symmetry. etransitivity; [exact Hcmp|]. rewrite take_take. f_equal.
    rewrite length_take. lia.
  - pose proof (steps_1_to_4_argc _ _ _ _ E1) as Hargc.
    apply body_written in E1
      as (Hparse' & Hfind' & Hfile' & Hhdr & Hhl & Hsame & p0 & d & Hp0 & Hw1 & Hf1 & Hd).
    rewrite Hparse in Hparse'. injection Hparse' as -> -> ->.
    rewrite Hfind in Hfind'. injection Hfind' as ->.
    rewrite Hfile in Hfile'. injection Hfile' as ->.
    rewrite Hp in Hp0. injection Hp0 as <-.
    assert (Hi : partition l < length (partitions w)) by (by eapply lookup_lt_Some).
    assert (Hp1 : partitions w1 !! partition l = Some (set_data p d)).
    { rewrite Hw1. by apply list_lookup_insert_eq. }
    eapply header_written in Hmain as (n & Hn & Hw' & Hf'); [|exact Hp1|done..].
    simpl in Hw'. split; [done|].
    split. { intros Hnil. rewrite Hhdr, Hnil in Hhl. simpl in Hhl. lia. }
    split.
    { eapply (find_partition_set_data w1); [|exact Hp1|exact Hw'].
      by eapply find_partition_set_data. }
    split; [by rewrite Hf', Hf1|].
    eexists. split.
    { rewrite Hw', Hw1, list_insert_insert_eq. by apply list_lookup_insert_eq. }
    rewrite <- Hhdr. rewrite take_app_le by (rewrite length_take; lia).
    rewrite take_take, Nat.min_l by lia. rewrite Hhdr. apply take_length_take.
Qed.

(** X6 (what status 0 means).  When [main] exits with status 0, by either
    way, the partition starts with the header of the image (the first
    [HEADER_SIZE] bytes, or the whole image when it is shorter), and the
    image file is gone exactly when [-d] was given. *)
Theorem flash_exit_0_header argv w w' del pn img i p content :
  parse_args (drop 1 argv) false None None = (del, Some pn, Some img) →
  mtd_find_partition_by_name w pn = Some i →
  partitions w !! i = Some p →
  files w !! img = Some content →
  (Z.pos (erase_size p) < 2 ^ 31)%Z →
  main argv w = Exited 0 w' →
  ∃ p', partitions w' !! i = Some p'
    ∧ take (length (take HEADER_SIZE content)) (ptn_data p') = take HEADER_SIZE content
    ∧ (files w' !! img = None ↔ "-d"%string ∈ drop 1 argv).
Proof.
  intros Hparse Hfind Hp Hfile Hbs Hmain.
  destruct (exit_0_world _ _ _ _ _ _ _ _ _ Hparse Hfind Hp Hfile Hbs Hmain)
    as (_ & _ & _ & Hf' & d & Hp' & Hd).
  exists (set_data p d). split; [done|]. split; [done|].
  pose proof (parse_args_delete (drop 1 argv) false None None) as Hdel.
  rewrite Hparse in Hdel. simpl in Hdel. rewrite Hf', Hdel.
  case_bool_decide as Hd'; simpl.
  - by rewrite lookup_delete_eq.
  - rewrite Hfile. split; [done|]. intros ?. done.
Qed.

Lemma flash_exit_0_header_witness :
  ∃ p', partitions (world_of example_flashed (example_world [] [])) !! 0 = Some p'
    ∧ take 2048 (ptn_data p') = take 2048 example_image.
Proof.
  destruct (flash_exit_0_header example_argv
              (example_world (replicate 8192 x00) example_image)
              (world_of example_flashed (example_world [] []))
              false "boot" "/sdcard/boot.img" 0
              (example_partition (replicate 8192 x00)) example_image)
    as (p' & Hp' & Hhdr & _); try (vm_compute; reflexivity).
  exists p'. split; [exact Hp'|exact Hhdr].
Defined.

(** X7 (the invocation again).  After [main] has exited with status 0 for
    an image of at least [HEADER_SIZE] bytes and a partition that can be
    read, the same invocation changes nothing: without [-d] it finds the
    header to be the same and exits with status 0, and with [-d] it
    fails to open the image, which is gone, and exits with status 1. *)
Theorem flash_again argv w w' del pn img i p content :
  parse_args (drop 1 argv) false None None = (del, Some pn, Some img) →
  mtd_find_partition_by_name w pn = Some i →
  partitions w !! i = Some p →
  files w !! img = Some content →
  ptn_readable p = true →
  HEADER_SIZE ≤ length content →
  (Z.pos (erase_size p) < 2 ^ 31)%Z →
  main argv w = Exited 0 w' →
  main argv w' = if del then Exited 1 w' else Exited 0 w'.
Proof.
  intros Hparse Hfind Hp Hfile Hread Hlong Hbs Hmain.
  destruct (exit_0_world _ _ _ _ _ _ _ _ _ Hparse Hfind Hp Hfile Hbs Hmain)
    as (Hargc & Hne & Hfind' & Hf' & d & Hp' & Hd).
  destruct del.
  - eapply main_no_image; [done..|]. rewrite Hf'. apply lookup_delete_eq.
  - eapply (main_skip _ _ false); [done..| |done|].
    + by rewrite Hf'.
    + unfold header_is_the_same, mtd_read_partition, mtd_read_data.
      rewrite Hp'. cbn [mbind option_bind ptn_readable ptn_data set_data].
      rewrite Hread. change (ptn_data (set_data p d)) with d.
      assert (Hh : length (take HEADER_SIZE content) = HEADER_SIZE)
        by (rewrite length_take; lia).
      rewrite Hh in Hd. rewrite Hd, Hh.
      rewrite bool_decide_eq_false_2 by done.
      rewrite bool_decide_eq_true_2 by done.
      unfold memcmp_eq. by rewrite bool_decide_eq_true_2.
Qed.

Lemma flash_again_witness :
  main example_argv (world_of example_flashed (example_world [] []))
  = Exited 0 (world_of example_flashed (example_world [] [])).
Proof.
  apply (flash_again example_argv
           (example_world (replicate 8192 x00) example_image)
           (world_of example_flashed (example_world [] []))
           false "boot" "/sdcard/boot.img" 0
           (example_partition (replicate 8192 x00)) example_image);
    try (vm_compute; reflexivity).
  apply Nat.leb_le. vm_compute. reflexivity.
Defined.

(** What the partition holds after the two passes. *)
Lemma flash_contents argv w w' del pn img i p content :
  parse_args (drop 1 argv) false None None = (del, Some pn, Some img) →
  mtd_find_partition_by_name w pn = Some i →
  partitions w !! i = Some p →
  files w !! img = Some content →
  header_is_the_same w i (take HEADER_SIZE content) = false →
  (Z.pos (erase_size p) < 2 ^ 31)%Z →
  main argv w = Exited 0 w' →
  ∃ d, partitions w' !! i = Some (set_data p d)
    ∧ take (length content) d = content.
Proof.
  intros Hparse Hfind Hp Hfile Hnot Hbs Hmain.
  unfold main in Hmain.
  destruct (main_steps_1_to_4 argv w) as [code w1|l w1|] eqn:E1; [| |done].
  { injection Hmain as -> ->.
    apply steps_1_to_4_exit_0 in E1 as (_ & del' & pn' & img' & i' & content' & Hparse' & Hfind' & Hfile' & Hsame & _).
    rewrite Hparse in Hparse'. injection Hparse' as <- <- <-.
    rewrite Hfind in Hfind'. injection Hfind' as <-.
    rewrite Hfile in Hfile'. injection Hfile' as <-.
    congruence. }
  apply body_written in E1
    as (Hparse' & Hfind' & Hfile' & Hhdr & Hhl & _ & p0 & d & Hp0 & Hw1 & _ & Hd).
  rewrite Hparse in Hparse'. injection Hparse' as -> -> ->.
  rewrite Hfind in Hfind'. injection Hfind' as ->.
  rewrite Hfile in Hfile'. injection Hfile' as ->.
  rewrite Hp in Hp0. injection Hp0 as <-.
  assert (Hi : partition l < length (partitions w)) by (by eapply lookup_lt_Some).
  assert (Hp1 : partitions w1 !! partition l = Some (set_data p d)).
  { rewrite Hw1. by apply list_lookup_insert_eq. }
  eapply header_written in Hmain as (n & Hn & Hw' & _); [|exact Hp1|done..].
  simpl in Hw'.
  exists (take n (image l) ++ drop n d). split.
  - rewrite Hw', Hw1, list_insert_insert_eq. by apply list_lookup_insert_eq.
  - rewrite take_app_ge by (rewrite length_take; lia).
    rewrite length_take, Nat.min_l by lia.
    rewrite take_drop_commute.
    replace (n + (length (image l) - n)) with (length (image l)) by lia.
    rewrite Hd. rewrite drop_app_ge by (rewrite length_replicate; lia).
    rewrite length_replicate, drop_drop.
    replace (length (header l) + (n - length (header l))) with n by lia.
    apply take_drop.
Qed.

(** ** The blocks written *)

Lemma blocks_unique n bs k :
  0 < bs → n ≤ k * bs → k * bs < n + bs → blocks n bs = k.
Proof.
  intros Hbs Hle Hlt. unfold blocks. symmetry.
  apply (Nat.div_unique _ _ _ (n + bs - 1 - k * bs)); lia.
Qed.

Lemma blocks_pos n bs : 0 < bs → 0 < n → 0 < blocks n bs.
Proof.
  intros Hbs Hn. unfold blocks.
  apply Nat.div_str_pos. lia.
Qed.

Section block_count.
Variables (i : nat) (p0 : MtdPartition) (w0 : world).
Hypothesis Hp0 : partitions w0 !! i = Some p0.

Local Abbreviation session := (session i p0 w0).
Local Abbreviation counted := (counted p0 w0).

Lemma counted_open ctx :
  mtd_write_partition w0 i = Some ctx → counted ctx w0.
Proof.
  unfold mtd_write_partition, FlashImage.counted. rewrite Hp0. simpl.
  destruct (ptn_writable p0); [|done]. intros [= <-]. simpl. lia.
Qed.

Lemma counted_byte xs ctx w b ctx' w' :
  session xs ctx w → counted ctx w → write_byte ctx w b = Some (ctx', w') →
  counted ctx' w'.
Proof.
  intros Hs Hc. unfold write_byte, FlashImage.counted in *.
  rewrite (session_lookup _ _ _ Hp0 _ _ _ Hs). simpl.
  change (block_size_of (set_data p0 _)) with (block_size_of p0).
  case_decide as Hfull.
  - unfold write_block. rewrite (session_lookup _ _ _ Hp0 _ _ _ Hs). simpl.
    case_decide; [|done]. intros [= <- <-]. simpl. rewrite Hfull. lia.
  - intros [= <- <-]. simpl. done.
Qed.

Lemma counted_data ys : ∀ xs ctx w ctx' w',
  session xs ctx w → counted ctx w →
  mtd_write_data ctx w ys = (Some ctx', w') → counted ctx' w'.
Proof.
  induction ys as [|b ys IH]; simpl; intros xs ctx w ctx' w' Hs Hc.
  - by intros [= <- <-].
  - destruct (write_byte ctx w b) as [[ctx1 w1]|] eqn:E; [|done].
    eapply IH.
    + by eapply (session_byte _ _ _ Hp0).
    + by eapply counted_byte.
Qed.

Lemma counted_copy_body fuel : ∀ content off out w out' w' xs,
  session xs out w → counted out w →
  copy_body fuel content off out w = Some (Some out', w') → counted out' w'.
Proof.
  induction fuel as [|fuel IH]; simpl; intros content off out w out' w' xs Hs Hc; [done|].
  case_bool_decide.
  - destruct (mtd_write_data out w _) as [[out1|] w1] eqn:E; [|done].
    eapply IH.
    + by eapply (session_data _ _ _ Hp0).
    + by eapply counted_data.
  - by intros [= <- <-].
Qed.

Lemma counted_write_rest fuel : ∀ content off left_ out w out' w' xs,
  session xs out w → counted out w →
  write_rest_of_block fuel content off left_ out w = Some (Some out', w') →
  counted out' w'.
Proof.
  induction fuel as [|fuel IH]; simpl; intros content off left_ out w out' w' xs Hs Hc; [done|].
  case_bool_decide.
  - case_bool_decide; [done|].
    destruct (mtd_write_data out w _) as [[out1|] w1] eqn:E; [|done].
    eapply IH.
    + by eapply (session_data _ _ _ Hp0).
    + by eapply counted_data.
  - by intros [= <- <-].
Qed.

(** A session that is closed has written the blocks that its bytes take. *)
Lemma counted_close xs ctx w w' :
  session xs ctx w → counted ctx w → mtd_write_close ctx w = Some w' →
  block_writes w' = block_writes w0 + blocks (length xs) (block_size_of p0).
Proof.
  intros Hs Hc. unfold mtd_write_close, FlashImage.counted in *.
  pose proof (block_size_pos p0) as Hbs.
  pose proof (ses_pos _ _ _ _ _ _ Hs) as Hpos.
  pose proof (ses_short _ _ _ _ _ _ Hs) as Hshort.
  pose proof (ses_stored _ _ _ _ _ _ Hs) as Hst.
  assert (Hlen : length (wc_stored ctx) = length xs - wc_pos ctx).
  { by rewrite Hst, length_drop. }
  destruct (wc_stored ctx) as [|c st] eqn:Est.
  - intros [= <-]. simpl in Hlen.
    rewrite (blocks_unique _ _ (block_writes w - block_writes w0)); nia.
  - rewrite (session_lookup _ _ _ Hp0 _ _ _ Hs). simpl.
    unfold write_block. rewrite (session_lookup _ _ _ Hp0 _ _ _ Hs). simpl.
    case_decide; [|done]. simpl. intros [= <-]. simpl. simpl in Hlen.
    rewrite (blocks_unique _ _ (S (block_writes w) - block_writes w0)); nia.
Qed.

End block_count.

Lemma round_up_left_lt bs fuel : ∀ l l',
  (Z.pos bs < 2 ^ 31)%Z → (- 2 ^ 31 ≤ l < Z.pos bs)%Z →
  round_up_left fuel l bs = Some l' → (l' < Z.pos bs)%Z.
Proof.
  induction fuel as [|fuel IH]; simpl; intros l l' Hbs Hl; [done|].
  case_bool_decide as Hneg.
  - rewrite to_int_small by lia. intros Hr. apply IH in Hr; [done|done|lia].
  - intros [= <-]. lia.
Qed.

Lemma body_written_count argv w l w1 p0 :
  main_steps_1_to_4 argv w = BodyWritten l w1 →
  partitions w !! partition l = Some p0 →
  block_writes w1
  = block_writes w + blocks (length (image l)) (block_size_of p0).
Proof.
  intros H Ep0. unfold main_steps_1_to_4, die in H.
  case_bool_decide; [done|].
  destruct (parse_args _ _ _ _) as [[del [pn|]] [img|]] eqn:Eparse; try done.
  case_bool_decide; [done|].
  destruct (mtd_find_partition_by_name w pn) as [i|] eqn:Efind; [|done].
  destruct (files w !! img) as [content|] eqn:Efile; [|done].
  rewrite read_0 in H.
  case_bool_decide as Hhl; [done|].
  destruct (header_is_the_same _ _ _) eqn:Esame; [done|].
  destruct (mtd_write_partition w i) as [out|] eqn:Eopen; [|done].
  destruct (mtd_write_data out w _) as [[out1|] w1'] eqn:Ew1; [|done].
  destruct (copy_body _ _ _ _ _) as [[[out2|] w2]|] eqn:Ecopy; try done.
  destruct (mtd_write_close out2 w2) as [w3|] eqn:Eclose; [|done].
  injection H as <- <-. cbn [partition image] in *.
  pose proof (session_open _ p0 w Ep0 _ Eopen) as Hs.
  pose proof (counted_open _ p0 w Ep0 _ Eopen) as Hc.
  eapply (counted_data _ _ _ Ep0) in Hc; [|exact Hs|exact Ew1].
  eapply (session_data _ _ _ Ep0) in Hs; [|exact Ew1].
  eapply (counted_copy_body _ _ _ Ep0) in Hc; [|exact Hs|exact Ecopy].
  eapply (copy_body_session _ _ _ Ep0) in Hs; [|exact Ecopy].
  eapply (counted_close _ _ _ Ep0) in Hc; [|exact Hs|exact Eclose].
  rewrite Hc. do 2 f_equal. simpl.
  rewrite length_app, length_replicate, length_drop, length_take. lia.
Qed.

(** The second pass comes to its end only when the image holds the whole
    blocks that the header lies in; it writes these blocks. *)
Lemma header_written_count l w1 p1 w2 :
  partitions w1 !! partition l = Some p1 →
  (Z.pos (erase_size p1) < 2 ^ 31)%Z →
  header l = take HEADER_SIZE (image l) →
  0 < length (header l) →
  main_steps_5_to_7 l w1 = Exited 0 w2 →
  block_writes w2
  = block_writes w1 + blocks (length (header l)) (block_size_of p1)
  ∧ blocks (length (header l)) (block_size_of p1) * block_size_of p1
    ≤ length (image l).
Proof.
  intros Hp1 Hbs Hhdr Hhl H. unfold main_steps_5_to_7, die in H.
  destruct (mtd_write_partition w1 _) as [out|] eqn:Eopen; [|done].
  destruct (mtd_write_data out w1 _) as [[out1|] w1'] eqn:Ew1; [|done].
  pose proof (session_open _ p1 w1 Hp1 _ Eopen) as Hs.
  pose proof (counted_open _ p1 w1 Hp1 _ Eopen) as Hc.
  eapply (counted_data _ _ _ Hp1) in Hc; [|exact Hs|exact Ew1].
  eapply (session_data _ _ _ Hp1) in Hs; [|exact Ew1]. simpl in Hs.
  assert (Hinfo : mtd_partition_info w1' (partition l) = Some (erase_size p1)).
  { unfold mtd_partition_info. rewrite (ses_data _ _ _ _ _ _ Hs).
    rewrite list_lookup_insert_eq by (by eapply lookup_lt_Some). done. }
  rewrite Hinfo in H.
  assert (Hlen : length (header l) ≤ HEADER_SIZE).
  { rewrite Hhdr, length_take. lia. }
  unfold HEADER_SIZE in Hlen.
  rewrite to_int_small in H by lia.
  destruct (round_up_left _ _ _) as [left_|] eqn:Eround; [|done].
  assert (Hlt : (left_ < Z.pos (erase_size p1))%Z).
  { eapply round_up_left_lt; [exact Hbs| |exact Eround]. lia. }
  apply round_up_left_spec in Eround as [Hleft [k Hk]]; [|done|lia].
  destruct (write_rest_of_block _ _ _ _ _ _) as [[[out2|] w2']|] eqn:Erest; try done.
  destruct (mtd_write_close out2 w2') as [w3|] eqn:Eclose; [|done].
  eapply (counted_write_rest _ _ _ Hp1) in Hc; [|exact Hs|exact Erest].
  eapply (write_rest_session _ _ _ Hp1) in Erest as [Hs' Hroom]; [|exact Hs|done].
  eapply (counted_close _ _ _ Hp1) in Hc; [|exact Hs'|exact Eclose].
  rewrite length_drop in Hroom.
  assert (length (header l) ≤ length (image l))
    by (rewrite Hhdr, length_take; lia).
  assert (Hb : block_writes w2 = block_writes w3).
  { injection H as <-. by destruct (deleteImage l). }
  assert (Hk1 : blocks (length (header l)) (block_size_of p1) = S k)
    by (apply blocks_unique; unfold block_size_of; lia).
  rewrite Hb, Hc, Hk1. split.
  - f_equal.
    rewrite length_app, length_take, length_drop, Nat.min_l by lia.
    apply blocks_unique; unfold block_size_of; lia.
  - unfold block_size_of. lia.
Qed.

(** The blocks written by the two passes. *)
Lemma main_block_writes argv w w' del pn img i p content :
  parse_args (drop 1 argv) false None None = (del, Some pn, Some img) →
  mtd_find_partition_by_name w pn = Some i →
  partitions w !! i = Some p →
  files w !! img = Some content →
  header_is_the_same w i (take HEADER_SIZE content) = false →
  (Z.pos (erase_size p) < 2 ^ 31)%Z →
  main argv w = Exited 0 w' →
  block_writes w'
  = block_writes w + blocks (length content) (block_size_of p)
    + blocks (length (take HEADER_SIZE content)) (block_size_of p)
  ∧ 0 < length content
  ∧ blocks (length (take HEADER_SIZE content)) (block_size_of p) * block_size_of p
    ≤ length content.
Proof.
  intros Hparse Hfind Hp Hfile Hnot Hbs Hmain.
  unfold main in Hmain.
  destruct (main_steps_1_to_4 argv w) as [code w1|l w1|] eqn:E1; [| |done].
  { injection Hmain as -> ->.
    apply steps_1_to_4_exit_0 in E1 as (_ & del' & pn' & img' & i' & content' & Hparse' & Hfind' & Hfile' & Hsame & _).
    rewrite Hparse in Hparse'. injection Hparse' as <- <- <-.
    rewrite Hfind in Hfind'. injection Hfind' as <-.
    rewrite Hfile in Hfile'. injection Hfile' as <-.
    congruence. }
  pose proof (λ p0, body_written_count _ _ _ _ p0 E1) as Hcount.
  apply body_written in E1
    as (Hparse' & Hfind' & Hfile' & Hhdr & Hhl & _ & p0 & d & Hp0 & Hw1 & _ & Hd).
  rewrite Hparse in Hparse'. injection Hparse' as -> -> ->.
  rewrite Hfind in Hfind'. injection Hfind' as ->.
  rewrite Hfile in Hfile'. injection Hfile' as ->.
  rewrite Hp in Hp0. injection Hp0 as <-.
  assert (Hp1 : partitions w1 !! partition l = Some (set_data p d)).
  { rewrite Hw1. apply list_lookup_insert_eq. by eapply lookup_lt_Some. }
  eapply header_written_count in Hmain as [Hmain Hblk]; [|exact Hp1|done..].
  change (block_size_of (set_data p d)) with (block_size_of p) in *.
  rewrite Hmain, (Hcount _ Hp), Hhdr in *. split; [done|]. split; [|done].
  rewrite length_take in Hhl. lia.
Qed.

(** X8 (a partition that cannot be read).  When the partition cannot be
    opened for reading, [main] takes it to need writing: if it exits with
    status 0 it has written blocks, even where the partition held the image
    before, and the partition then holds the image. *)
Theorem flash_unreadable_partition argv w w' del pn img i p content :
  parse_args (drop 1 argv) false None None = (del, Some pn, Some img) →
  mtd_find_partition_by_name w pn = Some i →
  partitions w !! i = Some p →
  files w !! img = Some content →
  ptn_readable p = false →
  (Z.pos (erase_size p) < 2 ^ 31)%Z →
  main argv w = Exited 0 w' →
  block_writes w < block_writes w'
  ∧ ∃ d, partitions w' !! i = Some (set_data p d)
      ∧ take (length content) d = content.
Proof.
  intros Hparse Hfind Hp Hfile Hread Hbs Hmain.
  assert (Hnot : header_is_the_same w i (take HEADER_SIZE content) = false).
  { unfold header_is_the_same, mtd_read_partition. rewrite Hp. simpl. by rewrite Hread. }
  split; [|by eapply flash_contents].
  destruct (main_block_writes _ _ _ _ _ _ _ _ _ Hparse Hfind Hp Hfile Hnot Hbs Hmain)
    as (-> & Hpos & _).
  pose proof (blocks_pos (length content) (block_size_of p)
                ltac:(unfold block_size_of; lia) Hpos). lia.
Qed.

Lemma flash_unreadable_partition_witness :
  0 < block_writes (world_of unreadable_flashed (example_world [] []))
  ∧ ∃ d, partitions (world_of unreadable_flashed (example_world [] [])) !! 0
         = Some (set_data {| ptn_name := "boot"; erase_size := 2048;
                             ptn_data := example_image ++ replicate 3192 x00;
                             ptn_readable := false; ptn_writable := true |} d)
      ∧ take 5000 d = example_image.
Proof.
  apply (flash_unreadable_partition example_argv unreadable_world
           (world_of unreadable_flashed (example_world [] []))
           false "boot" "/sdcard/boot.img" 0
           {| ptn_name := "boot"; erase_size := 2048;
              ptn_data := example_image ++ replicate 3192 x00;
              ptn_readable := false; ptn_writable := true |} example_image);
    vm_compute; reflexivity.
Defined.

(** X9 (an image shorter than a block).  The second pass writes the whole
    first block from the image: when the image is shorter than a block of
    the partition and the header is not found to be the same, [main]
    exits with status 1 (it cannot read the rest of the block), and the
    image file is kept. *)
Theorem flash_image_shorter_than_block argv w del pn img i p content :
  3 ≤ length argv ≤ 4 →
  parse_args (drop 1 argv) false None None = (del, Some pn, Some img) →
  mtd_find_partition_by_name w pn = Some i →
  partitions w !! i = Some p →
  files w !! img = Some content →
  header_is_the_same w i (take HEADER_SIZE content) = false →
  Forall (λ p, (Z.pos (erase_size p) < 2 ^ 31)%Z) (partitions w) →
  length content < block_size_of p →
  ∃ w', main argv w = Exited 1 w' ∧ files w' = files w.
Proof.
  intros Hargc Hparse Hfind Hp Hfile Hsame Hsizes Hshort.
  assert (Hbs : (Z.pos (erase_size p) < 2 ^ 31)%Z).
  { rewrite Forall_forall in Hsizes. apply Hsizes. by eapply list_elem_of_lookup_2. }
  pose proof (main_terminates argv w Hsizes) as Hterm.
  pose proof (main_exit_code argv w) as Hc.
  destruct (main argv w) as [c w'|l w'|] eqn:Hmain; [|done|done].
  exists w'.
  assert (Hc1 : c = 1%Z).
  { destruct Hc as [->|[->| ->]]; [|done|].
    - exfalso.
      destruct (main_block_writes _ _ _ _ _ _ _ _ _ Hparse Hfind Hp Hfile Hsame Hbs Hmain)
        as (_ & Hpos & Hblk).
      assert (0 < blocks (length (take HEADER_SIZE content)) (block_size_of p)).
      { apply blocks_pos; [unfold block_size_of; lia|].
        rewrite length_take. unfold HEADER_SIZE. lia. }
      nia.
    - exfalso. apply main_exit_2 in Hmain as [_ [?|[?|Hplain]]]; [lia..|].
      rewrite parse_args_plain in Hparse. injection Hparse as _ Hpn Himg.
      destruct (plain_args (drop 1 argv)) as [|? [|? ?]]; simpl in *; try done; lia. }
  subst c. split; [done|].
  by apply main_frame in Hmain as [_ [[_ ?]|[? _]]].
Qed.

Lemma flash_image_shorter_than_block_witness :
  ∃ w', main example_argv large_block_world = Exited 1 w'
        ∧ files w' = files large_block_world.
Proof.
  apply (flash_image_shorter_than_block example_argv large_block_world
           false "boot" "/sdcard/boot.img" 0
           {| ptn_name := "boot"; erase_size := 8192;
              ptn_data := replicate 16384 xff;
              ptn_readable := true; ptn_writable := true |} example_image).
  - vm_compute. lia.
  - reflexivity.
  - reflexivity.
  - reflexivity.
  - reflexivity.
  - vm_compute. reflexivity.
  - repeat constructor.
  - apply Nat.ltb_lt. vm_compute. reflexivity.
Defined.

(** X10 (the blocks written).  When the header is not found to be the same
    and [main] exits with status 0, it has written the blocks that the
    image takes, and then once more the block (or blocks) that the header
    lies in; the image is at least as long as these. *)
Theorem flash_block_writes argv w w' del pn img i p content :
  parse_args (drop 1 argv) false None None = (del, Some pn, Some img) →
  mtd_find_partition_by_name w pn = Some i →
  partitions w !! i = Some p →
  files w !! img = Some content →
  header_is_the_same w i (take HEADER_SIZE content) = false →
  (Z.pos (erase_size p) < 2 ^ 31)%Z →
  main argv w = Exited 0 w' →
  block_writes w'
  = block_writes w + blocks (length content) (block_size_of p)
    + blocks (length (take HEADER_SIZE content)) (block_size_of p)
  ∧ blocks (length (take HEADER_SIZE content)) (block_size_of p) * block_size_of p
    ≤ length content.
Proof.
  intros Hparse Hfind Hp Hfile Hnot Hbs Hmain.
  by destruct (main_block_writes _ _ _ _ _ _ _ _ _ Hparse Hfind Hp Hfile Hnot Hbs Hmain)
    as (? & _ & ?).
Qed.

Lemma flash_block_writes_witness :
  block_writes (world_of example_flashed (example_world [] [])) = 4.
Proof.
  destruct (flash_block_writes example_argv
              (example_world (replicate 8192 x00) example_image)
              (world_of example_flashed (example_world [] []))
              false "boot" "/sdcard/boot.img" 0
              (example_partition (replicate 8192 x00)) example_image)
    as [Hw _]; [vm_compute; reflexivity ..|].
  rewrite Hw. vm_compute. reflexivity.
Defined.

(** ** The arguments of [main] *)

(** [main] looks at its arguments through [parse_args] only. *)
Lemma main_same_arguments argv argv' w :
  (3 ≤ length argv ≤ 4 ↔ 3 ≤ length argv' ≤ 4) →
  parse_args (drop 1 argv) false None None
  = parse_args (drop 1 argv') false None None →
  main argv w = main argv' w.
Proof.
  intros Hargc Hparse. unfold main, main_steps_1_to_4. rewrite <- Hparse.
  destruct (decide (3 ≤ length argv ≤ 4)) as [Hin|Hout].
  - rewrite !(bool_decide_eq_false_2 (_ ∨ _)) by lia. done.
  - rewrite !(bool_decide_eq_true_2 (_ ∨ _)) by lia. done.
Qed.

(** X24 (the order of the arguments).  [main] does not look at the name
    of the program; the option [-d] may stand before, between or after
    the two other arguments; and of three arguments other than [-d] the
    one in the middle is ignored: the first names the partition, the last
    the image. *)
Theorem flash_argument_order prog prog' a b c w :
  a ≠ "-d"%string → b ≠ "-d"%string → c ≠ "-d"%string →
  main [prog; "-d"; a; b]%string w = main [prog'; a; b; "-d"]%string w
  ∧ main [prog; a; "-d"; b]%string w = main [prog'; a; b; "-d"]%string w
  ∧ main [prog; a; c; b] w = main [prog'; a; b] w.
Proof.
  intros Ha Hb Hc.
  assert (Ha' := proj2 (String.eqb_neq a "-d") Ha).
  assert (Hb' := proj2 (String.eqb_neq b "-d") Hb).
  assert (Hc' := proj2 (String.eqb_neq c "-d") Hc).
  split_and!; apply main_same_arguments; try (simpl; lia);
    cbn [drop parse_args]; rewrite ?Ha', ?Hb', ?Hc'; cbn [String.eqb Ascii.eqb Bool.eqb];
    rewrite ?Ha', ?Hb', ?Hc'; done.
Qed.

Lemma flash_argument_order_witness :
  main ["flash_image"; "boot"; "recovery"; "/sdcard/boot.img"]%string
    (example_world (replicate 8192 x00) example_image)
  = main example_argv (example_world (replicate 8192 x00) example_image).
Proof.
  destruct (flash_argument_order "flash_image" "flash_image" "boot"
              "/sdcard/boot.img" "recovery"
              (example_world (replicate 8192 x00) example_image)) as (_ & _ & Hmid).
  - discriminate.
  - discriminate.
  - discriminate.
  - exact Hmid.
Defined.

End FlashImageProofs.

(* ===================================================================== *)
(** * Part IV: properties of recovery.c                                   *)
(* ===================================================================== *)

Module RecoveryProofs.
Import Recovery.

(** ** C strings *)

Lemma cstr_nul_free s : Forall (λ c, c ≠ NUL) (cstr s).
Proof.
  induction s as [|c s IH]; simpl; [constructor|].
  case_bool_decide; [constructor|]. by constructor.
Qed.

Lemma cstr_of_nul_free s : Forall (λ c, c ≠ NUL) s → cstr s = s.
Proof.
  induction 1 as [|c s Hc _ IH]; simpl; [done|].
  rewrite bool_decide_eq_false_2 by done. by rewrite IH.
Qed.

Lemma cstr_idemp s : cstr (cstr s) = cstr s.
Proof. apply cstr_of_nul_free, cstr_nul_free. Qed.

Lemma cstr_app_nul a r : Forall (λ c, c ≠ NUL) a → cstr (a ++ NUL :: r) = a.
Proof.
  induction 1 as [|c s Hc _ IH]; cbn [cstr app].
  - by rewrite bool_decide_eq_true_2.
  - rewrite bool_decide_eq_false_2 by done. by rewrite IH.
Qed.

Lemma cstr_length s : length (cstr s) ≤ length s.
Proof.
  induction s as [|c s IH]; simpl; [done|].
  case_bool_decide; simpl; lia.
Qed.

Lemma cstr_prefix s : take (length (cstr s)) s = cstr s.
Proof.
  induction s as [|c s IH]; simpl; [done|].
  case_bool_decide; simpl; [done|]. by rewrite IH.
Qed.

Lemma cstr_replicate_nul n : cstr (replicate n NUL) = [].
Proof. destruct n; cbn [cstr replicate]; [done|]. by rewrite bool_decide_eq_true_2. Qed.

Lemma take_nul_free n s :
  Forall (λ c, c ≠ NUL) s → Forall (λ c : ascii, c ≠ NUL) (take n s).
Proof. apply Forall_take. Qed.

Lemma take_take_app {A} n (x y : list A) :
  take n (take n x ++ y) = take n (x ++ y).
Proof.
  destruct (decide (n ≤ length x)).
  - rewrite !take_app_le by (rewrite ?length_take; lia). by rewrite take_take, Nat.min_id.
  - by rewrite (take_ge x) by lia.
Qed.

Lemma strlcpy_length dst src size :
  length dst = size → length (strlcpy dst src size) = size.
Proof.
  intros Hl. unfold strlcpy. destruct size as [|n]; [done|].
  pose proof (cstr_length src).
  rewrite !length_app, length_drop, length_take. simpl. lia.
Qed.

Lemma strlcpy_cstr dst src size :
  length dst = size →
  cstr (strlcpy dst src size) = take (size - 1) (cstr src).
Proof.
  intros Hl. unfold strlcpy. destruct size as [|n].
  - destruct dst; [|done]. by rewrite take_0.
  - simpl. rewrite Nat.sub_0_r. apply cstr_app_nul, take_nul_free, cstr_nul_free.
Qed.

Lemma strlcpy_terminated dst src size :
  length dst = size → terminated size (strlcpy dst src size).
Proof.
  intros Hl. split; [by apply strlcpy_length|].
  destruct size as [|n]; [by left|right].
  rewrite strlcpy_cstr by done. rewrite length_take. simpl. lia.
Qed.

Lemma strlcat_spec dst src size :
  terminated size dst →
  terminated size (strlcat dst src size)
  ∧ cstr (strlcat dst src size) = take (size - 1) (cstr dst ++ cstr src).
Proof.
  intros [Hl Ht]. unfold strlcat.
  rewrite (take_ge dst) by lia.
  destruct Ht as [->|Ht].
  { destruct dst; [|done]. simpl. split; [split; [done|by left]|done]. }
  rewrite bool_decide_eq_false_2 by lia.
  set (s := take (size - length (cstr dst) - 1) (cstr src)).
  assert (Hs : length s ≤ size - length (cstr dst) - 1).
  { unfold s. rewrite length_take. lia. }
  rewrite cstr_prefix.
  assert (Hc : cstr (cstr dst ++ s ++ [NUL] ++ drop (length (cstr dst) + length s + 1) dst)
               = cstr dst ++ s).
  { rewrite app_assoc. apply cstr_app_nul.
    apply Forall_app. split; [apply cstr_nul_free|apply take_nul_free, cstr_nul_free]. }
  split; [split|].
  - rewrite !length_app, length_drop. simpl. lia.
  - right. rewrite Hc, length_app. lia.
  - rewrite Hc. rewrite take_app_ge by lia. unfold s. do 2 f_equal. lia.
Qed.


Lemma strtok_length buf pos delim : length (strtok buf pos delim).1.2 = length buf.
Proof.
  unfold strtok. destruct (drop _ (cstr _)); [done|].
  case_bool_decide; simpl; [apply length_insert|done].
Qed.

Lemma forget_add_log e st : forget_log (add_log e st) = forget_log st.
Proof. done. Qed.

Lemma fopen_r_forget path st fp st' :
  fopen path "r" st = (fp, st') → st' = st.
Proof.
  unfold fopen. simpl. destruct (fs st !! path); by intros [= _ <-].
Qed.

Lemma fopen_root_path_r_forget root_path st fp st' :
  fopen_root_path root_path "r" st = (fp, st') →
  forget_log st' = forget_log st.
Proof.
  unfold fopen_root_path. case_bool_decide; [by intros [= _ <-]|].
  destruct (translate_root_path root_path); [|by intros [= _ <-]].
  by intros ->%fopen_r_forget.
Qed.

Section with_layout.
Context `{layout}.

Lemma zero_message_in_struct : in_struct zero_message.
Proof. unfold in_struct, zero_message. simpl. by rewrite !length_replicate. Qed.

Lemma in_layout_in_struct b : in_struct (in_layout b).
Proof. unfold in_struct, in_layout. simpl. by rewrite !length_resize. Qed.

Lemma in_layout_id b : in_struct b → in_layout b = b.
Proof.
  intros (Hc & Hs & Hr). destruct b as [c s r]. unfold in_layout. simpl in *.
  by rewrite !resize_all_alt.
Qed.

Lemma get_bootloader_message_spec st r boot st' :
  get_bootloader_message zero_message st = (r, boot, st') →
  in_struct boot ∧ forget_log st' = forget_log st.
Proof.
  unfold get_bootloader_message. destruct (misc_read_ok st); intros [= <- <- <-].
  - split; [apply in_layout_in_struct|done].
  - split; [apply zero_message_in_struct|done].
Qed.

Lemma boot_message_args_length n : ∀ buf pos,
  length (boot_message_args n buf pos).1.2 = length buf.
Proof.
  induction n as [|n IH]; intros buf pos; simpl; [done|].
  pose proof (strtok_length buf pos [LF]) as Hl.
  destruct (strtok buf pos [LF]) as [[[a|] buf1] pos1]; simpl in *; [|done].
  specialize (IH buf1 pos1).
  destruct (boot_message_args n buf1 pos1) as [[args buf2] pos2]. simpl in *. lia.
Qed.

Lemma args_from_boot_message_spec boot argv st argv' boot' st' :
  args_from_boot_message boot argv st = (argv', boot', st') →
  command boot' = command boot
  ∧ status boot' = status boot
  ∧ length (recovery boot') = length (recovery boot)
  ∧ forget_log st' = forget_log st.
Proof.
  unfold args_from_boot_message. case_bool_decide; [|by intros [= <- <- <-]].
  pose proof (strtok_length (<[recovery_size - 1:=NUL]> (recovery boot)) 0 [LF]) as Hl.
  rewrite length_insert in Hl.
  destruct (strtok _ 0 [LF]) as [[arg rec] pos]. simpl in Hl.
  assert (Hbad : forget_log (if not_blank rec
                             then add_log (LOGE "Bad boot message\n%.20s\n") st
                             else st) = forget_log st) by (by destruct (not_blank rec)).
  destruct arg as [a|]; [|by intros [= <- <- <-]].
  destruct (strcmp_eq a (str "recovery")); [|by intros [= <- <- <-]].
  pose proof (boot_message_args_length (MAX_ARGS - 1) rec pos) as Hl'.
  destruct (boot_message_args _ rec pos) as [[args rec'] pos']. simpl in Hl'.
  intros [= <- <- <-]. simpl. repeat split. lia.
Qed.

Lemma args_from_command_file_spec argv st argv' st' :
  args_from_command_file argv st = Returned (argv', st') →
  forget_log st' = forget_log st.
Proof.
  unfold args_from_command_file. case_bool_decide; [|by intros [= _ <-]].
  destruct (fopen_root_path COMMAND_FILE "r" st) as [[fp|] st1] eqn:E;
    apply fopen_root_path_r_forget in E.
  - destruct (command_file_args _ _ _); [|done]. by intros [= _ <-].
  - by intros [= _ <-].
Qed.

Lemma append_args_spec args : ∀ rec rec',
  terminated recovery_size rec →
  append_args args rec = Returned rec' →
  ∃ ss, args = Some <$> ss
    ∧ terminated recovery_size rec'
    ∧ cstr rec' = take (recovery_size - 1)
                    (cstr rec ++ concat ((λ a, cstr a ++ [LF]) <$> ss)).
Proof.
  induction args as [|[a|] args IH]; intros rec rec' Ht; simpl; [| |done].
  - intros [= <-]. exists []. split; [done|]. split; [done|].
    simpl. rewrite app_nil_r, take_ge; [done|].
    pose proof (cstr_length rec). destruct Ht as [Hl [Hz|Hlt]]; lia.
  - intros Ha.
    destruct (strlcat_spec rec a recovery_size Ht) as [Ht1 Hc1].
    destruct (strlcat_spec _ [LF] recovery_size Ht1) as [Ht2 Hc2].
    apply IH in Ha as (ss & -> & Ht' & Hc'); [|done].
    exists (a :: ss). split; [done|]. split; [done|].
    rewrite Hc', Hc2, Hc1.
    assert (cstr [LF] = [LF]) as -> by done.
    rewrite take_take_app, <- (app_assoc (take _ _)), take_take_app.
    rewrite fmap_cons. cbn [concat]. by rewrite <- !app_assoc.
Qed.


Lemma forget_log_fields st st' :
  forget_log st' = forget_log st →
  misc st' = misc st ∧ misc_read_ok st' = misc_read_ok st
  ∧ misc_write_ok st' = misc_write_ok st ∧ fs st' = fs st
  ∧ mountable st' = mountable st ∧ tmplog_offset st' = tmplog_offset st.
Proof. intros [=]. done. Qed.

Lemma write_back_args_spec boot argv st argv' st' :
  in_struct boot →
  write_back_args boot argv st = Returned (argv', st') →
  argv' = argv
  ∧ misc_read_ok st' = misc_read_ok st
  ∧ fs st' = fs st
  ∧ ∃ args b,
      drop 1 argv = Some <$> args
      ∧ in_struct b
      ∧ cstr (command b) = take (command_size - 1) (str "boot-recovery")
      ∧ cstr (recovery b)
        = take (recovery_size - 1)
            (str "recovery" ++ [LF] ++ concat ((λ a, cstr a ++ [LF]) <$> args))
      ∧ set_bootloader_message b st = (if misc_write_ok st then 0%Z else (-1)%Z, st').
Proof.
  intros (Hc & Hs & Hr). unfold write_back_args.
  destruct (append_args _ _) as [rec|] eqn:Ea; [|done].
  apply append_args_spec in Ea as (args & Hargs & Ht & Hcs);
    [|by apply strlcpy_terminated].
  set (b := {| command := strlcpy (command boot) (str "boot-recovery") command_size;
               status := status boot; recovery := rec |}).
  destruct (set_bootloader_message b st) as [r st1] eqn:Eset.
  intros [= <- <-]. split; [done|].
  assert (Hflags : misc_read_ok st1 = misc_read_ok st ∧ fs st1 = fs st
                   ∧ r = if misc_write_ok st then 0%Z else (-1)%Z).
  { unfold set_bootloader_message in Eset.
    destruct (misc_write_ok st); by injection Eset as <- <-. }
  destruct Hflags as (? & ? & ->). do 2 (split; [done|]).
  exists args, b. split; [done|]. split; [|split; [|split]]; simpl.
  - split; [by apply strlcpy_length|]. split; [done|]. apply Ht.
  - by rewrite strlcpy_cstr.
  - rewrite Hcs, strlcpy_cstr by done.
    assert (cstr (str "recovery" ++ [LF]) = str "recovery" ++ [LF]) as -> by done.
    rewrite take_take_app. by rewrite <- app_assoc.
  - done.
Qed.

(** C2 (round trip).  Whenever [get_args] returns, and the control block
    can be written, the control block holds the command [boot-recovery]
    and, in its recovery field, [recovery] and the resolved arguments
    [argv[1..]], each followed by a newline, cut to the capacity of the
    field; reading the control block back yields that record. *)
Theorem get_args_writes_control_block argv st argv' st' :
  misc_write_ok st = true →
  get_args argv st = Returned (argv', st') →
  ∃ args,
    drop 1 argv' = Some <$> args
    ∧ cstr (command (misc st')) = take (command_size - 1) (str "boot-recovery")
    ∧ cstr (recovery (misc st'))
      = take (recovery_size - 1)
          (str "recovery" ++ [LF] ++ concat ((λ a, cstr a ++ [LF]) <$> args))
    ∧ (misc_read_ok st = true →
       get_bootloader_message zero_message st' = (0%Z, misc st', st')).
Proof.
  intros Hw. unfold get_args.
  destruct (get_bootloader_message zero_message st) as [[r boot] st1] eqn:Eget.
  apply get_bootloader_message_spec in Eget as [Hboot Hst1].
  set (st2 := if not_blank (command boot) then _ else st1).
  set (st3 := if not_blank (status boot) then _ else st2).
  assert (Hst3 : forget_log st3 = forget_log st).
  { unfold st3, st2. by destruct (not_blank (command boot)), (not_blank (status boot)). }
  clearbody st3. clear st2.
  destruct (args_from_boot_message boot argv st3) as [[argv1 boot1] st4] eqn:Eboot.
  apply args_from_boot_message_spec in Eboot as (Hc & Hs & Hr & Hst4).
  destruct (args_from_command_file argv1 st4) as [[argv2 st5]|] eqn:Efile; [|done].
  apply args_from_command_file_spec in Efile as Hst5.
  assert (Hboot1 : in_struct boot1).
  { destruct Hboot as (? & ? & ?). unfold in_struct. rewrite Hc, Hs, Hr. done. }
  intros Hwb. apply write_back_args_spec in Hwb
    as (-> & Hread & _ & args & b & Hargs & Hb & Hcmd & Hrec & Hset); [|done].
  assert (Hst5' : forget_log st5 = forget_log st) by congruence.
  apply forget_log_fields in Hst5' as (_ & Hr5 & Hw5 & _).
  unfold set_bootloader_message in Hset. rewrite Hw5, Hw in Hset.
  injection Hset as <-.
  assert (Hm : misc (set_misc (in_layout b) st5) = b)
    by (by rewrite <- (in_layout_id b) at 2).
  rewrite Hm.
  exists args. do 3 (split; [done|]).
  intros Hrd. unfold get_bootloader_message.
  rewrite Hread, Hr5, Hrd, Hm. by rewrite in_layout_id.
Qed.

(** C3 (argument precedence).  When the process has arguments beyond the
    program name, [get_args] returns them as they are, whatever the
    control block and the command file hold; the files are not changed. *)
Theorem get_args_process_arguments argv st :
  1 < length argv →
  Forall is_Some (drop 1 argv) →
  ∃ st', get_args argv st = Returned (argv, st') ∧ fs st' = fs st.
Proof.
  intros Hargc Hsome. unfold get_args.
  destruct (get_bootloader_message zero_message st) as [[r boot] st1] eqn:Eget.
  apply get_bootloader_message_spec in Eget as [Hboot Hst1].
  set (st2 := if not_blank (command boot) then _ else st1).
  set (st3 := if not_blank (status boot) then _ else st2).
  assert (Hst3 : forget_log st3 = forget_log st).
  { unfold st3, st2. by destruct (not_blank (command boot)), (not_blank (status boot)). }
  clearbody st3. clear st2.
  unfold args_from_boot_message, args_from_command_file.
  rewrite !bool_decide_eq_false_2 by lia.
  unfold write_back_args.
  destruct Hboot as (Hc & Hs & Hr).
  assert (Happ : ∀ args rec, Forall is_Some args → ∃ rec', append_args args rec = Returned rec').
  { clear. induction args as [|a args IH]; intros rec Hall; simpl; [by eexists|].
    inversion Hall as [|? ? [a' ->] Hall']; subst. by apply IH. }
  destruct (Happ (drop 1 argv) (strlcpy (recovery boot) (str "recovery" ++ [LF]) recovery_size) Hsome)
    as [rec' ->].
  apply forget_log_fields in Hst3 as (_ & _ & _ & Hfs & _).
  unfold set_bootloader_message. destruct (misc_write_ok st3); eexists; (split; [done|]); done.
Qed.


Lemma not_blank_replicate_nul n : not_blank (replicate n NUL) = false.
Proof. by destruct n. Qed.

Lemma not_blank_zero_command : not_blank (command zero_message) = false.
Proof. apply not_blank_replicate_nul. Qed.

Lemma not_blank_zero_status : not_blank (status zero_message) = false.
Proof. apply not_blank_replicate_nul. Qed.

Lemma strtok_replicate_nul n delim :
  strtok (replicate n NUL) 0 delim = (None, replicate n NUL, 0).
Proof. unfold strtok. rewrite drop_0, cstr_replicate_nul. done. Qed.

(** An all-zero record holds no arguments. *)
Lemma args_from_boot_message_zero argv st :
  args_from_boot_message zero_message argv st = (argv, zero_message, st).
Proof.
  unfold args_from_boot_message. case_bool_decide; [|done].
  assert (<[recovery_size - 1:=NUL]> (recovery zero_message) = replicate recovery_size NUL) as ->.
  { unfold zero_message. simpl. apply list_eq. intros i.
    destruct (decide (i = recovery_size - 1)) as [->|].
    - destruct (decide (recovery_size - 1 < recovery_size)).
      + rewrite list_lookup_insert_eq by (by rewrite length_replicate).
        symmetry. by apply lookup_replicate_2.
      + by rewrite list_insert_ge by (rewrite length_replicate; lia).
    - by rewrite list_lookup_insert_ne. }
  rewrite strtok_replicate_nul, not_blank_replicate_nul. done.
Qed.

(** C9 (control-block read failure).  When the control block cannot be
    read, the read returns an error, logs a warning and leaves the zeroed
    record of the caller as it is; [get_args] goes on with that record:
    the control block supplies no argument, and the outcome is that of the
    command-file source followed by the write-back. *)
Theorem get_args_survives_read_failure argv st :
  misc_read_ok st = false →
  get_bootloader_message zero_message st
  = ((-1)%Z, zero_message, add_log (LOGW "Can't read bootloader message\n") st)
  ∧ args_from_boot_message zero_message argv
      (add_log (LOGW "Can't read bootloader message\n") st)
    = (argv, zero_message, add_log (LOGW "Can't read bootloader message\n") st)
  ∧ get_args argv st
    = match args_from_command_file argv
              (add_log (LOGW "Can't read bootloader message\n") st) with
      | Returned (argv', st') => write_back_args zero_message argv' st'
      | NullDeref => NullDeref
      end.
Proof.
  intros Hr.
  assert (Hget : get_bootloader_message zero_message st
                 = ((-1)%Z, zero_message,
                    add_log (LOGW "Can't read bootloader message\n") st)).
  { unfold get_bootloader_message. by rewrite Hr. }
  split; [done|]. split; [apply args_from_boot_message_zero|].
  unfold get_args. rewrite Hget.
  rewrite not_blank_zero_command, not_blank_zero_status.
  by rewrite args_from_boot_message_zero.
Qed.

Lemma strspn_all s delim : Forall (λ c, c ∈ delim) s → strspn s delim = length s.
Proof.
  induction 1 as [|c s Hc _ IH]; simpl; [done|].
  rewrite bool_decide_eq_true_2 by done. by rewrite IH.
Qed.

(** [strtok] finds no token in a string of delimiters. *)
Lemma strtok_all_delims line delim :
  Forall (λ c, c ∈ delim) line → NUL ∉ delim →
  (strtok line 0 delim).1.1 = None.
Proof.
  intros Hall Hnul. unfold strtok. rewrite drop_0.
  rewrite cstr_of_nul_free.
  2:{ eapply Forall_impl; [exact Hall|]. intros c Hc ->. done. }
  rewrite strspn_all by done. by rewrite drop_all.
Qed.

Lemma command_file_args_blank n content line off :
  fgets MAX_ARG_LENGTH content 0 = Some (line, off) →
  (strtok line 0 [CR; LF]).1.1 = None →
  command_file_args (S n) content 0 = NullDeref.
Proof.
  intros Hgets Htok. cbn [command_file_args]. rewrite Hgets.
  destruct (strtok line 0 [CR; LF]) as [[[tok|] ?] ?]; done.
Qed.

Lemma fopen_command_file st content :
  "CACHE:"%string ∈ mountable st →
  fs st !! "/cache/recovery/command"%string = Some content →
  fopen_root_path COMMAND_FILE "r" st = (Some "/cache/recovery/command"%string, st).
Proof.
  intros Hm Hf. unfold fopen_root_path, ensure_root_path_mounted.
  change (split_root_path COMMAND_FILE)
    with (Some ("CACHE:"%string, "recovery/command"%string)).
  cbn beta iota. rewrite (bool_decide_eq_true_2 _ Hm).
  rewrite bool_decide_eq_false_2 by (by intros ?).
  change (translate_root_path COMMAND_FILE) with (Some "/cache/recovery/command"%string).
  cbn beta iota. unfold fopen. simpl. by rewrite Hf.
Qed.

(** C10 (blank line in the command file).  With no arguments from the
    process and an all-default control block, a command file whose first
    line consists of CR and LF characters only makes [get_args]
    dereference a null pointer: [strtok] returns [NULL], which goes to
    [strdup]. *)
Theorem get_args_blank_line_null_deref argv st content line off :
  length argv ≤ 1 →
  misc st = zero_message →
  "CACHE:"%string ∈ mountable st →
  fs st !! "/cache/recovery/command"%string = Some content →
  fgets MAX_ARG_LENGTH content 0 = Some (line, off) →
  Forall (λ c, c ∈ [CR; LF]) line →
  (strtok line 0 [CR; LF]).1.1 = None ∧ get_args argv st = NullDeref.
Proof.
  intros Hargc Hmisc Hmount Hfile Hgets Hblank.
  assert (Htok : (strtok line 0 [CR; LF]).1.1 = None).
  { apply strtok_all_delims; [done|]. by intros [?|[?|?%elem_of_nil]%elem_of_cons]%elem_of_cons. }
  split; [done|].
  unfold get_args.
  destruct (get_bootloader_message zero_message st) as [[r boot] st1] eqn:Eget.
  assert (boot = zero_message ∧ forget_log st1 = forget_log st) as [-> Hst1].
  { unfold get_bootloader_message in Eget. destruct (misc_read_ok st).
    - injection Eget as <- <- <-. rewrite Hmisc.
      split; [apply in_layout_id, zero_message_in_struct|done].
    - by injection Eget as <- <- <-. }
  rewrite not_blank_zero_command, not_blank_zero_status.
  rewrite args_from_boot_message_zero.
  apply forget_log_fields in Hst1 as (_ & _ & _ & Hfs & Hmnt & _).
  unfold args_from_command_file. rewrite bool_decide_eq_true_2 by done.
  rewrite (fopen_command_file st1 content) by congruence.
  rewrite Hfs, Hfile. change (default [] (Some content)) with content.
  change (MAX_ARGS - 1) with (S 98).
  by rewrite (command_file_args_blank 98 content line off).
Qed.

End with_layout.

Lemma get_args_writes_control_block_witness :
  ∃ args,
    drop 1 (returned ([], example_state [] None [])
              (@get_args example_layout [Some (str "recovery")]
                 (example_state [] (Some (str "--wipe_data" ++ [LF])) []))).1
    = Some <$> args
    ∧ args = [str "--wipe_data"].
Proof.
  destruct (@get_args_writes_control_block example_layout
              [Some (str "recovery")]
              (example_state [] (Some (str "--wipe_data" ++ [LF])) [])
              (returned ([], example_state [] None [])
                 (@get_args example_layout [Some (str "recovery")]
                    (example_state [] (Some (str "--wipe_data" ++ [LF])) []))).1
              (returned ([], example_state [] None [])
                 (@get_args example_layout [Some (str "recovery")]
                    (example_state [] (Some (str "--wipe_data" ++ [LF])) []))).2)
    as (args & Hargs & _); [reflexivity|vm_compute; reflexivity|].
  exists args. split; [exact Hargs|].
  vm_compute in Hargs. apply (inj (fmap Some)). exact (eq_sym Hargs).
Defined.

Lemma get_args_process_arguments_witness :
  ∃ st', @get_args example_layout [Some (str "recovery"); Some (str "--wipe_cache")]
           (example_state (str "recovery" ++ [LF] ++ str "--wipe_data" ++ [LF])
              (Some (str "--update_package=CACHE:update.zip" ++ [LF])) [])
         = Returned ([Some (str "recovery"); Some (str "--wipe_cache")], st').
Proof.
  destruct (@get_args_process_arguments example_layout
              [Some (str "recovery"); Some (str "--wipe_cache")]
              (example_state (str "recovery" ++ [LF] ++ str "--wipe_data" ++ [LF])
                 (Some (str "--update_package=CACHE:update.zip" ++ [LF])) []))
    as (st' & Hst' & _).
  - simpl. lia.
  - repeat constructor; by eexists.
  - by exists st'.
Defined.

Lemma get_args_survives_read_failure_witness :
  @get_args example_layout [Some (str "recovery")]
    (unreadable (example_state (str "recovery" ++ [LF] ++ str "--wipe_data" ++ [LF])
                   (Some (str "--wipe_cache" ++ [LF])) []))
  = match args_from_command_file [Some (str "recovery")]
            (add_log (LOGW "Can't read bootloader message\n")
               (unreadable (example_state (str "recovery" ++ [LF] ++ str "--wipe_data" ++ [LF])
                              (Some (str "--wipe_cache" ++ [LF])) []))) with
    | Returned (argv', st') => @write_back_args example_layout (@zero_message example_layout) argv' st'
    | NullDeref => NullDeref
    end.
Proof.
  apply (@get_args_survives_read_failure example_layout). reflexivity.
Defined.

Lemma get_args_blank_line_null_deref_witness :
  @get_args example_layout [Some (str "recovery")]
    (example_state (replicate 1024 NUL) (Some ([LF] ++ str "--wipe_data" ++ [LF])) [])
  = NullDeref.
Proof.
  apply (@get_args_blank_line_null_deref example_layout [Some (str "recovery")]
           (example_state (replicate 1024 NUL) (Some ([LF] ++ str "--wipe_data" ++ [LF])) [])
           ([LF] ++ str "--wipe_data" ++ [LF]) [LF] 1).
  - simpl. lia.
  - reflexivity.
  - simpl. apply list_elem_of_singleton. reflexivity.
  - vm_compute. reflexivity.
  - vm_compute. reflexivity.
  - repeat constructor.
Defined.

(** C7 (truncation bound): the code at the failing input.  With no other
    source of arguments, a command file of one line of 8190 characters
    (two reads of 4095 characters, then a read of the newline alone) makes
    [get_args] dereference a null pointer. *)
Theorem get_args_long_line_null_deref :
  @get_args example_layout [Some (str "recovery")]
    (example_state (replicate 1024 NUL) (Some long_line_file) [])
  = NullDeref.
Proof. vm_compute. reflexivity. Qed.


(** ** The command dispatch *)

Lemma handle_option_keeps_wipe o opt :
  wipe_data o = true → wipe_cache o = true →
  wipe_data (handle_option o opt) = true ∧ wipe_cache (handle_option o opt) = true.
Proof.
  intros Hd Hc. destruct opt as [arg optarg]. unfold handle_option.
  repeat case_bool_decide; simpl; auto.
Qed.

Lemma parse_options_wipe opts : ∀ o,
  (wipe_data o = true ∧ wipe_cache o = true) ∨ "w"%char ∈ opts.*1 →
  wipe_data (foldl handle_option o opts) = true
  ∧ wipe_cache (foldl handle_option o opts) = true.
Proof.
  induction opts as [|[arg optarg] opts IH]; intros o Ho; cbn [foldl].
  - destruct Ho as [Ho|Hin]; [done|]. by apply elem_of_nil in Hin.
  - apply IH. destruct Ho as [[Hd Hc]|Hin].
    + left. by apply handle_option_keeps_wipe.
    + rewrite fmap_cons in Hin. apply elem_of_cons in Hin as [Hin|Hin]; [|by right].
      simpl in Hin. subst arg.
      left. split; vm_compute; reflexivity.
Qed.

Section with_collaborators.
Variable format_root_device : string → Z.
Variable install_package : list ascii → install_status.

(** C8 (wipe data), as amended.  When the wipe-data flag is among the
    options and no update package is, the session formats the data root
    and then the cache root, whatever the result for the data root was;
    the status is the error status as soon as one of the two has
    failed. *)
Theorem wipe_data_erases_data_then_cache opts :
  "w"%char ∈ opts.*1 →
  update_package (parse_options opts) = None →
  let status :=
    if bool_decide (format_root_device "DATA:" = 0%Z
                    ∧ format_root_device "CACHE:" = 0%Z)
    then INSTALL_SUCCESS else INSTALL_ERROR in
  run_command format_root_device install_package (parse_options opts)
  = (status,
     [UiPrint "Formatting %s...\n"; Format "DATA:";
      UiPrint "Formatting %s...\n"; Format "CACHE:"]
     ++ if bool_decide (status ≠ INSTALL_SUCCESS)
        then [UiPrint "Data wipe failed.\n"] else []).
Proof.
  intros Hw Hu.
  destruct (parse_options_wipe opts no_options (or_intror Hw)) as [Hd Hc].
  fold (parse_options opts) in Hd, Hc.
  unfold run_command, erase_root. rewrite Hu, Hd, Hc. simpl.
  repeat case_bool_decide; try done; destruct_and?; try congruence; tauto.
Qed.

End with_collaborators.

Lemma wipe_data_erases_data_then_cache_witness :
  run_command (λ root, if String.eqb root "DATA:" then (-1)%Z else 0%Z)
    (λ _, INSTALL_SUCCESS) (parse_options [("w"%char, None)])
  = (INSTALL_ERROR,
     [UiPrint "Formatting %s...\n"; Format "DATA:";
      UiPrint "Formatting %s...\n"; Format "CACHE:";
      UiPrint "Data wipe failed.\n"]).
Proof.
  apply (wipe_data_erases_data_then_cache
           (λ root, if String.eqb root "DATA:" then (-1)%Z else 0%Z)
           (λ _, INSTALL_SUCCESS) [("w"%char, None)]).
  - simpl. apply list_elem_of_singleton. reflexivity.
  - reflexivity.
Defined.

(** C8 as stated fails: with the wipe-data flag and an update package, the
    session installs the package and formats nothing. *)
Lemma wipe_data_with_update_package :
  "w"%char ∈ [("u"%char, Some (str "CACHE:update.zip")); ("w"%char, None)].*1
  ∧ run_command (λ _, 0%Z) (λ _, INSTALL_SUCCESS)
      (parse_options [("u"%char, Some (str "CACHE:update.zip")); ("w"%char, None)])
    = (INSTALL_SUCCESS, [Install (str "CACHE:update.zip")]).
Proof.
  split; [|reflexivity].
  simpl. apply elem_of_cons. right. apply list_elem_of_singleton. reflexivity.
Qed.


(** ** finish_recovery *)

Lemma frame_refl ps st : frame ps st st.
Proof. by repeat split. Qed.

Lemma frame_add_log ps e st : frame ps st (add_log e st).
Proof. by repeat split. Qed.

Lemma frame_set_offset ps n st : frame ps st (set_tmplog_offset n st).
Proof. by repeat split. Qed.

Lemma frame_trans ps st st' st'' :
  frame ps st st' → frame ps st' st'' → frame ps st st''.
Proof.
  intros (? & ? & ? & ? & Hf) (? & ? & ? & ? & Hf').
  repeat split; try congruence. intros p Hp. rewrite Hf' by done. by apply Hf.
Qed.

Lemma frame_set_fs p v st : frame [p] st (set_fs (<[p := v]> (fs st)) st).
Proof.
  repeat split. intros q Hq. simpl. apply lookup_insert_ne.
  intros ->. apply Hq. by left.
Qed.

Lemma fopen_root_path_cache root_path rest mode st :
  split_root_path root_path = Some ("CACHE:"%string, rest) →
  fopen_root_path root_path mode st
  = if bool_decide (mounted st)
    then fopen (String.append "/cache" (String.append "/" rest)) mode st
    else (None, add_log (LOGE "Can't mount %s\n") st).
Proof.
  intros Hs. unfold fopen_root_path, ensure_root_path_mounted, translate_root_path.
  rewrite Hs. simpl. unfold mounted.
  destruct (decide ("CACHE:"%string ∈ mountable st)) as [Hm|Hm].
  - rewrite !(bool_decide_eq_true_2 _ Hm).
    by rewrite bool_decide_eq_false_2 by (by intros ?).
  - rewrite !(bool_decide_eq_false_2 _ Hm).
    by rewrite bool_decide_eq_true_2.
Qed.

Lemma fopen_spec path mode st fp st' :
  fopen path mode st = (fp, st') →
  frame [path] st st' ∧ tmplog_offset st' = tmplog_offset st
  ∧ logged st' = logged st
  ∧ (fp = None ∨ fp = Some path ∧ is_Some (fs st' !! path))
  ∧ (is_Some (fs st !! path) → mode ≠ "w"%string → st' = st ∧ fp = Some path)
  ∧ (mode ≠ "r"%string → fp = Some path).
Proof.
  unfold fopen.
  destruct (String.eqb_spec mode "r") as [->|Hr];
    [|destruct (String.eqb_spec mode "w") as [->|Hw]];
    destruct (fs st !! path) as [c|] eqn:E; intros [= <- <-];
    (split; [first [apply frame_refl | apply frame_set_fs]|]);
    split_and!; try done;
    try (right; split; [done|]; simpl; rewrite ?lookup_insert_eq, ?E; by eauto);
    try (by intros [? ?]); try (by left).
Qed.

Lemma fputs_spec s fp st :
  frame [fp] st (fputs s fp st)
  ∧ tmplog_offset (fputs s fp st) = tmplog_offset st
  ∧ logged (fputs s fp st) = logged st
  ∧ (is_Some (fs st !! fp) → is_Some (fs (fputs s fp st) !! fp)).
Proof.
  unfold fputs. destruct (fs st !! fp) eqn:E;
    (split; [first [apply frame_refl | apply frame_set_fs]|]);
    split_and!; try done.
  intros _. simpl. rewrite lookup_insert_eq. eauto.
Qed.

Lemma fgets_advances size content off line off' :
  2 ≤ size → fgets size content off = Some (line, off') →
  off < off' ∧ off < length content.
Proof.
  intros Hsize. unfold fgets.
  destruct (drop off content) as [|c rest] eqn:E; [done|].
  intros [= <- <-].
  assert (off < length content).
  { destruct (decide (off < length content)); [done|].
    rewrite drop_ge in E by lia. done. }
  split; [|done].
  rewrite length_take. destruct size as [|[|size']]; [lia..|]. simpl. lia.
Qed.

Lemma fgets_eof size content off :
  length content ≤ off → fgets size content off = None.
Proof. intros Hoff. unfold fgets. by rewrite drop_ge. Qed.

Lemma copy_log_spec fuel : ∀ content off log st off' st',
  copy_log fuel content off log st = (off', st') →
  frame [log] st st'
  ∧ tmplog_offset st' = tmplog_offset st
  ∧ logged st' = logged st
  ∧ off ≤ off'
  ∧ (is_Some (fs st !! log) → is_Some (fs st' !! log))
  ∧ (length content - off < fuel → length content ≤ off').
Proof.
  induction fuel as [|fuel IH]; intros content off log st off' st'; simpl.
  - intros [= <- <-]. split; [apply frame_refl|]. repeat split; try done. lia.
  - destruct (fgets 4096 content off) as [[buf off1]|] eqn:Eg.
    + apply fgets_advances in Eg as [Hlt Hlen]; [|lia].
      intros Hc. apply IH in Hc as (Hfr & Ho & Hl & Hle & Hex & Hend).
      destruct (fputs_spec buf log st) as (Hfr' & Ho' & Hl' & Hex').
      split; [by eapply frame_trans|]. repeat split; try congruence.
      * lia.
      * auto.
      * intros Hfuel. apply Hend. lia.
    + intros [= <- <-]. split; [apply frame_refl|]. repeat split; try done.
      intros _. unfold fgets in Eg.
      destruct (drop off content) eqn:E; [|done].
      destruct (decide (length content ≤ off)); [done|].
      apply (f_equal length) in E. rewrite length_drop in E. simpl in E. lia.
Qed.

Lemma set_tmplog_offset_id st : set_tmplog_offset (tmplog_offset st) st = st.
Proof. by destruct st. Qed.

Lemma write_intent_spec i st :
  frame ["/cache/recovery/intent"%string] st (write_intent i st)
  ∧ tmplog_offset (write_intent i st) = tmplog_offset st
  ∧ (mounted st → logged (write_intent i st) = logged st).
Proof.
  unfold write_intent. destruct i as [intent|]; [|by split; [apply frame_refl|]].
  rewrite (fopen_root_path_cache INTENT_FILE "recovery/intent") by done.
  case_bool_decide as Hm.
  - change (String.append _ _) with "/cache/recovery/intent"%string.
    destruct (fopen _ "w" st) as [fp st1] eqn:E.
    apply fopen_spec in E as (Hfr & Ho & Hl & _ & _ & Hfp).
    rewrite Hfp by done. unfold check_and_fclose.
    destruct (fputs_spec intent "/cache/recovery/intent" st1) as (Hfr' & Ho' & Hl' & _).
    split; [by eapply frame_trans|]. split; [congruence|]. intros _. congruence.
  - split; [|done]. eapply frame_trans; apply frame_add_log.
Qed.

Lemma copy_tmplog_spec st :
  frame ["/cache/recovery/log"%string] st (copy_tmplog st)
  ∧ tmplog_offset st ≤ tmplog_offset (copy_tmplog st)
  ∧ (mounted st → is_Some (fs (copy_tmplog st) !! "/cache/recovery/log"%string))
  ∧ (mounted st → ∀ content,
       fs st !! "/tmp/recovery.log"%string = Some content →
       length content ≤ tmplog_offset (copy_tmplog st)
       ∧ logged (copy_tmplog st) = logged st).
Proof.
  unfold copy_tmplog.
  rewrite (fopen_root_path_cache LOG_FILE "recovery/log") by done.
  case_bool_decide as Hm.
  2:{ split; [eapply frame_trans; apply frame_add_log|]. by repeat split. }
  change (String.append _ _) with "/cache/recovery/log"%string.
  destruct (fopen _ "a" st) as [fp st1] eqn:E.
  apply fopen_spec in E as (Hfr & Ho & Hl & [->|[-> Hex]] & _ & Hfp);
    [by discriminate Hfp|]. clear Hfp.
  unfold check_and_fclose.
  assert (Htmp : fs st1 !! "/tmp/recovery.log"%string = fs st !! "/tmp/recovery.log"%string).
  { destruct Hfr as (_ & _ & _ & _ & Hf). apply Hf.
    by intros [?|?%elem_of_nil]%elem_of_cons. }
  unfold fopen, TEMPORARY_LOG_FILE.
  change ("r" =? "r")%string with true. cbn beta iota. rewrite Htmp.
  destruct (fs st !! "/tmp/recovery.log"%string) as [content|] eqn:Ec.
  - rewrite Htmp. change (default [] (Some content)) with content.
    destruct (copy_log _ content _ _ st1) as [off st2] eqn:Ecopy.
    apply copy_log_spec in Ecopy as (Hfr2 & Ho2 & Hl2 & Hle & Hex2 & Hend).
    split; [eapply frame_trans; [done|]; eapply frame_trans; [done|apply frame_set_offset]|].
    simpl. split; [lia|]. split; [intros _; by apply Hex2|].
    intros _ content' [= <-]. split; [apply Hend; lia|congruence].
  - split; [eapply frame_trans; [done|apply frame_add_log]|].
    simpl. split; [lia|]. split; [done|]. intros _ content' [=].
Qed.

(** When [LOG_FILE] is there and the offset is at the end of the temporary
    log, nothing is copied. *)
Lemma copy_tmplog_idem st :
  (mounted st → is_Some (fs st !! "/cache/recovery/log"%string)) →
  (mounted st → ∀ content,
     fs st !! "/tmp/recovery.log"%string = Some content →
     length content ≤ tmplog_offset st) →
  forget_log (copy_tmplog st) = forget_log st
  ∧ (mounted st → is_Some (fs st !! "/tmp/recovery.log"%string) →
     logged (copy_tmplog st) = logged st).
Proof.
  intros Hlog Hoff. unfold copy_tmplog.
  rewrite (fopen_root_path_cache LOG_FILE "recovery/log") by done.
  case_bool_decide as Hm; [|done].
  change (String.append _ _) with "/cache/recovery/log"%string.
  destruct (fopen _ "a" st) as [fp st1] eqn:E.
  apply fopen_spec in E as (_ & _ & _ & _ & Hsame & _).
  destruct Hsame as [-> ->]; [by apply Hlog|done|].
  unfold check_and_fclose, fopen, TEMPORARY_LOG_FILE.
  change ("r" =? "r")%string with true. cbn beta iota.
  destruct (fs st !! "/tmp/recovery.log"%string) as [content|] eqn:Ec.
  - rewrite Ec. change (default [] (Some content)) with content.
    cbn [copy_log].
    rewrite fgets_eof by (by apply Hoff). by rewrite set_tmplog_offset_id.
  - split; [done|]. by intros _ [? ?].
Qed.

Lemma remove_command_file_eq st :
  remove_command_file st
  = if bool_decide (mounted st) then
      match fs st !! "/cache/recovery/command"%string with
      | Some _ => set_fs (delete "/cache/recovery/command"%string (fs st)) st
      | None => st
      end
    else add_log (LOGW "Can't unlink %s\n") st.
Proof.
  unfold remove_command_file, ensure_root_path_mounted, mounted.
  change (split_root_path COMMAND_FILE)
    with (Some ("CACHE:"%string, "recovery/command"%string)).
  cbn beta iota.
  change (translate_root_path COMMAND_FILE) with (Some "/cache/recovery/command"%string).
  cbn beta iota. unfold unlink.
  destruct (decide ("CACHE:"%string ∈ mountable st)) as [Hm|Hm].
  - rewrite !(bool_decide_eq_true_2 _ Hm).
    rewrite (bool_decide_eq_false_2 (0%Z ≠ 0%Z)) by (by intros ?).
    by destruct (fs st !! "/cache/recovery/command"%string).
  - rewrite !(bool_decide_eq_false_2 _ Hm).
    by rewrite bool_decide_eq_true_2.
Qed.

Lemma remove_command_file_spec st :
  frame ["/cache/recovery/command"%string] st (remove_command_file st)
  ∧ tmplog_offset (remove_command_file st) = tmplog_offset st
  ∧ (mounted st →
     fs (remove_command_file st) !! "/cache/recovery/command"%string = None
     ∧ logged (remove_command_file st) = logged st)
  ∧ ((mounted st → fs st !! "/cache/recovery/command"%string = None) →
     forget_log (remove_command_file st) = forget_log st).
Proof.
  rewrite remove_command_file_eq. case_bool_decide as Hm.
  - destruct (fs st !! "/cache/recovery/command"%string) eqn:Ec.
    + split_and!; try done.
      * split_and!; try done.
        intros p Hp. simpl. apply lookup_delete_ne. intros <-. apply Hp. by left.
      * intros _. split; [|done]. simpl. apply lookup_delete_eq.
      * intros Hnone. by specialize (Hnone Hm).
    + split; [apply frame_refl|]. split_and!; done.
  - split; [apply frame_add_log|]. split_and!; done.
Qed.

Section with_layout.
Context `{layout}.

Lemma set_zero_message_spec st r st' :
  set_bootloader_message zero_message st = (r, st') →
  fs st' = fs st ∧ mountable st' = mountable st
  ∧ misc_read_ok st' = misc_read_ok st ∧ misc_write_ok st' = misc_write_ok st
  ∧ tmplog_offset st' = tmplog_offset st
  ∧ misc st' = (if misc_write_ok st then zero_message else misc st)
  ∧ (misc_write_ok st = true → logged st' = logged st).
Proof.
  unfold set_bootloader_message.
  destruct (misc_write_ok st) eqn:Ew; intros [= <- <-]; split_and!; try done.
  apply in_layout_id, zero_message_in_struct.
Qed.

(** What one call of [finish_recovery] establishes. *)
Lemma finish_recovery_spec i st :
  let st' := finish_recovery i st in
  mountable st' = mountable st
  ∧ misc_write_ok st' = misc_write_ok st
  ∧ fs st' !! "/tmp/recovery.log"%string = fs st !! "/tmp/recovery.log"%string
  ∧ tmplog_offset st ≤ tmplog_offset st'
  ∧ misc st' = (if misc_write_ok st then zero_message else misc st)
  ∧ (mounted st → is_Some (fs st' !! "/cache/recovery/log"%string))
  ∧ (mounted st → ∀ content,
       fs st !! "/tmp/recovery.log"%string = Some content →
       length content ≤ tmplog_offset st')
  ∧ (mounted st → fs st' !! "/cache/recovery/command"%string = None).
Proof.
  unfold finish_recovery.
  destruct (write_intent_spec i st) as (Hf1 & Ho1 & _).
  set (st1 := write_intent i st) in *.
  destruct (copy_tmplog_spec st1) as (Hf2 & Ho2 & Hlog & Hend).
  set (st2 := copy_tmplog st1) in *.
  destruct (set_bootloader_message zero_message st2) as [r st3] eqn:Eset.
  apply set_zero_message_spec in Eset as (Hfs3 & Hm3 & _ & Hw3 & Ho3 & Hmisc3 & _).
  destruct (remove_command_file_spec st3) as (Hf4 & Ho4 & Hrm & _).
  set (st4 := remove_command_file st3) in *. simpl.
  destruct Hf1 as (Hmi1 & _ & Hw1 & Hmn1 & Hfs1).
  destruct Hf2 as (Hmi2 & _ & Hw2 & Hmn2 & Hfs2).
  destruct Hf4 as (Hmi4 & _ & Hw4 & Hmn4 & Hfs4).
  assert (Hne : ∀ p q : string, p ≠ q → p ∉ [q])
    by (by intros p q ? [?|?%elem_of_nil]%elem_of_cons).
  assert (Hmount : mounted st → mounted st1 ∧ mounted st3).
  { unfold mounted. rewrite Hm3, Hmn2, Hmn1. done. }
  split; [congruence|]. split; [congruence|]. split.
  { rewrite Hfs4, Hfs3, Hfs2, Hfs1 by (by apply Hne). done. }
  split; [lia|]. split.
  { rewrite Hmi4, Hmisc3, Hw2, Hw1. destruct (misc_write_ok st); congruence. }
  split.
  { intros Hm. rewrite Hfs4, Hfs3 by (by apply Hne). apply Hlog, Hmount, Hm. }
  split.
  { intros Hm content Hc. rewrite Ho4, Ho3.
    apply Hend; [by apply Hmount|]. rewrite Hfs1 by (by apply Hne). done. }
  intros Hm. by apply Hrm, Hmount.
Qed.


(** C6 (finisher idempotence).  A second call of [finish_recovery] right
    after a first one appends nothing to the persistent log, leaves the
    offset into the temporary log where the first call has put it (the
    offset never decreases), and leaves the control block and the command
    file as they are.  When the cache root can be mounted, the control
    block written and the temporary log opened, the first call leaves an
    all-default control block and no command file, and the second call
    logs nothing: removing a file that is not there is not an error. *)
Theorem finish_recovery_twice i1 i2 st :
  let st1 := finish_recovery i1 st in
  let st2 := finish_recovery i2 st1 in
  fs st2 !! "/cache/recovery/log"%string = fs st1 !! "/cache/recovery/log"%string
  ∧ tmplog_offset st ≤ tmplog_offset st1
  ∧ tmplog_offset st2 = tmplog_offset st1
  ∧ misc st2 = misc st1
  ∧ fs st2 !! "/cache/recovery/command"%string
    = fs st1 !! "/cache/recovery/command"%string
  ∧ ("CACHE:"%string ∈ mountable st →
     misc_write_ok st = true →
     is_Some (fs st !! "/tmp/recovery.log"%string) →
     misc st1 = zero_message
     ∧ fs st1 !! "/cache/recovery/command"%string = None
     ∧ logged st2 = logged st1).
Proof.
  intros st1 st2.
  destruct (finish_recovery_spec i1 st)
    as (Hmn & Hw & Htmp & Hoff & Hmisc & Hlog & Hend & Hcmd).
  fold st1 in Hmn, Hw, Htmp, Hoff, Hmisc, Hlog, Hend, Hcmd.
  assert (Hmounted : mounted st1 ↔ mounted st) by (unfold mounted; by rewrite Hmn).
  unfold st2, finish_recovery.
  destruct (write_intent_spec i2 st1) as ((Hmi_a & _ & Hw_a & Hmn_a & Hfs_a) & Ho_a & Hl_a).
  set (sa := write_intent i2 st1) in *.
  assert (Hne : ∀ p q : string, p ≠ q → p ∉ [q])
    by (by intros p q ? [?|?%elem_of_nil]%elem_of_cons).
  assert (Hmounted_a : mounted sa ↔ mounted st) by (unfold mounted; by rewrite Hmn_a, Hmn).
  destruct (copy_tmplog_idem sa) as (Hb & Hl_b).
  { intros Hm. rewrite Hfs_a by (by apply Hne). by apply Hlog, Hmounted_a. }
  { intros Hm content. rewrite Hfs_a, Htmp, Ho_a by (by apply Hne).
    by apply Hend, Hmounted_a. }
  set (sb := copy_tmplog sa) in *.
  apply forget_log_fields in Hb as (Hmi_b & _ & Hw_b & Hfs_b & Hmn_b & Ho_b).
  destruct (set_bootloader_message zero_message sb) as [r sc] eqn:Eset.
  apply set_zero_message_spec in Eset
    as (Hfs_c & Hmn_c & _ & Hw_c & Ho_c & Hmi_c & Hl_c).
  assert (Hmounted_c : mounted sc ↔ mounted st).
  { unfold mounted. by rewrite Hmn_c, Hmn_b, Hmn_a, Hmn. }
  destruct (remove_command_file_spec sc) as (_ & _ & Hl_d & Hd).
  assert (Hcmd_c : fs sc !! "/cache/recovery/command"%string
                   = fs st1 !! "/cache/recovery/command"%string).
  { rewrite Hfs_c, Hfs_b. by apply Hfs_a, Hne. }
  specialize (Hd ltac:(intros Hm; rewrite Hcmd_c; by apply Hcmd, Hmounted_c)).
  set (sd := remove_command_file sc) in *.
  apply forget_log_fields in Hd as (Hmi_d & _ & _ & Hfs_d & _ & Ho_d).
  split_and!.
  - rewrite Hfs_d, Hfs_c, Hfs_b. by apply Hfs_a, Hne.
  - done.
  - congruence.
  - rewrite Hmi_d, Hmi_c, Hw_b, Hw_a, Hw, Hmi_b, Hmi_a, Hmisc.
    by destruct (misc_write_ok st).
  - by rewrite Hfs_d.
  - intros Hm Hwok Htmpok. split_and!.
    + by rewrite Hmisc, Hwok.
    + by apply Hcmd.
    + rewrite (proj2 (Hl_d (proj2 Hmounted_c Hm))).
      rewrite Hl_c by congruence.
      rewrite Hl_b; [by apply Hl_a, Hmounted|by apply Hmounted_a|].
      rewrite Hfs_a, Htmp by (by apply Hne). done.
Qed.

End with_layout.

Lemma finish_recovery_twice_witness :
  let st := example_state (str "recovery" ++ [LF] ++ str "--wipe_data" ++ [LF])
              (Some (str "--wipe_data" ++ [LF]))
              (str "Starting recovery" ++ [LF] ++ str "Formatting DATA:..." ++ [LF]) in
  let st1 := @finish_recovery example_layout (Some (str "done")) st in
  let st2 := @finish_recovery example_layout None st1 in
  fs st2 !! "/cache/recovery/log"%string = fs st1 !! "/cache/recovery/log"%string
  ∧ logged st2 = logged st1.
Proof.
  intros st st1 st2.
  destruct (@finish_recovery_twice example_layout (Some (str "done")) None st)
    as (Hlog & _ & _ & _ & _ & Hok).
  split; [exact Hlog|].
  apply Hok.
  - apply list_elem_of_singleton. reflexivity.
  - reflexivity.
  - vm_compute. eexists. reflexivity.
Defined.

(** ** What is copied to the persistent log *)

Lemma fgets_line size content off line off' :
  fgets size content off = Some (line, off') →
  off' = off + length line
  ∧ line ++ drop off' content = drop off content.
Proof.
  unfold fgets. destruct (drop off content) as [|c r] eqn:E; [done|].
  intros [= <- <-]. split; [done|].
  rewrite <- drop_drop, E. apply FlashImageProofs.take_drop_length_take.
Qed.

Lemma fgets_nul_free size content off line off' :
  Forall (λ c, c ≠ NUL) content →
  fgets size content off = Some (line, off') →
  Forall (λ c, c ≠ NUL) line.
Proof.
  intros Hnul. unfold fgets.
  pose proof (Forall_drop _ off _ Hnul) as Hrest.
  destruct (drop off content) as [|c r]; [done|].
  intros [= <- _]. by apply Forall_take.
Qed.

(** The loop of line 251 appends what the temporary log has beyond the
    offset, and leaves the offset at the end of the temporary log. *)
Lemma copy_log_appends fuel : ∀ content off log st old,
  Forall (λ c, c ≠ NUL) content →
  fs st !! log = Some old →
  length content - off < fuel →
  fs (copy_log fuel content off log st).2 !! log = Some (old ++ drop off content)
  ∧ (copy_log fuel content off log st).1 = off `max` length content.
Proof.
  induction fuel as [|fuel IH]; intros content off log st old Hnul Hold Hfuel; [lia|].
  cbn [copy_log].
  destruct (fgets 4096 content off) as [[buf off1]|] eqn:Eg.
  - pose proof (fgets_advances 4096 _ _ _ _ ltac:(lia) Eg) as [Hlt Hlen].
    pose proof (fgets_nul_free _ _ _ _ _ Hnul Eg) as Hbuf.
    apply fgets_line in Eg as [Hoff Hline].
    assert (Hput : fs (fputs buf log st) !! log = Some (old ++ buf)).
    { unfold fputs. rewrite Hold. simpl. rewrite lookup_insert_eq.
      by rewrite cstr_of_nul_free. }
    destruct (IH content off1 log (fputs buf log st) (old ++ buf) Hnul Hput)
      as [Hfs Hend]; [lia|].
    rewrite Hfs, Hend, <- app_assoc, Hline. split; [done|].
    assert (off1 ≤ length content); [|lia].
    destruct (decide (off1 ≤ length content)); [done|].
    rewrite drop_ge in Hline by lia. rewrite app_nil_r in Hline.
    apply (f_equal length) in Hline. rewrite length_drop in Hline. lia.
  - simpl. unfold fgets in Eg.
    destruct (drop off content) as [|c r] eqn:E; [|done].
    rewrite app_nil_r. split; [done|].
    apply (f_equal length) in E. rewrite length_drop in E. simpl in E. lia.
Qed.

(** [finish_recovery] copies the part of the temporary log that has not
    been copied before, once. *)
Lemma copy_tmplog_appends st content :
  mounted st →
  fs st !! "/tmp/recovery.log"%string = Some content →
  Forall (λ c, c ≠ NUL) content →
  fs (copy_tmplog st) !! "/cache/recovery/log"%string
  = Some (default [] (fs st !! "/cache/recovery/log"%string)
          ++ drop (tmplog_offset st) content)
  ∧ tmplog_offset (copy_tmplog st) = tmplog_offset st `max` length content.
Proof.
  intros Hm Hc Hnul.
  set (st1 := match fs st !! "/cache/recovery/log"%string with
              | Some _ => st
              | None => set_fs (<["/cache/recovery/log"%string := []]> (fs st)) st
              end).
  assert (Hlog1 : fs st1 !! "/cache/recovery/log"%string
                  = Some (default [] (fs st !! "/cache/recovery/log"%string))).
  { unfold st1. destruct (fs st !! "/cache/recovery/log"%string) eqn:E; simpl.
    - done.
    - by rewrite lookup_insert_eq. }
  assert (Htmp1 : fs st1 !! "/tmp/recovery.log"%string = Some content).
  { unfold st1. destruct (fs st !! "/cache/recovery/log"%string); simpl; [done|].
    by rewrite lookup_insert_ne. }
  assert (Hoff1 : tmplog_offset st1 = tmplog_offset st).
  { unfold st1. by destruct (fs st !! "/cache/recovery/log"%string). }
  assert (Heq : copy_tmplog st
                = set_tmplog_offset
                    (copy_log (S (length content)) content (tmplog_offset st1)
                       "/cache/recovery/log" st1).1
                    (copy_log (S (length content)) content (tmplog_offset st1)
                       "/cache/recovery/log" st1).2).
  { unfold copy_tmplog.
    rewrite (fopen_root_path_cache LOG_FILE "recovery/log") by done.
    rewrite bool_decide_eq_true_2 by done.
    change (String.append _ _) with "/cache/recovery/log"%string.
    assert (Hopen : fopen "/cache/recovery/log" "a" st
                    = (Some "/cache/recovery/log"%string, st1)).
    { unfold fopen, st1. change ("a" =? "r")%string with false.
      change ("a" =? "w")%string with false. cbn beta iota.
      by destruct (fs st !! "/cache/recovery/log"%string). }
    rewrite Hopen.
    unfold check_and_fclose, fopen, TEMPORARY_LOG_FILE.
    change ("r" =? "r")%string with true. cbn beta iota.
    rewrite Htmp1. cbn beta iota. rewrite Htmp1.
    change (default [] (Some content)) with content.
    by destruct (copy_log _ content _ _ st1). }
  rewrite Heq. cbn [fs tmplog_offset set_tmplog_offset].
  destruct (copy_log_appends (S (length content)) content (tmplog_offset st1)
              "/cache/recovery/log" st1 _ Hnul Hlog1) as [Hfs Hend]; [lia|].
  by rewrite Hfs, Hend, Hoff1.
Qed.

(** ** The resolved arguments are strings *)

Lemma command_file_args_strings n : ∀ content off args,
  command_file_args n content off = Returned args →
  Forall (λ a, ∃ s, a = Some s ∧ cstr s = s) args.
Proof.
  induction n as [|n IH]; intros content off args; cbn [command_file_args].
  - by intros [= <-].
  - destruct (fgets MAX_ARG_LENGTH content off) as [[buf off']|];
      [|by intros [= <-]].
    destruct (strtok buf 0 [CR; LF]) as [[[tok|] ?] ?]; [|done].
    destruct (command_file_args n content off') as [args'|] eqn:Er; [|done].
    apply IH in Er. intros [= <-]. constructor; [|done].
    exists (strdup tok). split; [done|apply cstr_idemp].
Qed.

Lemma boot_message_args_strings n : ∀ buf pos,
  Forall (λ a, ∃ s, a = Some s ∧ cstr s = s) (boot_message_args n buf pos).1.1.
Proof.
  induction n as [|n IH]; intros buf pos; cbn [boot_message_args]; [done|].
  destruct (strtok buf pos [LF]) as [[[tok|] buf1] pos1]; [|done].
  specialize (IH buf1 pos1).
  destruct (boot_message_args n buf1 pos1) as [[args buf2] pos2]. simpl in *.
  constructor; [|done]. exists (strdup tok). split; [done|apply cstr_idemp].
Qed.

Section with_layout.
Context `{layout}.

(** When the arguments of the process are strings (they hold no [NUL]),
    so are the resolved arguments: in the recovery field written by
    [get_args], each of them stands as it is. *)
Lemma get_args_arguments_are_strings argv st argv' st' :
  Forall (λ a, ∃ s, a = Some s ∧ cstr s = s) (drop 1 argv) →
  get_args argv st = Returned (argv', st') →
  Forall (λ a, ∃ s, a = Some s ∧ cstr s = s) (drop 1 argv').
Proof.
  intros Hargv. unfold get_args.
  destruct (get_bootloader_message zero_message st) as [[r boot] st1].
  set (st3 := if not_blank (status boot) then _ else _). clearbody st3.
  assert (Hboot : ∀ argv1 boot1 st4,
            args_from_boot_message boot argv st3 = (argv1, boot1, st4) →
            Forall (λ a, ∃ s, a = Some s ∧ cstr s = s) (drop 1 argv1)).
  { intros argv1 boot1 st4. unfold args_from_boot_message.
    case_bool_decide; [|by intros [= <- <- <-]].
    destruct (strtok _ 0 [LF]) as [[arg rec] pos].
    destruct arg as [a|]; [|by intros [= <- <- <-]].
    destruct (strcmp_eq a (str "recovery")); [|by intros [= <- <- <-]].
    pose proof (boot_message_args_strings (MAX_ARGS - 1) rec pos) as Hall.
    destruct (boot_message_args _ rec pos) as [[args rec'] pos']. simpl in Hall.
    intros [= <- <- <-]. simpl. by rewrite drop_0. }
  destruct (args_from_boot_message boot argv st3) as [[argv1 boot1] st4] eqn:Eboot.
  specialize (Hboot _ _ _ eq_refl).
  assert (Hwb : ∀ argv2 st5, write_back_args boot1 argv2 st5 = Returned (argv', st') →
                             argv' = argv2).
  { intros argv2 st5. unfold write_back_args.
    destruct (append_args _ _); [|done].
    destruct (set_bootloader_message _ _). by intros [= <- _]. }
  unfold args_from_command_file.
  case_bool_decide as Hshort; [|by intros ->%Hwb].
  destruct (fopen_root_path COMMAND_FILE "r" st4) as [[fp|] st5]; [|by intros ->%Hwb].
  destruct (command_file_args _ _ _) as [args|] eqn:Ec; [|done].
  apply command_file_args_strings in Ec.
  intros ->%Hwb. simpl. by rewrite drop_0.
Qed.

End with_layout.

(** ** The truncation of the arguments *)

Lemma take_length_le {A} n (l : list A) : length (take n l) ≤ length l.
Proof. rewrite length_take. lia. Qed.

Lemma strtok_token_length buf pos delim tok :
  (strtok buf pos delim).1.1 = Some tok → length tok ≤ length buf.
Proof.
  unfold strtok.
  set (s := cstr (drop pos buf)).
  assert (Hs : length s ≤ length buf).
  { unfold s. etransitivity; [apply cstr_length|]. rewrite length_drop. lia. }
  destruct (drop (strspn s delim) s) as [|c r] eqn:E; [done|].
  assert (Hr : length (c :: r) ≤ length buf).
  { rewrite <- E, length_drop. lia. }
  case_bool_decide; simpl; intros [= <-];
    (etransitivity; [apply take_length_le|done]).
Qed.

Lemma fgets_length size content off line off' :
  fgets size content off = Some (line, off') → length line ≤ size - 1.
Proof.
  unfold fgets. destruct (drop off content); [done|].
  intros [= <- _]. rewrite length_take. destruct (size - 1); simpl; lia.
Qed.

(** The lines of the command file that become arguments are at most [n],
    each shorter than [MAX_ARG_LENGTH]. *)
Lemma command_file_args_bound n : ∀ content off args,
  command_file_args n content off = Returned args →
  length args ≤ n
  ∧ Forall (λ a, ∃ s, a = Some s ∧ length s < MAX_ARG_LENGTH) args.
Proof.
  induction n as [|n IH]; intros content off args; cbn [command_file_args].
  - intros [= <-]. by split.
  - destruct (fgets MAX_ARG_LENGTH content off) as [[buf off']|] eqn:Eg;
      [|intros [= <-]; split; [simpl; lia|done]].
    apply fgets_length in Eg.
    pose proof (strtok_token_length buf 0 [CR; LF]) as Htok.
    destruct (strtok buf 0 [CR; LF]) as [[[tok|] ?] ?]; [|done].
    specialize (Htok tok eq_refl).
    destruct (command_file_args n content off') as [args'|] eqn:Er; [|done].
    apply IH in Er as [Hlen Hall]. intros [= <-]. split; [simpl; lia|].
    constructor; [|done]. exists (strdup tok). split; [done|].
    unfold strdup. pose proof (cstr_length tok). unfold MAX_ARG_LENGTH in *. lia.
Qed.

(** The lines of the control block that become arguments are at most [n],
    each within the buffer. *)
Lemma boot_message_args_bound n : ∀ buf pos,
  length (boot_message_args n buf pos).1.1 ≤ n
  ∧ Forall (λ a, ∃ s, a = Some s ∧ length s ≤ length buf)
      (boot_message_args n buf pos).1.1.
Proof.
  induction n as [|n IH]; intros buf pos; cbn [boot_message_args].
  - by split.
  - pose proof (strtok_token_length buf pos [LF]) as Htok.
    pose proof (strtok_length buf pos [LF]) as Hlen.
    destruct (strtok buf pos [LF]) as [[[tok|] buf1] pos1]; [|by split; [simpl; lia|]].
    specialize (Htok tok eq_refl). simpl in Hlen.
    destruct (IH buf1 pos1) as [Hn Hall].
    destruct (boot_message_args n buf1 pos1) as [[args buf2] pos2]. simpl in *.
    split; [lia|]. constructor.
    + exists (strdup tok). split; [done|].
      unfold strdup. pose proof (cstr_length tok). lia.
    + rewrite <- Hlen. done.
Qed.

Section with_layout.
Context `{layout}.

(** X15 (bounds).  What [get_args] returns when the process has supplied
    no argument: at most [MAX_ARGS] entries, each argument a string that
    is shorter than [MAX_ARG_LENGTH] (command file) or within the recovery
    field (control block). *)
Lemma get_args_truncation_bound argv st argv' st' :
  length argv ≤ 1 →
  get_args argv st = Returned (argv', st') →
  length argv' ≤ MAX_ARGS
  ∧ Forall (λ a, ∃ s, a = Some s
                      ∧ (length s < MAX_ARG_LENGTH ∨ length s ≤ recovery_size))
      (drop 1 argv').
Proof.
  intros Hargc. unfold get_args.
  destruct (get_bootloader_message zero_message st) as [[r boot] st1] eqn:Eget.
  apply get_bootloader_message_spec in Eget as [(_ & _ & Hrec) _].
  set (st3 := if not_blank (status boot) then _ else _). clearbody st3.
  assert (Hboot : ∀ argv1 boot1 st4,
            args_from_boot_message boot argv st3 = (argv1, boot1, st4) →
            length argv1 ≤ MAX_ARGS
            ∧ Forall (λ a, ∃ s, a = Some s ∧ length s ≤ recovery_size) (drop 1 argv1)).
  { intros argv1 boot1 st4. unfold args_from_boot_message.
    rewrite bool_decide_eq_true_2 by done.
    pose proof (strtok_length (<[recovery_size - 1:=NUL]> (recovery boot)) 0 [LF]) as Hl.
    rewrite length_insert, Hrec in Hl.
    destruct (strtok _ 0 [LF]) as [[arg rec] pos]. simpl in Hl.
    assert (Hsame : length argv ≤ MAX_ARGS
                    ∧ Forall (λ a, ∃ s, a = Some s ∧ length s ≤ recovery_size)
                        (drop 1 argv)).
    { split; [unfold MAX_ARGS; lia|]. rewrite drop_ge by lia. constructor. }
    destruct arg as [a|]; [|by intros [= <- <- <-]].
    destruct (strcmp_eq a (str "recovery")); [|by intros [= <- <- <-]].
    destruct (boot_message_args_bound (MAX_ARGS - 1) rec pos) as [Hn Hall].
    destruct (boot_message_args _ rec pos) as [[args rec'] pos']. simpl in *.
    intros [= <- <- <-]. split; [unfold MAX_ARGS in *; simpl; lia|].
    simpl. rewrite drop_0. by rewrite <- Hl. }
  destruct (args_from_boot_message boot argv st3) as [[argv1 boot1] st4] eqn:Eboot.
  specialize (Hboot _ _ _ eq_refl) as [Hlen1 Hall1].
  unfold args_from_command_file.
  assert (Hwb : ∀ argv2 st5, write_back_args boot1 argv2 st5 = Returned (argv', st') →
                             argv' = argv2).
  { intros argv2 st5. unfold write_back_args.
    destruct (append_args _ _); [|done].
    destruct (set_bootloader_message _ _). by intros [= <- _]. }
  assert (Hweak : Forall (λ a, ∃ s, a = Some s
                            ∧ (length s < MAX_ARG_LENGTH ∨ length s ≤ recovery_size))
                    (drop 1 argv1)).
  { eapply Forall_impl; [exact Hall1|]. intros a (s & -> & Hs). eauto. }
  case_bool_decide as Hshort; [|by intros ->%Hwb].
  destruct (fopen_root_path COMMAND_FILE "r" st4) as [[fp|] st5]; [|by intros ->%Hwb].
  destruct (command_file_args _ _ _) as [args|] eqn:Ec; [|done].
  apply command_file_args_bound in Ec as [Hn Hall].
  intros ->%Hwb. split; [unfold MAX_ARGS in *; simpl; lia|].
  simpl. rewrite drop_0.
  eapply Forall_impl; [exact Hall|]. intros a (s & -> & Hs). eauto.
Qed.

End with_layout.

Lemma get_args_truncation_bound_witness :
  length (returned ([], factory_reset_state) factory_reset_armed).1 ≤ MAX_ARGS.
Proof.
  destruct (@get_args_truncation_bound example_layout [Some (str "recovery")]
              factory_reset_state
              (returned ([], factory_reset_state) factory_reset_armed).1
              (returned ([], factory_reset_state) factory_reset_armed).2)
    as [Hlen _].
  - simpl. lia.
  - vm_compute. reflexivity.
  - exact Hlen.
Defined.

(** ** Further examples *)

(** A blank line further down in the command file has the same effect. *)
Example blank_second_line_null_deref :
  @get_args example_layout [Some (str "recovery")]
    (example_state (replicate 1024 NUL) (Some blank_line_file) [])
  = NullDeref.
Proof. vm_compute. reflexivity. Qed.

(** A line of 4096 characters is not cut: what does not fit in the buffer
    is the next argument. *)
Example long_line_is_split :
  (returned ([], example_state [] None [])
     (@get_args example_layout [Some (str "recovery")]
        (example_state (replicate 1024 NUL)
           (Some (replicate 4096 "a"%char ++ [LF])) []))).1
  = [Some (str "recovery"); Some (replicate 4095 "a"%char); Some (str "a")].
Proof. vm_compute. reflexivity. Qed.

(** ** The arguments of the control block *)




Lemma strcspn_app a d r delim :
  Forall (λ c, c ∉ delim) a → d ∈ delim → strcspn (a ++ d :: r) delim = length a.
Proof.
  intros Ha Hd. induction Ha as [|c a Hc Ha IH]; cbn [app strcspn length].
  - by rewrite bool_decide_eq_true_2.
  - rewrite bool_decide_eq_false_2 by done. by rewrite IH.
Qed.





Section with_layout.
Context `{layout}.

Lemma append_args_returns xs : ∀ rec,
  ∃ rec', append_args (Some <$> xs) rec = Returned rec'.
Proof.
  induction xs as [|x xs IH]; intros rec; simpl; [by eexists|]. apply IH.
Qed.

Lemma write_back_args_returns boot xs a0 st :
  ∃ st', write_back_args boot (a0 :: (Some <$> xs)) st
         = Returned (a0 :: (Some <$> xs), st').
Proof.
  unfold write_back_args. change (drop 1 (a0 :: (Some <$> xs))) with (Some <$> xs).
  destruct (append_args_returns xs
              (strlcpy (recovery boot) (str "recovery" ++ [LF]) recovery_size))
    as [rec' ->].
  destruct (set_bootloader_message _ st) as [r st']. by exists st'.
Qed.


(** What the control block holds when [get_args] has returned. *)
Lemma get_args_written argv st argv' st' :
  get_args argv st = Returned (argv', st') →
  misc_read_ok st' = misc_read_ok st
  ∧ misc_write_ok st' = misc_write_ok st
  ∧ ∃ args,
      drop 1 argv' = Some <$> args
      ∧ (misc_write_ok st = true →
         cstr (recovery (misc st'))
         = take (recovery_size - 1)
             (str "recovery" ++ [LF] ++ concat ((λ a, cstr a ++ [LF]) <$> args))).
Proof.
  unfold get_args.
  destruct (get_bootloader_message zero_message st) as [[r boot] st1] eqn:Eget.
  apply get_bootloader_message_spec in Eget as [Hboot Hst1].
  set (st2 := if not_blank (command boot) then _ else st1).
  set (st3 := if not_blank (status boot) then _ else st2).
  assert (Hst3 : forget_log st3 = forget_log st).
  { unfold st3, st2. by destruct (not_blank (command boot)), (not_blank (status boot)). }
  clearbody st3. clear st2.
  destruct (args_from_boot_message boot argv st3) as [[argv1 boot1] st4] eqn:Eboot.
  apply args_from_boot_message_spec in Eboot as (Hc & Hs & Hr & Hst4).
  destruct (args_from_command_file argv1 st4) as [[argv2 st5]|] eqn:Efile; [|done].
  apply args_from_command_file_spec in Efile as Hst5.
  assert (Hboot1 : in_struct boot1).
  { destruct Hboot as (? & ? & ?). unfold in_struct. rewrite Hc, Hs, Hr. done. }
  intros Hwb. apply write_back_args_spec in Hwb
    as (-> & Hread & _ & args & b & Hargs & Hb & Hcmd & Hrec & Hset); [|done].
  assert (Hst5' : forget_log st5 = forget_log st) by congruence.
  apply forget_log_fields in Hst5' as (_ & Hr5 & Hw5 & _).
  unfold set_bootloader_message in Hset. rewrite Hw5 in Hset.
  split; [congruence|]. split.
  { destruct (misc_write_ok st); injection Hset as <-; simpl; congruence. }
  exists args. split; [done|]. intros Hw. rewrite Hw in Hset.
  injection Hset as <-.
  assert (Hm : misc (set_misc (in_layout b) st5) = b)
    by (by rewrite <- (in_layout_id b) at 2).
  by rewrite Hm.
Qed.





End with_layout.



(** ** The arguments of the command file *)

Lemma not_blank_false buf :
  not_blank buf = false ↔ match buf with [] => True | c :: _ => c = NUL ∨ c = xFF end.
Proof.
  destruct buf as [|c r]; [done|]. cbn [not_blank].
  rewrite andb_false_iff, !bool_decide_eq_false.
  split; (intros [Hc|Hc]; [left|right]).
  - by destruct (decide (c = NUL)).
  - by destruct (decide (c = xFF)).
  - by intros ?.
  - by intros ?.
Qed.

Lemma not_blank_insert_nul i buf :
  not_blank buf = false → not_blank (<[i := NUL]> buf) = false.
Proof.
  rewrite !not_blank_false. destruct buf as [|c r], i as [|i]; simpl; auto.
Qed.

Lemma not_blank_resize n buf :
  not_blank buf = false → not_blank (resize n NUL buf) = false.
Proof.
  rewrite !not_blank_false. destruct n as [|n], buf as [|c r]; simpl; auto.
Qed.

(** [strtok] on a buffer that starts with [NUL] or with [255]. *)
Lemma strtok_blank buf delim :
  not_blank buf = false → xFF ∉ delim →
  not_blank (strtok buf 0 delim).1.2 = false
  ∧ ∀ t, (strtok buf 0 delim).1.1 = Some t → ∃ t', t = xFF :: t'.
Proof.
  intros Hb Hd. pose proof Hb as Hb'. apply not_blank_false in Hb'.
  unfold strtok. rewrite drop_0.
  destruct buf as [|c r]; [done|].
  destruct Hb' as [->| ->].
  { cbn [cstr]. rewrite bool_decide_eq_true_2 by done. done. }
  cbn [cstr]. rewrite bool_decide_eq_false_2 by (unfold xFF, NUL; done).
  cbn [strspn]. rewrite (bool_decide_eq_false_2 (xFF ∈ delim)) by done.
  rewrite drop_0. cbn [strcspn].
  rewrite (bool_decide_eq_false_2 (xFF ∈ delim)) by done.
  case_bool_decide; cbn [fst snd].
  - split; [done|]. intros t [= <-]. by eexists.
  - split; [done|]. intros t [= <-]. by eexists.
Qed.

(** What [strtok] yields on a line of the command file. *)
Lemma strtok_command_line l :
  l.1 ≠ [] → Forall (λ c, c ∉ [NUL; CR; LF]) l.1 →
  (strtok (command_line l) 0 [CR; LF]).1.1 = Some l.1.
Proof.
  destruct l as [a cr]. cbn [fst snd]. intros Hne Ha.
  assert (Hnul : Forall (λ c, c ≠ NUL) (command_line (a, cr))).
  { unfold command_line. cbn [fst snd]. apply Forall_app. split.
    - eapply Forall_impl; [exact Ha|]. intros c Hc ->. apply Hc. left.
    - by destruct cr; repeat constructor. }
  assert (Hdelim : Forall (λ c, c ∉ [CR; LF]) a).
  { eapply Forall_impl; [exact Ha|]. intros c Hc Hin. apply Hc. by right. }
  unfold strtok. rewrite drop_0, (cstr_of_nul_free _ Hnul).
  unfold command_line. cbn [fst snd].
  assert (Hrest : ∃ d r, (if cr then [CR] else []) ++ [LF] = d :: r ∧ d ∈ [CR; LF]).
  { destruct cr; eexists _, _; (split; [reflexivity|]).
    - left.
    - right. left. }
  destruct Hrest as (d & r & -> & Hd).
  assert (Hspn : strspn (a ++ d :: r) [CR; LF] = 0).
  { destruct a as [|c a]; [done|]. cbn [app strspn].
    rewrite bool_decide_eq_false_2; [done|]. by inversion Hdelim. }
  rewrite Hspn, drop_0, strcspn_app by done.
  destruct (a ++ d :: r) as [|c s] eqn:E; [by destruct a|].
  rewrite <- E. case_bool_decide; cbn [fst]; by rewrite take_app_length.
Qed.

Lemma fgets_command_line pre l rest :
  Forall (λ c, c ∉ [NUL; CR; LF]) l.1 →
  length (command_line l) < MAX_ARG_LENGTH →
  fgets MAX_ARG_LENGTH (pre ++ command_line l ++ rest) (length pre)
  = Some (command_line l, length (pre ++ command_line l)).
Proof.
  destruct l as [a cr]. cbn [fst]. intros Ha Hlen.
  unfold fgets. rewrite drop_app_length.
  assert (Hn : strcspn (command_line (a, cr) ++ rest) [LF]
               = length (a ++ if cr then [CR] else [])).
  { unfold command_line. cbn [fst snd]. rewrite app_assoc, <- app_assoc.
    apply strcspn_app; [|left].
    apply Forall_app. split.
    - eapply Forall_impl; [exact Ha|]. intros c Hc Hin. apply Hc.
      apply list_elem_of_singleton in Hin as ->. right. right. left.
    - destruct cr; repeat constructor.
      by intros [=]%list_elem_of_singleton. }
  destruct (command_line (a, cr) ++ rest) as [|c s] eqn:E.
  { unfold command_line in E. cbn [fst snd] in E.
    by destruct a, cr. }
  cbv zeta. rewrite Hn, <- E.
  assert (Hl : S (length (a ++ if cr then [CR] else [])) = length (command_line (a, cr))).
  { unfold command_line. cbn [fst snd]. rewrite app_assoc, !length_app. simpl. lia. }
  rewrite Hl, Nat.min_l by (unfold MAX_ARG_LENGTH in *; lia).
  rewrite take_app_length. by rewrite length_app.
Qed.

(** The loop of lines 198-201 on a file of well-formed lines. *)
Lemma command_file_args_lines ls : ∀ n pre,
  Forall (λ l, l.1 ≠ [] ∧ Forall (λ c, c ∉ [NUL; CR; LF]) l.1
               ∧ length (command_line l) < MAX_ARG_LENGTH) ls →
  command_file_args n (pre ++ command_text ls) (length pre)
  = Returned (Some <$> take n ls.*1).
Proof.
  induction ls as [|l ls IH]; intros n pre Hls.
  - rewrite fmap_nil, take_nil. destruct n as [|n]; cbn [command_file_args]; [done|].
    unfold command_text, fgets. cbn [fmap list_fmap concat].
    by rewrite app_nil_r, drop_all.
  - destruct n as [|n]; cbn [command_file_args]; [done|].
    apply Forall_cons in Hls as [(Hne & Ha & Hlen) Hls].
    unfold command_text. rewrite fmap_cons. cbn [concat].
    fold (command_text ls).
    rewrite fgets_command_line by done.
    pose proof (strtok_command_line l Hne Ha) as Htok.
    destruct (strtok (command_line l) 0 [CR; LF]) as [[tok buf] pos].
    cbn [fst] in Htok. subst tok.
    rewrite app_assoc, IH by done.
    rewrite fmap_cons. cbn [take fmap list_fmap]. do 3 f_equal.
    unfold strdup. apply cstr_of_nul_free.
    eapply Forall_impl; [exact Ha|]. intros c Hc ->. apply Hc. left.
Qed.

Section with_layout.
Context `{layout}.

(** A record whose recovery field starts with [NUL] or with [255] holds
    no arguments, and is not reported. *)
Lemma args_from_boot_message_blank boot argv st :
  not_blank (recovery boot) = false →
  ∃ boot', args_from_boot_message boot argv st = (argv, boot', st).
Proof.
  intros Hb. unfold args_from_boot_message. case_bool_decide; [|by eexists].
  pose proof (strtok_blank (<[recovery_size - 1 := NUL]> (recovery boot)) [LF]
                (not_blank_insert_nul _ _ Hb)) as [Hbuf Htok].
  { unfold xFF, LF. by intros [=]%list_elem_of_singleton. }
  destruct (strtok _ 0 [LF]) as [[arg rec] pos]. cbn [fst snd] in *.
  rewrite Hbuf. destruct arg as [a|]; [|by eexists].
  destruct (Htok a eq_refl) as [t' ->].
  assert (strcmp_eq (xFF :: t') (str "recovery") = false) as ->; [|by eexists].
  unfold strcmp_eq. apply bool_decide_eq_false. cbn [cstr].
  rewrite bool_decide_eq_false_2 by (unfold xFF, NUL; done).
  vm_compute. by intros [=].
Qed.

(** What [get_args] does when the control block supplies no argument. *)
Lemma get_args_no_boot_message argv st :
  misc_read_ok st = false ∨ not_blank (recovery (misc st)) = false →
  ∃ boot st1,
    in_struct boot
    ∧ forget_log st1 = forget_log st
    ∧ get_args argv st
      = match args_from_command_file argv st1 with
        | Returned (argv', st') => write_back_args boot argv' st'
        | NullDeref => NullDeref
        end.
Proof.
  intros Hcase. unfold get_args.
  destruct (get_bootloader_message zero_message st) as [[r boot] st1] eqn:Eget.
  assert (Hblank : not_blank (recovery boot) = false).
  { unfold get_bootloader_message in Eget. destruct (misc_read_ok st).
    - injection Eget as <- <- <-. destruct Hcase as [?|Hb]; [done|].
      unfold in_layout. cbn [recovery]. by apply not_blank_resize.
    - injection Eget as <- <- <-. apply not_blank_replicate_nul. }
  apply get_bootloader_message_spec in Eget as [Hboot Hst1].
  set (st2 := if not_blank (command boot) then _ else st1).
  set (st3 := if not_blank (status boot) then _ else st2).
  assert (Hst3 : forget_log st3 = forget_log st).
  { unfold st3, st2. by destruct (not_blank (command boot)), (not_blank (status boot)). }
  clearbody st3. clear st2.
  destruct (args_from_boot_message_blank boot argv st3 Hblank) as [boot' Hb].
  pose proof (args_from_boot_message_spec _ _ _ _ _ _ Hb) as (Hc & Hs & Hr & _).
  rewrite Hb. exists boot', st3. split; [|done].
  destruct Hboot as (? & ? & ?). unfold in_struct. by rewrite Hc, Hs, Hr.
Qed.

(** X13 (the arguments of the command file).  When neither the process
    nor the control block (which cannot be read, or whose recovery field
    starts with 0 or 255) supplies arguments, and each line of the command
    file is a non-empty argument ended by LF or CR LF and shorter than the
    line buffer, [get_args] returns the arguments of the first
    [MAX_ARGS - 1] lines, without their line ends, after the program
    name. *)
Theorem get_args_reads_command_file argv st ls :
  length argv ≤ 1 →
  misc_read_ok st = false ∨ not_blank (recovery (misc st)) = false →
  "CACHE:"%string ∈ mountable st →
  fs st !! "/cache/recovery/command"%string = Some (command_text ls) →
  Forall (λ l, l.1 ≠ [] ∧ Forall (λ c, c ∉ [NUL; CR; LF]) l.1
               ∧ length (command_line l) < MAX_ARG_LENGTH) ls →
  ∃ st', get_args argv st
         = Returned (default None (argv !! 0)
                     :: (Some <$> take (MAX_ARGS - 1) ls.*1), st')
    ∧ fs st' = fs st.
Proof.
  intros Hargc Hblank Hmount Hfile Hls.
  destruct (get_args_no_boot_message argv st Hblank) as (boot & st1 & Hboot & Hst1 & ->).
  apply forget_log_fields in Hst1 as (_ & _ & _ & Hfs & Hmnt & _).
  unfold args_from_command_file. rewrite bool_decide_eq_true_2 by done.
  rewrite (fopen_command_file st1 (command_text ls)) by congruence.
  rewrite Hfs, Hfile. change (default [] (Some ?c)) with c.
  pose proof (command_file_args_lines ls (MAX_ARGS - 1) [] Hls) as Hc.
  cbn [app length] in Hc. rewrite Hc.
  destruct (write_back_args_returns boot (take (MAX_ARGS - 1) ls.*1)
              (default None (argv !! 0))
              (add_log (LOGI "Got arguments from %s\n")
                 (check_and_fclose "/cache/recovery/command" st1))) as [st' Hwb].
  exists st'. split; [done|].
  apply write_back_args_spec in Hwb as (_ & _ & Hfs' & _); [|done].
  rewrite Hfs'. done.
Qed.

(** [get_args] when no source supplies arguments. *)
Lemma get_args_nothing argv st :
  length argv ≤ 1 →
  misc_read_ok st = false ∨ not_blank (recovery (misc st)) = false →
  "CACHE:"%string ∉ mountable st
  ∨ fs st !! "/cache/recovery/command"%string = None →
  ∃ st', get_args argv st = Returned (argv, st') ∧ fs st' = fs st.
Proof.
  intros Hargc Hblank Hnofile.
  destruct (get_args_no_boot_message argv st Hblank) as (boot & st1 & Hboot & Hst1 & Hget).
  apply forget_log_fields in Hst1 as (_ & _ & Hw1 & Hfs & Hmnt & _).
  assert (Hopen : ∃ st2, fopen_root_path COMMAND_FILE "r" st1 = (None, st2)
                         ∧ forget_log st2 = forget_log st1).
  { unfold fopen_root_path, ensure_root_path_mounted.
    change (split_root_path COMMAND_FILE)
      with (Some ("CACHE:"%string, "recovery/command"%string)).
    cbn beta iota. rewrite Hmnt.
    destruct (decide ("CACHE:"%string ∈ mountable st)) as [Hm|Hm].
    - destruct Hnofile as [?|Hf]; [done|].
      rewrite (bool_decide_eq_true_2 _ Hm).
      rewrite bool_decide_eq_false_2 by (by intros ?).
      change (translate_root_path COMMAND_FILE)
        with (Some "/cache/recovery/command"%string).
      cbn beta iota. unfold fopen. simpl. rewrite Hfs, Hf. by eexists.
    - rewrite (bool_decide_eq_false_2 _ Hm).
      rewrite bool_decide_eq_true_2 by (by intros ?). by eexists. }
  destruct Hopen as (st2 & Hopen & Hst2).
  apply forget_log_fields in Hst2 as (_ & _ & Hw2 & Hfs2 & _).
  unfold args_from_command_file in Hget.
  rewrite bool_decide_eq_true_2, Hopen in Hget by done.
  assert (Hdrop : drop 1 argv = Some <$> []).
  { by destruct argv as [|a [|b argv]]; simpl in Hargc; [| |lia]. }
  assert (Hret : ∃ st', write_back_args boot argv st2 = Returned (argv, st')).
  { unfold write_back_args. rewrite Hdrop.
    destruct (append_args_returns []
                (strlcpy (recovery boot) (str "recovery" ++ [LF]) recovery_size))
      as [rec' ->].
    destruct (set_bootloader_message _ st2) as [r st']. by exists st'. }
  destruct Hret as [st' Hwb]. exists st'. split; [congruence|].
  apply write_back_args_spec in Hwb as (_ & _ & Hfs' & _); [|done].
  congruence.
Qed.

(** The command that the control block holds when [get_args] has
    returned. *)
Lemma get_args_command_written argv st argv' st' :
  get_args argv st = Returned (argv', st') →
  misc_write_ok st = true →
  cstr (command (misc st')) = take (command_size - 1) (str "boot-recovery").
Proof.
  unfold get_args.
  destruct (get_bootloader_message zero_message st) as [[r boot] st1] eqn:Eget.
  apply get_bootloader_message_spec in Eget as [Hboot Hst1].
  set (st2 := if not_blank (command boot) then _ else st1).
  set (st3 := if not_blank (status boot) then _ else st2).
  assert (Hst3 : forget_log st3 = forget_log st).
  { unfold st3, st2. by destruct (not_blank (command boot)), (not_blank (status boot)). }
  clearbody st3. clear st2.
  destruct (args_from_boot_message boot argv st3) as [[argv1 boot1] st4] eqn:Eboot.
  apply args_from_boot_message_spec in Eboot as (Hc & Hs & Hr & Hst4).
  destruct (args_from_command_file argv1 st4) as [[argv2 st5]|] eqn:Efile; [|done].
  apply args_from_command_file_spec in Efile as Hst5.
  assert (Hboot1 : in_struct boot1).
  { destruct Hboot as (? & ? & ?). unfold in_struct. rewrite Hc, Hs, Hr. done. }
  intros Hwb Hw. apply write_back_args_spec in Hwb
    as (_ & _ & _ & args & b & _ & Hb & Hcmd & _ & Hset); [|done].
  assert (Hst5' : forget_log st5 = forget_log st) by congruence.
  apply forget_log_fields in Hst5' as (_ & _ & Hw5 & _).
  unfold set_bootloader_message in Hset. rewrite Hw5, Hw in Hset.
  injection Hset as <-.
  assert (Hm : misc (set_misc (in_layout b) st5) = b)
    by (by rewrite <- (in_layout_id b) at 2).
  by rewrite Hm.
Qed.

(** X14 (no arguments at all).  When neither the process nor the control
    block supplies arguments and there is no command file (or the cache
    cannot be mounted), [get_args] returns the arguments of the process
    as they are; it still writes the control block: the command
    [boot-recovery] and the line [recovery], so that the device boots
    into recovery until [finish_recovery] is called. *)
Theorem get_args_no_arguments argv st :
  length argv ≤ 1 →
  misc_read_ok st = false ∨ not_blank (recovery (misc st)) = false →
  "CACHE:"%string ∉ mountable st
  ∨ fs st !! "/cache/recovery/command"%string = None →
  ∃ st', get_args argv st = Returned (argv, st')
    ∧ fs st' = fs st
    ∧ (misc_write_ok st = true →
       cstr (command (misc st')) = take (command_size - 1) (str "boot-recovery")
       ∧ cstr (recovery (misc st')) = take (recovery_size - 1) (str "recovery" ++ [LF])).
Proof.
  intros Hargc Hblank Hnofile.
  destruct (get_args_nothing argv st) as (st' & Hget & Hfs); [done..|].
  exists st'. split; [done|]. split; [done|]. intros Hw. split.
  - by eapply get_args_command_written.
  - apply get_args_written in Hget as (_ & _ & args & Hargs & Hrec).
    rewrite (Hrec Hw).
    assert (args = []) as ->; [|by rewrite app_nil_r].
    destruct argv as [|a [|b argv]]; simpl in Hargc, Hargs; [by destruct args..|lia].
Qed.

End with_layout.

Lemma get_args_reads_command_file_witness :
  ∃ st', @get_args example_layout [Some (str "recovery")]
           (example_state (replicate 1024 xFF)
              (Some (command_text [(str "--update_package=CACHE:update.zip", true);
                                   (str "--wipe_cache", false)])) [])
         = Returned ([Some (str "recovery");
                      Some (str "--update_package=CACHE:update.zip");
                      Some (str "--wipe_cache")], st').
Proof.
  destruct (@get_args_reads_command_file example_layout [Some (str "recovery")]
              (example_state (replicate 1024 xFF)
                 (Some (command_text [(str "--update_package=CACHE:update.zip", true);
                                      (str "--wipe_cache", false)])) [])
              [(str "--update_package=CACHE:update.zip", true);
               (str "--wipe_cache", false)]) as (st' & Hget & _).
  - simpl. lia.
  - right. reflexivity.
  - apply list_elem_of_singleton. reflexivity.
  - vm_compute. reflexivity.
  - apply (bool_decide_unpack _). vm_compute. exact I.
  - exists st'. exact Hget.
Defined.

Lemma get_args_no_arguments_witness :
  ∃ st', @get_args example_layout [Some (str "recovery")]
           (example_state (replicate 1024 NUL) None [])
         = Returned ([Some (str "recovery")], st')
    ∧ cstr (recovery (misc st')) = str "recovery" ++ [LF].
Proof.
  destruct (@get_args_no_arguments example_layout [Some (str "recovery")]
              (example_state (replicate 1024 NUL) None [])) as (st' & Hget & _ & Hmisc).
  - simpl. lia.
  - right. reflexivity.
  - right. reflexivity.
  - exists st'. split; [exact Hget|]. destruct (Hmisc eq_refl) as [_ Hrec]. exact Hrec.
Defined.

(** ** finish_recovery: further properties *)

Lemma fopen_root_path_unmounted root_path rest mode st :
  split_root_path root_path = Some ("CACHE:"%string, rest) →
  ¬ mounted st →
  fopen_root_path root_path mode st = (None, add_log (LOGE "Can't mount %s\n") st).
Proof.
  intros Hs Hm. rewrite (fopen_root_path_cache _ rest) by done.
  by rewrite bool_decide_eq_false_2.
Qed.

Section with_layout.
Context `{layout}.

(** X16 (the end of a recovery).  After [finish_recovery], when the
    control block could be written, a call of [get_args] with no process
    arguments finds no arguments: the control block is blank and the
    command file is gone (or the cache cannot be mounted); the recovery
    does not repeat. *)
Theorem finish_recovery_ends_recovery i st argv :
  length argv ≤ 1 →
  misc_write_ok st = true →
  ∃ st', get_args argv (finish_recovery i st) = Returned (argv, st')
    ∧ fs st' = fs (finish_recovery i st).
Proof.
  intros Hargc Hw.
  destruct (finish_recovery_spec i st) as (Hmn & _ & _ & _ & Hmisc & _ & _ & Hcmd).
  cbv zeta in *. rewrite Hw in Hmisc.
  destruct (get_args_nothing argv (finish_recovery i st)) as (st' & Hget & Hfs).
  - done.
  - right. rewrite Hmisc. apply not_blank_replicate_nul.
  - destruct (decide ("CACHE:"%string ∈ mountable st)) as [Hm|Hm].
    + right. by apply Hcmd.
    + left. by rewrite Hmn.
  - by exists st'.
Qed.

(** X17 (no cache).  When the cache root cannot be mounted,
    [finish_recovery] changes no file and does not move the offset into
    the temporary log; it still resets the control block (when the device
    accepts the write), and it logs an error for each file it could not
    open and a warning for the command file it could not remove. *)
Theorem finish_recovery_without_cache i st :
  "CACHE:"%string ∉ mountable st →
  let st' := finish_recovery i st in
  fs st' = fs st
  ∧ tmplog_offset st' = tmplog_offset st
  ∧ misc st' = (if misc_write_ok st then zero_message else misc st)
  ∧ logged st'
    = logged st
      ++ (match i with
          | Some _ => [LOGE "Can't mount %s\n"; LOGE "Can't open %s\n"]
          | None => []
          end)
      ++ [LOGE "Can't mount %s\n"; LOGE "Can't open %s\n"]
      ++ (if misc_write_ok st then [] else [LOGE "Can't write bootloader message\n"])
      ++ [LOGW "Can't unlink %s\n"].
Proof.
  intros Hm st'. unfold st', finish_recovery.
  set (st1 := write_intent i st).
  assert (H1 : fs st1 = fs st ∧ tmplog_offset st1 = tmplog_offset st
               ∧ misc st1 = misc st ∧ misc_write_ok st1 = misc_write_ok st
               ∧ mountable st1 = mountable st
               ∧ logged st1 = logged st
                   ++ (match i with
                       | Some _ => [LOGE "Can't mount %s\n"; LOGE "Can't open %s\n"]
                       | None => []
                       end)).
  { unfold st1, write_intent. destruct i as [intent|].
    - rewrite (fopen_root_path_unmounted INTENT_FILE "recovery/intent") by done.
      simpl. by rewrite <- app_assoc.
    - by rewrite app_nil_r. }
  destruct H1 as (Hfs1 & Ho1 & Hmi1 & Hw1 & Hmn1 & Hl1). clearbody st1.
  set (st2 := copy_tmplog st1).
  assert (H2 : fs st2 = fs st1 ∧ tmplog_offset st2 = tmplog_offset st1
               ∧ misc st2 = misc st1 ∧ misc_write_ok st2 = misc_write_ok st1
               ∧ mountable st2 = mountable st1
               ∧ logged st2 = logged st1
                   ++ [LOGE "Can't mount %s\n"; LOGE "Can't open %s\n"]).
  { unfold st2, copy_tmplog.
    rewrite (fopen_root_path_unmounted LOG_FILE "recovery/log")
      by (done || unfold mounted; by rewrite Hmn1).
    simpl. by rewrite <- app_assoc. }
  destruct H2 as (Hfs2 & Ho2 & Hmi2 & Hw2 & Hmn2 & Hl2). clearbody st2.
  unfold set_bootloader_message. rewrite Hw2, Hw1.
  destruct (misc_write_ok st) eqn:Ew; rewrite remove_command_file_eq.
  - rewrite bool_decide_eq_false_2
      by (unfold mounted; simpl; by rewrite Hmn2, Hmn1).
    simpl. rewrite Hl2, Hl1, <- !app_assoc.
    split_and!; try congruence; [apply in_layout_id, zero_message_in_struct|done].
  - rewrite bool_decide_eq_false_2
      by (unfold mounted; simpl; by rewrite Hmn2, Hmn1).
    simpl. rewrite Hl2, Hl1, <- !app_assoc.
    split_and!; try congruence. done.
Qed.

(** X18 (the intent).  When the cache root can be mounted,
    [finish_recovery] leaves the intent it is given as the whole contents
    of the intent file, whatever the file held before; given no intent it
    leaves the file as it is. *)
Theorem finish_recovery_writes_intent i st :
  "CACHE:"%string ∈ mountable st →
  fs (finish_recovery i st) !! "/cache/recovery/intent"%string
  = match i with
    | Some intent => Some (cstr intent)
    | None => fs st !! "/cache/recovery/intent"%string
    end.
Proof.
  intros Hm. unfold finish_recovery.
  set (st1 := write_intent i st).
  assert (H1 : fs st1 !! "/cache/recovery/intent"%string
               = match i with
                 | Some intent => Some (cstr intent)
                 | None => fs st !! "/cache/recovery/intent"%string
                 end).
  { unfold st1, write_intent. destruct i as [intent|]; [|done].
    rewrite (fopen_root_path_cache INTENT_FILE "recovery/intent") by done.
    rewrite bool_decide_eq_true_2 by done.
    change (String.append _ _) with "/cache/recovery/intent"%string.
    unfold fopen. change ("w" =? "r")%string with false.
    change ("w" =? "w")%string with true. cbn beta iota.
    unfold check_and_fclose, fputs. simpl.
    rewrite lookup_insert_eq. simpl. by rewrite lookup_insert_eq. }
  clearbody st1.
  destruct (copy_tmplog_spec st1) as ((_ & _ & _ & _ & Hfs2) & _).
  set (st2 := copy_tmplog st1) in *.
  destruct (set_bootloader_message zero_message st2) as [r st3] eqn:Eset.
  apply set_zero_message_spec in Eset as (Hfs3 & _).
  destruct (remove_command_file_spec st3) as ((_ & _ & _ & _ & Hfs4) & _).
  assert (Hne : ∀ p q : string, p ≠ q → p ∉ [q])
    by (by intros p q ? [?|?%elem_of_nil]%elem_of_cons).
  rewrite Hfs4, Hfs3, Hfs2 by (by apply Hne). done.
Qed.

(** X19 (the persistent log).  When the cache root can be mounted and the
    temporary log holds no [NUL], [finish_recovery] appends to the
    persistent log exactly what the temporary log holds beyond the offset
    of the last copy, and moves the offset to the end of the temporary
    log: what was in the persistent log stays, and nothing is copied
    twice. *)
Theorem finish_recovery_appends_log i st content :
  "CACHE:"%string ∈ mountable st →
  fs st !! "/tmp/recovery.log"%string = Some content →
  Forall (λ c, c ≠ NUL) content →
  let st' := finish_recovery i st in
  fs st' !! "/cache/recovery/log"%string
  = Some (default [] (fs st !! "/cache/recovery/log"%string)
          ++ drop (tmplog_offset st) content)
  ∧ tmplog_offset st' = tmplog_offset st `max` length content.
Proof.
  intros Hm Hc Hnul st'. unfold st', finish_recovery.
  destruct (write_intent_spec i st) as ((_ & _ & _ & Hmn1 & Hfs1) & Ho1 & _).
  set (st1 := write_intent i st) in *.
  assert (Hne : ∀ p q : string, p ≠ q → p ∉ [q])
    by (by intros p q ? [?|?%elem_of_nil]%elem_of_cons).
  destruct (copy_tmplog_appends st1 content) as [Hlog Hoff].
  { unfold mounted. by rewrite Hmn1. }
  { rewrite Hfs1 by (by apply Hne). done. }
  { done. }
  rewrite Hfs1, Ho1 in Hlog by (by apply Hne). rewrite Ho1 in Hoff.
  set (st2 := copy_tmplog st1) in *.
  destruct (set_bootloader_message zero_message st2) as [r st3] eqn:Eset.
  apply set_zero_message_spec in Eset as (Hfs3 & _ & _ & _ & Ho3 & _).
  destruct (remove_command_file_spec st3) as ((_ & _ & _ & _ & Hfs4) & Ho4 & _).
  rewrite Hfs4, Hfs3 by (by apply Hne). rewrite Ho4, Ho3. done.
Qed.

End with_layout.

Lemma finish_recovery_ends_recovery_witness :
  ∃ st', @get_args example_layout [Some (str "recovery")]
           (@finish_recovery example_layout None
              (returned ([], factory_reset_state) factory_reset_armed).2)
         = Returned ([Some (str "recovery")], st').
Proof.
  destruct (@finish_recovery_ends_recovery example_layout None
              (returned ([], factory_reset_state) factory_reset_armed).2
              [Some (str "recovery")]) as (st' & Hget & _).
  - simpl. lia.
  - reflexivity.
  - exists st'. exact Hget.
Defined.

Lemma finish_recovery_without_cache_witness :
  fs (@finish_recovery example_layout (Some (str "done"))
        (unmountable factory_reset_state))
  = fs factory_reset_state
  ∧ misc (@finish_recovery example_layout (Some (str "done"))
            (unmountable factory_reset_state))
    = @zero_message example_layout.
Proof.
  destruct (@finish_recovery_without_cache example_layout (Some (str "done"))
              (unmountable factory_reset_state)) as (Hfs & _ & Hmisc & _).
  - apply not_elem_of_nil.
  - split; [exact Hfs|exact Hmisc].
Defined.

Lemma finish_recovery_writes_intent_witness :
  fs (@finish_recovery example_layout (Some (str "done")) factory_reset_state)
    !! "/cache/recovery/intent"%string
  = Some (str "done").
Proof.
  apply (@finish_recovery_writes_intent example_layout (Some (str "done"))
           factory_reset_state).
  apply list_elem_of_singleton. reflexivity.
Defined.

Lemma finish_recovery_appends_log_witness :
  fs (@finish_recovery example_layout None factory_reset_state)
    !! "/cache/recovery/log"%string
  = Some (str "Starting recovery" ++ [LF]).
Proof.
  destruct (@finish_recovery_appends_log example_layout None factory_reset_state
              (str "Starting recovery" ++ [LF])) as [Hlog _].
  - apply list_elem_of_singleton. reflexivity.
  - reflexivity.
  - apply (bool_decide_unpack _). vm_compute. exact I.
  - exact Hlog.
Defined.

(** ** The command dispatch: further properties *)

(** The options that a list of [getopt_long] results leaves. *)
Lemma parse_options_flags opts : ∀ o,
  wipe_data (foldl handle_option o opts)
  = wipe_data o || bool_decide ("w"%char ∈ opts.*1)
  ∧ wipe_cache (foldl handle_option o opts)
    = wipe_cache o || bool_decide ("w"%char ∈ opts.*1 ∨ "c"%char ∈ opts.*1).
Proof.
  induction opts as [|[arg optarg] opts IH]; intros o; cbn [foldl].
  - rewrite !bool_decide_eq_false_2, !orb_false_r; [done| |].
    + by intros [?%elem_of_nil|?%elem_of_nil].
    + by intros ?%elem_of_nil.
  - destruct (IH (handle_option o (arg, optarg))) as [-> ->].
    rewrite fmap_cons. cbn [fst].
    assert (Hw : bool_decide ("w"%char ∈ arg :: opts.*1)
                 = bool_decide (arg = "w"%char) || bool_decide ("w"%char ∈ opts.*1)).
    { apply eq_true_iff_eq. rewrite orb_true_iff, !bool_decide_eq_true, elem_of_cons.
      split; (intros [?|?]; [left|right]); done. }
    assert (Hc : bool_decide ("w"%char ∈ arg :: opts.*1 ∨ "c"%char ∈ arg :: opts.*1)
                 = (bool_decide (arg = "w"%char) || bool_decide (arg = "c"%char))
                   || bool_decide ("w"%char ∈ opts.*1 ∨ "c"%char ∈ opts.*1)).
    { apply eq_true_iff_eq.
      rewrite !orb_true_iff, !bool_decide_eq_true, !elem_of_cons. split.
      - intros [[?|?]|[?|?]]; auto.
      - intros [[?|?]|[?|?]]; auto. }
    rewrite Hw, Hc. unfold handle_option.
    repeat case_bool_decide; subst; cbn [wipe_data wipe_cache]; try done;
      rewrite ?orb_true_r, ?orb_false_r, ?orb_true_l, ?orb_false_l; done.
Qed.

Lemma parse_options_package pre p post : ∀ o,
  "u"%char ∉ post.*1 →
  update_package (foldl handle_option o (pre ++ ("u"%char, p) :: post)) = p.
Proof.
  intros o Hpost. rewrite foldl_app. cbn [foldl].
  set (o1 := handle_option (foldl handle_option o pre) ("u"%char, p)).
  assert (Ho1 : update_package o1 = p) by done.
  clearbody o1. revert o1 Ho1.
  induction post as [|[arg optarg] post IH]; intros o1 Ho1; cbn [foldl]; [done|].
  rewrite fmap_cons in Hpost. apply not_elem_of_cons in Hpost as [Hne Hpost].
  apply IH; [done|]. unfold handle_option. cbn [fst] in Hne.
  repeat case_bool_decide; subst; done.
Qed.

Lemma parse_options_none opts : ∀ o,
  Forall (λ opt, opt.1 ∉ ["u"; "w"; "c"]%char) opts →
  update_package (foldl handle_option o opts) = update_package o
  ∧ wipe_data (foldl handle_option o opts) = wipe_data o
  ∧ wipe_cache (foldl handle_option o opts) = wipe_cache o.
Proof.
  induction opts as [|[arg optarg] opts IH]; intros o Hopts; cbn [foldl]; [done|].
  apply Forall_cons in Hopts as [Harg Hopts]. cbn [fst] in Harg.
  destruct (IH (handle_option o (arg, optarg)) Hopts) as (-> & -> & ->).
  unfold handle_option.
  repeat case_bool_decide; subst; try done; exfalso; apply Harg.
  - left.
  - right. left.
  - right. right. left.
Qed.

Section with_collaborators.
Variable format_root_device : string → Z.
Variable install_package : list ascii → install_status.

(** X20 (a root is formatted only on request).  The dispatch of [main]
    formats the data root only when the wipe-data option was given, and
    the cache root only when the wipe-data or the wipe-cache option was
    given; it formats nothing when an update package was given, and no
    other root ever. *)
Theorem format_needs_wipe_option opts root :
  Format root ∈ (run_command format_root_device install_package
                   (parse_options opts)).2 →
  update_package (parse_options opts) = None
  ∧ (root = "DATA:"%string ∧ "w"%char ∈ opts.*1
     ∨ root = "CACHE:"%string ∧ ("w"%char ∈ opts.*1 ∨ "c"%char ∈ opts.*1)).
Proof.
  destruct (parse_options_flags opts no_options) as [Hd Hc].
  fold (parse_options opts) in Hd, Hc. cbn [no_options wipe_data wipe_cache orb] in Hd, Hc.
  unfold run_command, erase_root.
  destruct (update_package (parse_options opts)) as [p|].
  { cbn [snd]. intros [?|Hin]%elem_of_cons; [done|].
    case_bool_decide; [|by apply elem_of_nil in Hin].
    by apply list_elem_of_singleton in Hin. }
  rewrite Hd, Hc. intros Hin. split; [done|].
  destruct (bool_decide ("w"%char ∈ opts.*1)) eqn:Ew;
    destruct (bool_decide ("w"%char ∈ opts.*1 ∨ "c"%char ∈ opts.*1)) eqn:Ewc;
    cbn [orb app snd] in Hin.
  - apply bool_decide_eq_true in Ew.
    assert (Hroot : root = "DATA:"%string ∨ root = "CACHE:"%string).
    { repeat case_bool_decide; cbn [app snd] in Hin;
        repeat (apply elem_of_cons in Hin as [Hin|Hin]; [try done; injection Hin; auto|]);
        by apply elem_of_nil in Hin. }
    destruct Hroot as [->| ->]; [left|right]; auto.
  - apply bool_decide_eq_true in Ew. apply bool_decide_eq_false in Ewc. tauto.
  - apply bool_decide_eq_true in Ewc. right.
    assert (Hroot : root = "CACHE:"%string).
    { repeat case_bool_decide; cbn [app snd] in Hin;
        repeat (apply elem_of_cons in Hin as [Hin|Hin]; [try done; injection Hin; auto|]);
        by apply elem_of_nil in Hin. }
    by subst.
  - by apply elem_of_nil in Hin.
Qed.

(** X21 (wipe cache).  With the wipe-cache option, without the wipe-data
    option and without an update package, the dispatch formats the cache
    root and nothing else; the status is the error status exactly when
    that has failed. *)
Theorem wipe_cache_erases_cache_only opts :
  "c"%char ∈ opts.*1 →
  "w"%char ∉ opts.*1 →
  update_package (parse_options opts) = None →
  run_command format_root_device install_package (parse_options opts)
  = if bool_decide (format_root_device "CACHE:" = 0%Z)
    then (INSTALL_SUCCESS, [UiPrint "Formatting %s...\n"; Format "CACHE:"])
    else (INSTALL_ERROR, [UiPrint "Formatting %s...\n"; Format "CACHE:";
                          UiPrint "Data wipe failed.\n"]).
Proof.
  intros Hc Hw Hu.
  destruct (parse_options_flags opts no_options) as [Hd Hwc].
  fold (parse_options opts) in Hd, Hwc.
  cbn [no_options wipe_data wipe_cache orb] in Hd, Hwc.
  rewrite bool_decide_eq_false_2 in Hd by done.
  rewrite bool_decide_eq_true_2 in Hwc by (by right).
  unfold run_command, erase_root. rewrite Hu, Hd, Hwc. cbn [orb app].
  repeat case_bool_decide; done.
Qed.

(** X22 (the update package).  Of several update-package options the last
    one counts; the dispatch installs that package, once, and does nothing
    else, whatever wipe options were given with it; its status is the
    status of the installation. *)
Theorem update_package_last_wins pre p post :
  "u"%char ∉ post.*1 →
  run_command format_root_device install_package
    (parse_options (pre ++ ("u"%char, Some p) :: post))
  = (install_package p,
     Install p :: if bool_decide (install_package p ≠ INSTALL_SUCCESS)
                  then [UiPrint "Installation aborted.\n"] else []).
Proof.
  intros Hpost. unfold run_command, parse_options.
  by rewrite (parse_options_package pre (Some p) post no_options Hpost).
Qed.

(** X23 (no command).  When none of the options is an update package, the
    wipe-data or the wipe-cache option, the dispatch does nothing, and
    its status is the error status. *)
Theorem no_command_is_an_error opts :
  Forall (λ opt, opt.1 ∉ ["u"; "w"; "c"]%char) opts →
  run_command format_root_device install_package (parse_options opts)
  = (INSTALL_ERROR, []).
Proof.
  intros Hopts.
  destruct (parse_options_none opts no_options Hopts) as (Hu & Hd & Hc).
  fold (parse_options opts) in Hu, Hd, Hc.
  unfold run_command. by rewrite Hu, Hd, Hc.
Qed.

End with_collaborators.

Lemma format_needs_wipe_option_witness :
  "w"%char ∈ [("c"%char, @None (list ascii)); ("w"%char, None)].*1.
Proof.
  destruct (format_needs_wipe_option (λ _, 0%Z) (λ _, INSTALL_SUCCESS)
              [("c"%char, None); ("w"%char, None)] "DATA:") as [_ [[_ Hw]|[Hroot _]]].
  - simpl. right. left.
  - exact Hw.
  - discriminate Hroot.
Defined.

Lemma wipe_cache_erases_cache_only_witness :
  run_command (λ _, 0%Z) (λ _, INSTALL_SUCCESS) (parse_options [("c"%char, None)])
  = (INSTALL_SUCCESS, [UiPrint "Formatting %s...\n"; Format "CACHE:"]).
Proof.
  apply (wipe_cache_erases_cache_only (λ _, 0%Z) (λ _, INSTALL_SUCCESS)
           [("c"%char, None)]).
  - simpl. left.
  - apply (bool_decide_unpack _). vm_compute. exact I.
  - reflexivity.
Defined.

Lemma update_package_last_wins_witness :
  run_command (λ _, 0%Z) (λ _, INSTALL_ERROR)
    (parse_options [("u"%char, Some (str "CACHE:a.zip")); ("w"%char, None);
                    ("u"%char, Some (str "CACHE:b.zip")); ("c"%char, None)])
  = (INSTALL_ERROR, [Install (str "CACHE:b.zip"); UiPrint "Installation aborted.\n"]).
Proof.
  apply (update_package_last_wins (λ _, 0%Z) (λ _, INSTALL_ERROR)
           [("u"%char, Some (str "CACHE:a.zip")); ("w"%char, None)]
           (str "CACHE:b.zip") [("c"%char, None)]).
  apply (bool_decide_unpack _). vm_compute. exact I.
Defined.

Lemma no_command_is_an_error_witness :
  run_command (λ _, 0%Z) (λ _, INSTALL_SUCCESS)
    (parse_options [("s"%char, Some (str "done"))])
  = (INSTALL_ERROR, []).
Proof.
  apply (no_command_is_an_error (λ _, 0%Z) (λ _, INSTALL_SUCCESS)
           [("s"%char, Some (str "done"))]).
  apply (bool_decide_unpack _). vm_compute. exact I.
Defined.

(** ** A control block that holds something else *)




Section with_layout.
Context `{layout}.









End with_layout.



(** ** The files of finish_recovery *)

Section with_layout.
Context `{layout}.


End with_layout.

(** ** The sizes of the sdcard partitions *)

Lemma to_int_range z : (- 2 ^ 31 ≤ FlashImage.to_int z < 2 ^ 31)%Z.
Proof.
  unfold FlashImage.to_int.
  pose proof (Z.mod_pos_bound (z + 2 ^ 31) (2 ^ 32)). lia.
Qed.

Lemma to_int_modulo z : ∃ k, FlashImage.to_int z = (z + k * 2 ^ 32)%Z.
Proof.
  exists (- ((z + 2 ^ 31) `div` 2 ^ 32))%Z. unfold FlashImage.to_int.
  rewrite Z.mod_eq by lia. lia.
Qed.

Lemma pretty_N_go_length k : ∀ x s,
  (x < 10 ^ N.of_nat k)%N →
  String.length (pretty_N_go x s) ≤ String.length s + k.
Proof.
  induction k as [|k IH]; intros x s Hx.
  - assert (x = 0%N) as -> by (simpl in Hx; lia). rewrite pretty_N_go_0. lia.
  - destruct (decide (x = 0%N)) as [->|Hx0]; [rewrite pretty_N_go_0; lia|].
    rewrite pretty_N_go_step by lia.
    etransitivity; [apply IH|simpl; lia].
    rewrite Nat2N.inj_succ, N.pow_succ_r' in Hx.
    apply N.Div0.div_lt_upper_bound. lia.
Qed.

Lemma str_length s : length (str s) = String.length s.
Proof. unfold str. induction s as [|c s IH]; simpl; [done|]. by rewrite IH. Qed.

(** A non-negative [int] has at most ten digits. *)
Lemma pretty_int_length z :
  (0 ≤ z < 2 ^ 31)%Z → length (str (pretty z)) ≤ 10.
Proof.
  intros Hz. rewrite str_length.
  destruct z as [|p|p]; [simpl; lia| |lia].
  unfold pretty, pretty_Z, pretty, pretty_positive, pretty, pretty_N.
  rewrite decide_False by done.
  apply (pretty_N_go_length 10 (N.pos p) ""). lia.
Qed.

Section with_keycodes.
Context `{keycodes}.

(** What the loop keeps: the size is a non-negative [int], and a multiple
    of the step. *)
Lemma choose_size_spec step keys : ∀ size r rest,
  (0 < step)%Z → (step | 2 ^ 31)%Z →
  (0 ≤ size < 2 ^ 31)%Z → (step | size)%Z →
  choose_size step size keys = Some (r, rest) →
  (0 ≤ r < 2 ^ 31)%Z ∧ (step | r)%Z ∧ length rest < length keys.
Proof.
  induction keys as [|key keys IH]; intros size r rest Hstep Hdiv Hsize Hmul; [done|].
  cbn [choose_size]. case_bool_decide as Hgreen.
  { intros [= <- <-]. simpl. split_and!; [lia..|done|lia]. }
  set (moved := if bool_decide (key = KEY_DOWN ∨ key = KEY_VOLUMEDOWN)
                then FlashImage.to_int (size - step)
                else if bool_decide (key = KEY_UP ∨ key = KEY_VOLUMEUP)
                then FlashImage.to_int (size + step) else size).
  assert (Hmoved : (- 2 ^ 31 ≤ moved < 2 ^ 31)%Z ∧ (step | moved)%Z).
  { assert (Hwrap : (step | 2 ^ 32)%Z).
    { change (2 ^ 32)%Z with (2 * 2 ^ 31)%Z. by apply Z.divide_mul_r. }
    unfold moved. repeat case_bool_decide.
    - split; [apply to_int_range|].
      destruct (to_int_modulo (size - step)) as [k ->].
      apply Z.divide_add_r; [by apply Z.divide_sub_r|by apply Z.divide_mul_r].
    - split; [apply to_int_range|].
      destruct (to_int_modulo (size + step)) as [k ->].
      apply Z.divide_add_r; [by apply Z.divide_add_r|by apply Z.divide_mul_r].
    - split; [lia|done]. }
  clearbody moved. destruct Hmoved as [Hrange Hmul'].
  intros Hrest. apply IH in Hrest as (Hr & Hm & Hl); [|done|done| |].
  - simpl. split_and!; [lia..|done|lia].
  - case_bool_decide; lia.
  - case_bool_decide; [apply Z.divide_0_r|done].
Qed.

(** X28 (the sizes of the sdcard partitions).  Whatever keys are pressed,
    the sizes that [show_menu_partition] hands to [sdparted] are
    non-negative [int]s, the swap size a multiple of 32 and the ext size a
    multiple of 128, and the command fits in the 64 bytes of [es] with its
    final [NUL]. *)
Theorem sdparted_command_fits keys cmd rest :
  sdparted_command_of_keys keys = Some (cmd, rest) →
  ∃ ext swap,
    cmd = sdparted_command ext swap
    ∧ (0 ≤ swap < 2 ^ 31)%Z ∧ (32 | swap)%Z
    ∧ (0 ≤ ext < 2 ^ 31)%Z ∧ (128 | ext)%Z
    ∧ length cmd < 64.
Proof.
  unfold sdparted_command_of_keys. intros Hcmd.
  destruct (choose_size 32 32 keys) as [[swap keys1]|] eqn:Eswap; [|done].
  cbn [mbind option_bind] in Hcmd.
  destruct (choose_size 128 512 keys1) as [[ext keys2]|] eqn:Eext; [|done].
  injection Hcmd as <- <-.
  apply choose_size_spec in Eswap as (Hswap & Hswap32 & _);
    [|lia|by exists 67108864%Z|lia|by exists 1%Z].
  apply choose_size_spec in Eext as (Hext & Hext128 & _);
    [|lia|by exists 16777216%Z|lia|by exists 4%Z].
  exists ext, swap. split_and!; [done|lia..|done|lia|lia|done|].
  unfold sdparted_command. rewrite !length_app.
  pose proof (pretty_int_length ext Hext). pose proof (pretty_int_length swap Hswap).
  change (length (str "/sbin/sdparted -s -es ")) with 22.
  change (length (str "M -ss ")) with 6. change (length (str "M")) with 1. lia.
Qed.

End with_keycodes.

Lemma sdparted_command_fits_witness :
  ∃ ext swap,
    str "/sbin/sdparted -s -es 768M -ss 0M" = sdparted_command ext swap
    ∧ (32 | swap)%Z ∧ (128 | ext)%Z.
Proof.
  destruct (@sdparted_command_fits example_keycodes [2; 3; 1; 4; 5; 1; 7]%Z
              (str "/sbin/sdparted -s -es 768M -ss 0M") [7%Z])
    as (ext & swap & Hcmd & _ & Hswap & _ & Hext & _).
  - vm_compute. reflexivity.
  - exists ext, swap. split; [exact Hcmd|]. split; [exact Hswap|exact Hext].
Defined.

End RecoveryProofs.
